(** * Music streaming analytics: a shallow embedding of [music_analytics.py]
      and of its fixture generator [data_generator.py]

    The analytics module is a PySpark batch job.  Relations (DataFrames) are
    modelled as lists of rows, the relational operators the job uses
    (inner join, [groupBy().count()], window [row_number], [orderBy],
    [limit], [distinct]) as list functions, and the driver program as a small
    state-and-error monad over the file system, the driver's action log and
    the counter of random seeds drawn.

    Modelling conventions:
    - Counts are [nat]; durations and timestamps are [Z] (timestamps in
      microseconds since the epoch), [None] being SQL NULL.
    - A value of a string column is an [option string], [None] being SQL
      NULL.  The schemas of the job declare every field [nullable = False],
      but Spark takes the fields of a CSV source as nullable whatever the
      schema says, and reads an empty field as NULL (a field with nothing
      between its separators; the model has no field that is empty
      between quotes, which Spark reads as the empty string).  A
      comparison with NULL ([==], [isin], the condition of a join) is NULL
      and keeps no row, while [groupBy], [partitionBy], [distinct] and
      [orderBy] treat NULL as one more value, the least in ascending
      order.
    - Ratios and averages are exact rationals ([Q]) where Spark computes
      IEEE doubles.
    - What Spark leaves to the implementation is left to an oracle: the
      order among rows that tie under an [orderBy] is decided by an arbitrary
      [tie] function, [F.rand()] by an arbitrary function from the seed
      drawn and the row position to a sort key, the session time zone by
      an arbitrary offset from UTC at every instant, and the reading of
      digits outside ASCII by an arbitrary function of the token.  Every
      statement below is universally quantified over these oracles.  The
      rows of a relation that is not sorted are listed in an order the
      model fixes; what is stated of such a relation is about its rows and
      their number.
    - The CSV reader, [F.to_timestamp] and [isin] behave as in Spark 3 with
      its default settings (PERMISSIVE mode, ANSI mode off, an empty field
      for NULL).
    - The file system does not fail: an input file is there or is not, and
      the path [output], when it exists, is a directory the job can remove
      and create again.
    - The generator is a program in a state-and-error monad over the
      streams of random draws of Python's [random] and of NumPy; its
      [datetime] values are whole seconds, and its floats exact rationals
      that overflow where doubles do. *)

From Stdlib Require Import QArith Qabs Ascii String.
From stdpp Require Import base decidable option list list_numbers sorting
  strings gmap pretty.

Local Open Scope Z_scope.
Local Open Scope nat_scope.

(** ** Data model *)

(** A value of a [StringType] column. *)
Abbreviation Str := (option string).

(** A line of [data/listening_logs.csv]: the text of its four fields. *)
Module RawLog.
Record t := mk {
  user_id : string;
  song_id : string;
  timestamp : string;
  duration_sec : string
}.
End RawLog.

(** A line of [data/songs_metadata.csv]: the text of its five fields. *)
Module RawSong.
Record t := mk {
  song_id : string;
  title : string;
  artist : string;
  genre : string;
  mood : string
}.
#[global] Instance eq_dec : EqDecision t.
Proof. solve_decision. Defined.
End RawSong.

(** A row of [logs_df]: [timestamp] after [F.to_timestamp], [duration_sec]
    after the [IntegerType] conversion. *)
Module Log.
Record t := mk {
  user_id : Str;
  song_id : Str;
  timestamp : option Z;
  duration_sec : option Z
}.
#[global] Instance eq_dec : EqDecision t.
Proof. solve_decision. Defined.
End Log.

(** A row of [songs_df]; all five columns are [StringType]. *)
Module Song.
Record t := mk {
  song_id : Str;
  title : Str;
  artist : Str;
  genre : Str;
  mood : Str
}.
#[global] Instance eq_dec : EqDecision t.
Proof. solve_decision. Defined.
End Song.

(** A row of [enriched_logs]: the join column first, then the remaining
    columns of the left and of the right side. *)
Module Enriched.
Record t := mk {
  song_id : Str;
  user_id : Str;
  timestamp : option Z;
  duration_sec : option Z;
  title : Str;
  artist : Str;
  genre : Str;
  mood : Str
}.
#[global] Instance eq_dec : EqDecision t.
Proof. solve_decision. Defined.
End Enriched.

(** A row of [final_recommendations]. *)
Module Recommendation.
Record t := mk {
  user_id : Str;
  song_id : Str;
  title : Str;
  artist : Str
}.
#[global] Instance eq_dec : EqDecision t.
Proof. solve_decision. Defined.
End Recommendation.

(** ** Relational operators *)

(** [a == b] between two nullable values: NULL when a side is NULL, and a
    filter or a join keeps a row only where the condition is true. *)
Definition col_eq {K} (a b : option K) : Prop := is_Some a ∧ a = b.

#[global] Instance col_eq_dec {K} `{EqDecision K} (a b : option K) :
  Decision (col_eq a b).
Proof. unfold col_eq. apply _. Defined.

(** [~c.isin(values)]: true when [c] is not NULL, is none of the values and
    none of the values is NULL; false or NULL otherwise. *)
Definition col_not_in {K} (c : option K) (values : list (option K)) : Prop :=
  is_Some c ∧ (c ∉ values) ∧ (None ∉ values).

#[global] Instance col_not_in_dec {K} `{EqDecision K} (c : option K)
    (values : list (option K)) : Decision (col_not_in c values).
Proof. unfold col_not_in. apply _. Defined.

Section relational.
Context {A B K : Type} `{EqDecision K}.

(** [df.groupBy(key).count()]: one row per distinct key. *)
Definition group_by_count (key : A → K) (l : list A) : list (K * nat) :=
  (λ k, (k, length (filter (λ x, key x = k) l))) <$> remove_dups (key <$> l).

(** [l.join(r, on=key, how="inner")]: a row whose key is NULL joins no
    row. *)
Definition inner_join (ka : A → option K) (kb : B → option K)
    (l : list A) (r : list B) : list (A * B) :=
  a ← l; (λ b, (a, b)) <$> filter (λ b, col_eq (ka a) (kb b)) r.

(** [withColumn("rank", F.row_number().over(
    Window.partitionBy(key).orderBy(R)))]. *)
Definition row_number_over (key : A → K) (R : relation A) `{!RelDecision R}
    (l : list A) : list (A * nat) :=
  k ← remove_dups (key <$> l);
  imap (λ i x, (x, S i)) (merge_sort R (filter (λ x, key x = k) l)).

(** The rows [.filter(F.col("rank") == 1)] keeps of such a window, without
    the rank column: the head of every sorted partition. *)
Definition rank_1 (key : A → K) (R : relation A) `{!RelDecision R}
    (l : list A) : list A :=
  remove_dups (key <$> l) ≫=
    λ k, take 1 (merge_sort R (filter (λ x, key x = k) l)).

(** [withColumn(c, F.max(measure).over(Window.partitionBy(key)))]. *)
Definition max_over (key : A → K) (measure : A → nat) (l : list A)
  : list (A * nat) :=
  (λ x, (x, max_list_with measure (filter (λ y, key y = key x) l))) <$> l.
End relational.

(** [orderBy(F.desc(measure))]; rows with equal measure come out in the
    order the oracle [tie] picks. *)
Definition desc_by {A} (measure tie : A → nat) : relation A :=
  λ a b, measure b < measure a ∨ (measure a = measure b ∧ tie a ≤ tie b).

#[global] Instance desc_by_dec {A} (measure tie : A → nat) :
  RelDecision (desc_by measure tie).
Proof. intros a b. unfold desc_by. apply _. Defined.

Definition order_by_desc {A} (measure tie : A → nat) (l : list A) : list A :=
  merge_sort (desc_by measure tie) l.

(** Ascending order on a string column: NULL first, then the strings byte
    by byte. *)
Definition col_le (a b : Str) : Prop :=
  match a, b with
  | None, _ => True
  | Some _, None => False
  | Some x, Some y => String.leb x y
  end.

#[global] Instance col_le_dec : RelDecision col_le.
Proof. intros [x|] [y|]; simpl; apply _. Defined.

(** [orderBy(key)] on a string column. *)
Definition asc_by {A} (key : A → Str) : relation A :=
  λ a b, col_le (key a) (key b).

#[global] Instance asc_by_dec {A} (key : A → Str) : RelDecision (asc_by key).
Proof. intros a b. unfold asc_by. apply _. Defined.

Definition order_by_asc {A} (key : A → Str) (l : list A) : list A :=
  merge_sort (asc_by key) l.

(** [orderBy(F.rand())]: row [i] gets the sort key [keys i]. *)
Definition by_key {A} : relation (nat * A) := λ p q, p.1 ≤ q.1.

#[global] Instance by_key_dec {A} : RelDecision (@by_key A).
Proof. intros p q. unfold by_key. apply _. Defined.

Definition order_by_rand {A} (keys : nat → nat) (l : list A) : list A :=
  snd <$> merge_sort by_key (imap (λ i x, (keys i, x)) l).

(** [groupBy(key).agg(...)] with one aggregate over the rows of the group. *)
Definition group_by_agg {A K V} `{EqDecision K} (key : A → K)
    (agg : list A → V) (l : list A) : list (K * V) :=
  (λ k, (k, agg (filter (λ x, key x = k) l))) <$> remove_dups (key <$> l).

(** [orderBy(F.desc(score))] on a ratio column. *)
Definition desc_by_Q {A} (score : A → Q) (tie : A → nat) : relation A :=
  λ a b, negb (Qle_bool (score a) (score b))
         || (Qeq_bool (score a) (score b) && bool_decide (tie a ≤ tie b)).

#[global] Instance desc_by_Q_dec {A} (score : A → Q) (tie : A → nat) :
  RelDecision (desc_by_Q score tie).
Proof. intros a b. unfold desc_by_Q. apply _. Defined.

(** ** What the run does not determine *)

Record Runtime := {
  (** [F.to_timestamp] on the text of a [StringType] value: NULL when the
      text is no timestamp; the instant depends on the session time zone *)
  to_timestamp : string → option Z;
  (** Java's [Integer.parseInt] on a token with a character outside ASCII,
      where it reads the decimal digits of every script *)
  parse_unicode_int : string → option Z;
  (** [datetime.now()] *)
  now : Z;
  (** the session time zone: how far, in microseconds, its wall clock is
      ahead of UTC at an instant *)
  utc_offset : Z → Z;
  (** the order among tied rows, one oracle per [orderBy] of the job *)
  tie_genre_counts : Str * Str * nat → nat;
  tie_avg_listen_time : Str * (option Q * nat) → nat;
  tie_top_songs : Str * Str * Str * nat → nat;
  tie_mood_counts : Str * Str * nat → nat;
  tie_loyalty_scores : Str * Str * Q → nat;
  tie_night_owl_users : Str * nat → nat;
  (** [F.rand()]: the sort key of the row at a position, per seed drawn *)
  rand : nat → nat → nat
}.

(** ** The loader *)

(** A [StringType] field: the reader's [nullValue] is the empty text, so an
    empty field is NULL whatever the schema says of nullability. *)
Definition read_string (s : string) : Str :=
  if decide (s = "") then None else Some s.

(** The CSV reader converts an [IntegerType] token with Java's
    [Integer.parseInt]: an optional sign, then one or more decimal digits,
    the value within 32 bits.  The job sets no [mode] option, so the reader
    runs in its default PERMISSIVE mode: a token that does not convert
    yields NULL in that field and the row is kept. *)
Definition digit (c : Ascii.ascii) : option Z :=
  let n := Z.of_N (Ascii.N_of_ascii c) in
  if bool_decide (48 ≤ n ≤ 57)%Z then Some (n - 48)%Z else None.

Fixpoint digits (acc : Z) (s : string) : option Z :=
  match s with
  | EmptyString => Some acc
  | String c s' => d ← digit c; digits (10 * acc + d)%Z s'
  end.

Definition in_int_range (v : Z) : option Z :=
  if bool_decide (- 2 ^ 31 ≤ v < 2 ^ 31)%Z then Some v else None.

(** A token of ASCII characters. *)
Definition parse_ascii_int (s : string) : option Z :=
  match s with
  | EmptyString => None
  | String "-"%char (String _ _ as s') => v ← digits 0 s'; in_int_range (- v)
  | String "+"%char (String _ _ as s') => v ← digits 0 s'; in_int_range v
  | _ => v ← digits 0 s; in_int_range v
  end.

Fixpoint is_ascii (s : string) : bool :=
  match s with
  | EmptyString => true
  | String c s' => bool_decide (Ascii.N_of_ascii c < 128)%N && is_ascii s'
  end.

Definition parse_int (rt : Runtime) (s : string) : option Z :=
  if is_ascii s then parse_ascii_int s
  else v ← parse_unicode_int rt s; in_int_range v.

(** A row of [logs_df] from a line of the file: the schema conversion, then
    [withColumn("timestamp", F.to_timestamp("timestamp"))]. *)
Definition read_log (rt : Runtime) (r : RawLog.t) : Log.t :=
  Log.mk (read_string (RawLog.user_id r)) (read_string (RawLog.song_id r))
         (read_string (RawLog.timestamp r) ≫= to_timestamp rt)
         (parse_int rt (RawLog.duration_sec r)).

(** A row of [songs_df] from a line of the file. *)
Definition read_song (r : RawSong.t) : Song.t :=
  Song.mk (read_string (RawSong.song_id r)) (read_string (RawSong.title r))
          (read_string (RawSong.artist r)) (read_string (RawSong.genre r))
          (read_string (RawSong.mood r)).

Definition enrich_row (p : Log.t * Song.t) : Enriched.t :=
  Enriched.mk (Log.song_id p.1) (Log.user_id p.1) (Log.timestamp p.1)
              (Log.duration_sec p.1) (Song.title p.2) (Song.artist p.2)
              (Song.genre p.2) (Song.mood p.2).

(** [logs_df.join(songs_df, on="song_id", how="inner")] *)
Definition enrich (logs_df : list Log.t) (songs_df : list Song.t)
  : list Enriched.t :=
  enrich_row <$> inner_join Log.song_id Song.song_id logs_df songs_df.

(** ** The analyses, as relations *)

(** *** Task 1 *)

(** Rows [(user_id, genre, play_count)]. *)
Definition user_genre_counts (enriched_logs : list Enriched.t)
  : list (Str * Str * nat) :=
  group_by_count (λ e, (Enriched.user_id e, Enriched.genre e)) enriched_logs.

Definition user_favorite_genres (rt : Runtime) (enriched_logs : list Enriched.t)
  : list (Str * Str * nat) :=
  order_by_asc (λ r, r.1.1)
    (fst <$> filter (λ r, r.2 = 1)
       (row_number_over (λ r, r.1.1) (desc_by snd (tie_genre_counts rt))
          (user_genre_counts enriched_logs))).

(** *** Task 2 *)

(** [F.avg] skips NULLs and is NULL over no value. *)
Definition avg (l : list (option Z)) : option Q :=
  match omap id l with
  | [] => None
  | xs => Some (foldr Z.add 0%Z xs # Pos.of_nat (length xs))
  end.

(** Rows [(song_id, (avg_duration_sec, play_count))]. *)
Definition avg_listen_time (rt : Runtime) (logs_df : list Log.t)
  : list (Str * (option Q * nat)) :=
  order_by_desc (λ r, r.2.2) (tie_avg_listen_time rt)
    (group_by_agg Log.song_id
       (λ g, (avg (Log.duration_sec <$> g), length g)) logs_df).

(** *** Task 3 *)

(** [timedelta(days=d)], in microseconds. *)
Definition timedelta_days (d : Z) : Z := (d * 86400 * 1000000)%Z.

(** [F.col(c) >= v]: NULL, hence not kept, on a NULL timestamp. *)
Definition col_ge (c : option Z) (v : Z) : bool :=
  match c with
  | Some t => bool_decide (v ≤ t)%Z
  | None => false
  end.

Definition one_week_ago (rt : Runtime) : Z := (now rt - timedelta_days 7)%Z.

(** The rows that pass [.filter(F.col("timestamp") >= one_week_ago)]. *)
Definition this_week (rt : Runtime) (enriched_logs : list Enriched.t)
  : list Enriched.t :=
  filter (λ e, col_ge (Enriched.timestamp e) (one_week_ago rt)) enriched_logs.

(** Rows [(song_id, title, artist, play_count)]. *)
Definition song_counts (rt : Runtime) (enriched_logs : list Enriched.t)
  : list (Str * Str * Str * nat) :=
  group_by_count
    (λ e, (Enriched.song_id e, Enriched.title e, Enriched.artist e))
    (this_week rt enriched_logs).

Definition top_songs (rt : Runtime) (enriched_logs : list Enriched.t)
  : list (Str * Str * Str * nat) :=
  take 10 (order_by_desc snd (tie_top_songs rt) (song_counts rt enriched_logs)).

(** *** Task 4, the relations built before and inside the loop *)

(** Rows [(user_id, mood, count)]. *)
Definition mood_counts (enriched_logs : list Enriched.t)
  : list (Str * Str * nat) :=
  group_by_count (λ e, (Enriched.user_id e, Enriched.mood e)) enriched_logs.

(** The [user_id] column of the users whose rank-1 mood is [Sad]. *)
Definition sad_song_listeners (rt : Runtime) (enriched_logs : list Enriched.t)
  : list Str :=
  (λ r, r.1.1.1) <$>
    filter (λ r, r.2 = 1 ∧ r.1.1.2 = Some "Sad")
      (row_number_over (λ r, r.1.1) (desc_by snd (tie_mood_counts rt))
         (mood_counts enriched_logs)).

(** Rows [(user_id, song_id)], distinct. *)
Definition user_songs (enriched_logs : list Enriched.t) : list (Str * Str) :=
  remove_dups
    ((λ e, (Enriched.user_id e, Enriched.song_id e)) <$> enriched_logs).

Definition happy_songs (songs_df : list Song.t) : list Song.t :=
  filter (λ s, Song.mood s = Some "Happy") songs_df.

(** The [song_id] column of [user_songs.filter(F.col("user_id") == user_id)],
    [user_id] being the value the driver took from the collected row:
    [None] when the row has a NULL there, and the comparison is then with
    NULL. *)
Definition user_listened_songs (enriched_logs : list Enriched.t)
    (user_id : Str) : list Str :=
  snd <$> filter (λ p, col_eq p.1 user_id) (user_songs enriched_logs).

(** The relation of one loop iteration; [keys] is the [F.rand()] column. *)
Definition user_recommendations (keys : nat → nat) (songs_df : list Song.t)
    (user_listened_songs : list Str) (user_id : Str)
  : list Recommendation.t :=
  (λ s, Recommendation.mk user_id (Song.song_id s) (Song.title s)
          (Song.artist s)) <$>
    take 3 (order_by_rand keys
              (filter (λ s, col_not_in (Song.song_id s) user_listened_songs)
                 (happy_songs songs_df))).

(** The [if recommendations: ... else: ...] that combines the relations of
    the iterations; the empty relation stands for
    [spark.createDataFrame([], schema)]. *)
Definition combine (recommendations : list (list Recommendation.t))
  : list Recommendation.t :=
  match recommendations with
  | [] => []
  | first :: rest => foldl (λ final r, final ++ r) first rest
  end.

(** *** Task 5 *)

(** Rows [(user_id, total_plays)]. *)
Definition user_total_plays (enriched_logs : list Enriched.t)
  : list (Str * nat) :=
  group_by_count Enriched.user_id enriched_logs.

(** Rows [(user_id, genre, genre_plays)]. *)
Definition user_genre_plays (enriched_logs : list Enriched.t)
  : list (Str * Str * nat) :=
  group_by_count (λ e, (Enriched.user_id e, Enriched.genre e)) enriched_logs.

(** Rows [(user_id, genre, max_genre_plays)]. *)
Definition user_max_genre (enriched_logs : list Enriched.t)
  : list (Str * Str * nat) :=
  (λ r, (r.1.1, r.2)) <$>
    filter (λ r, r.1.2 = r.2)
      (max_over (λ r, r.1.1) snd (user_genre_plays enriched_logs)).

(** [F.col("max_genre_plays") / F.col("total_plays")] *)
Definition loyalty_score (max_genre_plays total_plays : nat) : Q :=
  Z.of_nat max_genre_plays # Pos.of_nat total_plays.

(** [F.col(c) > v] on a ratio column. *)
Definition col_gt (c v : Q) : bool := negb (Qle_bool c v).

(** Rows [(user_id, genre, loyalty_score)]. *)
Definition loyalty_scores (rt : Runtime) (enriched_logs : list Enriched.t)
  : list (Str * Str * Q) :=
  merge_sort (desc_by_Q snd (tie_loyalty_scores rt))
    (filter (λ r, col_gt r.2 0.8)
       ((λ p, (p.1.1, loyalty_score p.1.2 p.2.2)) <$>
          inner_join (λ r, r.1.1) fst
            (user_max_genre enriched_logs) (user_total_plays enriched_logs))).

(** *** Task 6 *)

(** [F.hour]: the hour on the wall clock of the session time zone. *)
Definition hour (rt : Runtime) (c : option Z) : option Z :=
  (λ t, ((t + utc_offset rt t) `div` 3600000000) `mod` 24)%Z <$> c.

Definition is_night (rt : Runtime) (c : option Z) : bool :=
  match hour rt c with
  | Some h => bool_decide (0 ≤ h)%Z && bool_decide (h < 5)%Z
  | None => false
  end.

(** Rows [(user_id, night_plays)]. *)
Definition night_owl_users (rt : Runtime) (logs_df : list Log.t)
  : list (Str * nat) :=
  order_by_desc snd (tie_night_owl_users rt)
    (group_by_count Log.user_id
       (filter (λ l, is_night rt (Log.timestamp l)) logs_df)).

(** ** The driver program *)

(** What a location under [output/] holds. *)
Inductive Artifact :=
  | EmptyDir
  | FavoriteGenres (rows : list (Str * Str * nat))
  | AvgListenTime (rows : list (Str * (option Q * nat)))
  | TopSongs (rows : list (Str * Str * Str * nat))
  | Recommendations (rows : list Recommendation.t)
  | LoyaltyScores (rows : list (Str * Str * Q))
  | NightOwls (rows : list (Str * nat))
  | EnrichedLogs (rows : list Enriched.t).

(** An action that brings rows to the driver. *)
Inductive DriverAction :=
  | Collect_sad_song_listeners
  | Collect_user_listened_songs (user_id : Str).

#[global] Instance DriverAction_eq_dec : EqDecision DriverAction.
Proof. solve_decision. Defined.

Inductive Error :=
  | PathDoesNotExist (path : string).

(** The two input files ([None]: no such file), the content of [output/]
    by location, the driver's collects so far (latest first) and the
    number of [F.rand()] seeds drawn. *)
Record World := {
  listening_logs_csv : option (list RawLog.t);
  songs_metadata_csv : option (list RawSong.t);
  output : gmap string Artifact;
  collects : list DriverAction;
  seeds_drawn : nat
}.

Definition App (A : Type) : Type := World → World * (Error + A).

Definition ret {A} (a : A) : App A := λ w, (w, inr a).

Definition bind {A B} (m : App A) (k : A → App B) : App B :=
  λ w, match m w with
       | (w', inr a) => k a w'
       | (w', inl e) => (w', inl e)
       end.

Definition raise {A} (e : Error) : App A := λ w, (w, inl e).

Declare Scope app_scope.
Delimit Scope app_scope with app.
Notation "x <- m ;; k" := (bind m (λ x, k))
  (at level 100, m at next level, right associativity) : app_scope.
Notation "m ;;; k" := (bind m (λ _, k))
  (at level 100, right associativity) : app_scope.
Local Open Scope app_scope.

Definition set_output (f : gmap string Artifact → gmap string Artifact)
  : App unit :=
  λ w, ({| listening_logs_csv := listening_logs_csv w;
           songs_metadata_csv := songs_metadata_csv w;
           output := f (output w);
           collects := collects w;
           seeds_drawn := seeds_drawn w |}, inr tt).

(** [df.collect()] *)
Definition collect {A} (a : DriverAction) (rows : list A) : App (list A) :=
  λ w, ({| listening_logs_csv := listening_logs_csv w;
           songs_metadata_csv := songs_metadata_csv w;
           output := output w;
           collects := a :: collects w;
           seeds_drawn := seeds_drawn w |}, inr rows).

(** The seed of a fresh [F.rand()]. *)
Definition draw_seed : App nat :=
  λ w, ({| listening_logs_csv := listening_logs_csv w;
           songs_metadata_csv := songs_metadata_csv w;
           output := output w;
           collects := collects w;
           seeds_drawn := S (seeds_drawn w) |}, inr (seeds_drawn w)).

(** [df.write.mode("overwrite")] to a location. *)
Definition write (location : string) (a : Artifact) : App unit :=
  set_output (λ o, <[location := a]> o).

(** [for x in xs: body], collecting what the body appends. *)
Fixpoint for_each {A B} (xs : list A) (body : A → App B) : App (list B) :=
  match xs with
  | [] => ret []
  | x :: xs' => b <- body x;; bs <- for_each xs' body;; ret (b :: bs)
  end.

Definition subdirs : list string :=
  ["user_favorite_genres"; "avg_listen_time_per_song"; "top_songs_this_week";
   "happy_recommendations"; "genre_loyalty_scores"; "night_owl_users";
   "enriched_logs"].

(** [shutil.rmtree(base_dir)] when it exists, then one [os.makedirs] per
    subdirectory. *)
Definition prepare_output_directory : App unit :=
  set_output (λ _, ∅);;;
  for_each subdirs (λ subdir, set_output (λ o, <[subdir := EmptyDir]> o));;;
  ret tt.

(** [spark.read.schema(...).csv(path)] checks the path when it is called. *)
Definition read_csv {A} (path : string) (file : World → option (list A))
  : App (list A) :=
  λ w, match file w with
       | Some rows => ret rows w
       | None => raise (PathDoesNotExist path) w
       end.

Definition load_data (rt : Runtime)
  : App (list Log.t * list Song.t * list Enriched.t) :=
  raw_logs <- read_csv "data/listening_logs.csv" listening_logs_csv;;
  let logs_df := read_log rt <$> raw_logs in
  raw_songs <- read_csv "data/songs_metadata.csv" songs_metadata_csv;;
  let songs_df := read_song <$> raw_songs in
  let enriched_logs := enrich logs_df songs_df in
  ret (logs_df, songs_df, enriched_logs).

Definition task1_user_favorite_genres (rt : Runtime)
    (enriched_logs : list Enriched.t) : App (list (Str * Str * nat)) :=
  let user_favorite_genres := user_favorite_genres rt enriched_logs in
  write "user_favorite_genres" (FavoriteGenres user_favorite_genres);;;
  ret user_favorite_genres.

Definition task2_avg_listen_time_per_song (rt : Runtime)
    (logs_df : list Log.t) : App (list (Str * (option Q * nat))) :=
  let avg_listen_time := avg_listen_time rt logs_df in
  write "avg_listen_time_per_song" (AvgListenTime avg_listen_time);;;
  ret avg_listen_time.

Definition task3_top_songs_this_week (rt : Runtime)
    (enriched_logs : list Enriched.t) (songs_df : list Song.t)
  : App (list (Str * Str * Str * nat)) :=
  let top_songs := top_songs rt enriched_logs in
  write "top_songs_this_week" (TopSongs top_songs);;;
  ret top_songs.

Definition task4_happy_song_recommendations (rt : Runtime)
    (enriched_logs : list Enriched.t) (songs_df : list Song.t)
  : App (list Recommendation.t) :=
  cohort <- collect Collect_sad_song_listeners
              (sad_song_listeners rt enriched_logs);;
  recommendations <- for_each cohort (λ user_id,
      listened <- collect (Collect_user_listened_songs user_id)
                    (user_listened_songs enriched_logs user_id);;
      seed <- draw_seed;;
      ret (user_recommendations (rand rt seed) songs_df listened user_id));;
  let final_recommendations := combine recommendations in
  write "happy_recommendations" (Recommendations final_recommendations);;;
  ret final_recommendations.

Definition task5_genre_loyalty_scores (rt : Runtime)
    (enriched_logs : list Enriched.t) : App (list (Str * Str * Q)) :=
  let loyalty_scores := loyalty_scores rt enriched_logs in
  write "genre_loyalty_scores" (LoyaltyScores loyalty_scores);;;
  ret loyalty_scores.

Definition task6_night_owl_users (rt : Runtime) (logs_df : list Log.t)
  : App (list (Str * nat)) :=
  let night_owl_users := night_owl_users rt logs_df in
  write "night_owl_users" (NightOwls night_owl_users);;;
  ret night_owl_users.

Definition save_enriched_logs (enriched_logs : list Enriched.t) : App unit :=
  write "enriched_logs" (EnrichedLogs enriched_logs).

(** The [__main__] block. *)
Definition main (rt : Runtime) : App unit :=
  prepare_output_directory;;;
  loaded <- load_data rt;;
  let '(logs_df, songs_df, enriched_logs) := loaded in
  task1_user_favorite_genres rt enriched_logs;;;
  task2_avg_listen_time_per_song rt logs_df;;;
  task3_top_songs_this_week rt enriched_logs songs_df;;;
  task4_happy_song_recommendations rt enriched_logs songs_df;;;
  task5_genre_loyalty_scores rt enriched_logs;;;
  task6_night_owl_users rt logs_df;;;
  save_enriched_logs enriched_logs.


(** ** Closed forms of the driver's effects *)

(** The empty directory structure [prepare_output_directory] leaves. *)
Definition skeleton : gmap string Artifact :=
  foldl (λ o subdir, <[subdir := EmptyDir]> o) ∅ subdirs.

Definition with_output (o : gmap string Artifact) (w : World) : World :=
  {| listening_logs_csv := listening_logs_csv w;
     songs_metadata_csv := songs_metadata_csv w;
     output := o;
     collects := collects w;
     seeds_drawn := seeds_drawn w |}.

(** The relation the [i]-th iteration appends, the loop starting with
    [seed] seeds drawn. *)
Definition iteration (rt : Runtime) (enriched_logs : list Enriched.t)
    (songs_df : list Song.t) (seed : nat) (i : nat) (user_id : Str)
  : list Recommendation.t :=
  user_recommendations (rand rt (seed + i)) songs_df
    (user_listened_songs enriched_logs user_id) user_id.

(** The relation task 4 writes and returns, the task starting with [seed]
    seeds drawn. *)
Definition final_recommendations (rt : Runtime)
    (enriched_logs : list Enriched.t) (songs_df : list Song.t) (seed : nat)
  : list Recommendation.t :=
  mjoin (imap (iteration rt enriched_logs songs_df seed)
           (sad_song_listeners rt enriched_logs)).

(** The content of [output/] after a run that completes. *)
Definition written_output (rt : Runtime) (logs_df : list Log.t)
    (songs_df : list Song.t) (seed : nat) : gmap string Artifact :=
  let enriched_logs := enrich logs_df songs_df in
  <["enriched_logs" := EnrichedLogs enriched_logs]>
  (<["night_owl_users" := NightOwls (night_owl_users rt logs_df)]>
  (<["genre_loyalty_scores" :=
       LoyaltyScores (loyalty_scores rt enriched_logs)]>
  (<["happy_recommendations" :=
       Recommendations (final_recommendations rt enriched_logs songs_df seed)]>
  (<["top_songs_this_week" := TopSongs (top_songs rt enriched_logs)]>
  (<["avg_listen_time_per_song" :=
       AvgListenTime (avg_listen_time rt logs_df)]>
  (<["user_favorite_genres" :=
       FavoriteGenres (user_favorite_genres rt enriched_logs)]>
     skeleton)))))).

(** ** Notions the statements use

    These follow the words of the specification and are written on the
    events themselves, with none of the operators of the analyses. *)

(** What a top-[k] selection of a group by a measure owes: members only;
    the whole group when it has at most [k] members; otherwise exactly [k]
    distinct members, none below a member left out. *)
Definition top_k_of {A} (k : nat) (measure : A → nat)
    (group result : list A) : Prop :=
  (∀ r, r ∈ result → r ∈ group)
  ∧ (length group ≤ k → result ≡ₚ group)
  ∧ (k < length group →
     length result = k ∧ NoDup result
     ∧ ∀ r m, r ∈ result → m ∈ group → m ∉ result → measure m ≤ measure r).

(** An actor's total play count, the play count of one category, and the
    maximum of the latter over the categories of the log. *)
Definition total_play_count (enriched_logs : list Enriched.t)
    (actor : Str) : nat :=
  length (filter (λ e, Enriched.user_id e = actor) enriched_logs).

Definition category_play_count (enriched_logs : list Enriched.t)
    (actor category : Str) : nat :=
  length (filter (λ e, Enriched.user_id e = actor ∧ Enriched.genre e = category)
            enriched_logs).

Definition max_category_play_count (enriched_logs : list Enriched.t)
    (actor : Str) : nat :=
  max_list (category_play_count enriched_logs actor
              <$> (Enriched.genre <$> enriched_logs)).

(** The group task 1 ranks for an actor: one member per category the actor
    has an event of, its measure the play count of the category. *)
Definition genre_group (enriched_logs : list Enriched.t) (actor : Str)
  : list (Str * Str * nat) :=
  (λ category,
     (actor, category, category_play_count enriched_logs actor category))
    <$> remove_dups
          (Enriched.genre
             <$> filter (λ e, Enriched.user_id e = actor) enriched_logs).

(** The week of a run, from seven days before [now] to [now]. *)
Definition in_week (rt : Runtime) (e : Enriched.t) : Prop :=
  match Enriched.timestamp e with
  | Some t => (now rt - 7 * 86400 * 1000000 ≤ t ≤ now rt)%Z
  | None => False
  end.

#[global] Instance in_week_dec (rt : Runtime) (e : Enriched.t) :
  Decision (in_week rt e).
Proof. unfold in_week. destruct (Enriched.timestamp e); apply _. Defined.

(** The same week without its end: the events dated seven days before
    [now] or later. *)
Definition from_week_start (rt : Runtime) (e : Enriched.t) : Prop :=
  match Enriched.timestamp e with
  | Some t => (now rt - 7 * 86400 * 1000000 ≤ t)%Z
  | None => False
  end.

#[global] Instance from_week_start_dec (rt : Runtime) (e : Enriched.t) :
  Decision (from_week_start rt e).
Proof. unfold from_week_start. destruct (Enriched.timestamp e); apply _. Defined.

(** The number of events of a window that play an item. *)
Definition item_play_count (window : Enriched.t → Prop)
    `{∀ e, Decision (window e)} (enriched_logs : list Enriched.t)
    (item : Str * Str * Str) : nat :=
  length (filter (λ e, window e
                       ∧ (Enriched.song_id e, Enriched.title e,
                          Enriched.artist e) = item)
            enriched_logs).

(** The group task 3 ranks: one member per item played in the window, its
    measure the number of events of the window that play it. *)
Definition item_group (window : Enriched.t → Prop)
    `{∀ e, Decision (window e)} (enriched_logs : list Enriched.t)
  : list (Str * Str * Str * nat) :=
  (λ item, (item, item_play_count window enriched_logs item))
    <$> remove_dups
          ((λ e, (Enriched.song_id e, Enriched.title e, Enriched.artist e))
             <$> filter window enriched_logs).

(** The relations of the design the specification asks for: the distinct
    (actor, item) pairs of the cohort, the cross product of the cohort with
    the positive-mood items, and the left anti-join of the second against
    the first. *)
Definition ActorItemPairs (cohort : list Str)
    (enriched_logs : list Enriched.t) : list (Str * Str) :=
  filter (λ p, p.1 ∈ cohort)
    (remove_dups
       ((λ e, (Enriched.user_id e, Enriched.song_id e)) <$> enriched_logs)).

Definition CandidatePairs (cohort : list Str) (songs_df : list Song.t)
  : list (Str * Song.t) :=
  actor ← cohort;
  (λ item, (actor, item)) <$> filter (λ s, Song.mood s = Some "Happy") songs_df.

Definition EligiblePairs (cohort : list Str)
    (enriched_logs : list Enriched.t) (songs_df : list Song.t)
  : list (Str * Song.t) :=
  filter (λ p, (p.1, Song.song_id p.2) ∉ ActorItemPairs cohort enriched_logs)
    (CandidatePairs cohort songs_df).

(** The users the driver collected listened songs for, latest first. *)
Definition per_actor_collects (log : list DriverAction) : list Str :=
  omap (λ a, match a with
             | Collect_user_listened_songs user_id => Some user_id
             | Collect_sad_song_listeners => None
             end) log.

(** The number of a user's enriched events of one mood. *)
Definition mood_play_count (enriched_logs : list Enriched.t)
    (user_id mood : Str) : nat :=
  length (filter (λ e, Enriched.user_id e = user_id ∧ Enriched.mood e = mood)
            enriched_logs).

(** The Happy songs with a [song_id] that no enriched event of a user
    plays. *)
Definition unheard_happy_songs (enriched_logs : list Enriched.t)
    (songs_df : list Song.t) (user_id : string) : list Song.t :=
  filter (λ s, Song.mood s = Some "Happy" ∧ is_Some (Song.song_id s)
               ∧ (Some user_id, Song.song_id s)
                 ∉ (λ e, (Enriched.user_id e, Enriched.song_id e))
                     <$> enriched_logs)
    songs_df.

(** The Happy songs with a [song_id]. *)
Definition identified_happy_songs (songs_df : list Song.t) : list Song.t :=
  filter (λ s, Song.mood s = Some "Happy" ∧ is_Some (Song.song_id s)) songs_df.

(** An event from midnight to five on the wall clock of the session time
    zone. *)
Definition at_night (rt : Runtime) (l : Log.t) : Prop :=
  match Log.timestamp l with
  | Some t =>
      (0 ≤ ((t + utc_offset rt t) `div` 3600000000) `mod` 24 < 5)%Z
  | None => False
  end.

#[global] Instance at_night_dec (rt : Runtime) (l : Log.t) :
  Decision (at_night rt l).
Proof. unfold at_night. destruct (Log.timestamp l); apply _. Defined.

(** The number of a user's log events at night. *)
Definition night_play_count (rt : Runtime) (logs_df : list Log.t)
    (user_id : Str) : nat :=
  length (filter (λ l, Log.user_id l = user_id ∧ at_night rt l) logs_df).

(** ** Concrete inputs *)

(** The scenario of the specification, with one more event that refers to
    a song the catalogue does not have. *)
Definition scenario_raw_songs : list RawSong.t :=
  [RawSong.mk "S001" "A" "X" "Pop" "Happy";
   RawSong.mk "S002" "B" "Y" "Pop" "Sad"].

Definition scenario_songs : list Song.t :=
  [Song.mk (Some "S001") (Some "A") (Some "X") (Some "Pop") (Some "Happy");
   Song.mk (Some "S002") (Some "B") (Some "Y") (Some "Pop") (Some "Sad")].

Definition scenario_logs : list Log.t :=
  [Log.mk (Some "U1") (Some "S002") (Some 1000000%Z) (Some 200%Z);
   Log.mk (Some "U1") (Some "S002") (Some 2000000%Z) (Some 210%Z);
   Log.mk (Some "U1") (Some "S999") (Some 3000000%Z) (Some 100%Z)].

(** A run at 2025-03-20 10:00:00 UTC, in a session whose time zone is
    UTC. *)
Definition example_runtime : Runtime :=
  {| to_timestamp := λ s,
       if decide (s = "2025-03-19 10:00:00") then Some 1742378400000000%Z
       else if decide (s = "2025-03-21 10:00:00") then Some 1742551200000000%Z
       else None;
     parse_unicode_int := λ _, None;
     now := 1742464800000000%Z;
     utc_offset := λ _, 0%Z;
     tie_genre_counts := λ _, 0;
     tie_avg_listen_time := λ _, 0;
     tie_top_songs := λ _, 0;
     tie_mood_counts := λ _, 0;
     tie_loyalty_scores := λ _, 0;
     tie_night_owl_users := λ _, 0;
     rand := λ seed i, seed + i |}.

(** An event dated one day after the run. *)
Definition tomorrow_event : Enriched.t :=
  Enriched.mk (Some "S001") (Some "U1") (Some 1742551200000000%Z)
              (Some 200%Z) (Some "A") (Some "X") (Some "Pop") (Some "Happy").

(** An event dated one day before the run. *)
Definition yesterday_event : Enriched.t :=
  Enriched.mk (Some "S002") (Some "U1") (Some 1742378400000000%Z)
              (Some 200%Z) (Some "B") (Some "Y") (Some "Pop") (Some "Sad").

(** One user, five plays of Pop and one of Rock. *)
Definition loyal_logs : list Enriched.t :=
  replicate 5 (Enriched.mk (Some "S001") (Some "U1") None None (Some "A")
                 (Some "X") (Some "Pop") (Some "Happy"))
  ++ [Enriched.mk (Some "S002") (Some "U1") None None (Some "B") (Some "Y")
        (Some "Rock") (Some "Sad")].

Definition fresh_world : World :=
  {| listening_logs_csv := None; songs_metadata_csv := None;
     output := ∅; collects := []; seeds_drawn := 0 |}.

(** The output of an earlier run is in place and the logs are missing. *)
Definition prior_run_world : World :=
  {| listening_logs_csv := None;
     songs_metadata_csv := Some scenario_raw_songs;
     output :=
       {[ "user_favorite_genres"
          := FavoriteGenres [(Some "U1", Some "Pop", 2)] ]};
     collects := [];
     seeds_drawn := 0 |}.

(** One event whose [duration_sec] is no number. *)
Definition malformed_world : World :=
  {| listening_logs_csv :=
       Some [RawLog.mk "U1" "S002" "2025-03-19 10:00:00" "abc"];
     songs_metadata_csv := Some scenario_raw_songs;
     output := ∅;
     collects := [];
     seeds_drawn := 0 |}.

(** Three events with no [user_id]: two of the Sad song, one of the Happy
    song. *)
Definition nameless_logs : list RawLog.t :=
  [RawLog.mk "" "S002" "2025-03-19 10:00:00" "200";
   RawLog.mk "" "S002" "2025-03-19 10:00:00" "210";
   RawLog.mk "" "S001" "2025-03-19 10:00:00" "100"].

(** An event and a song, both with an empty [song_id]. *)
Definition keyless_logs : list RawLog.t :=
  [RawLog.mk "U1" "" "2025-03-19 10:00:00" "200"].

Definition keyless_songs : list RawSong.t :=
  [RawSong.mk "" "A" "X" "Pop" "Happy"].

(** Every location written, with no row. *)
Definition empty_outputs : gmap string Artifact :=
  list_to_map
    [("user_favorite_genres", FavoriteGenres []);
     ("avg_listen_time_per_song", AvgListenTime []);
     ("top_songs_this_week", TopSongs []);
     ("happy_recommendations", Recommendations []);
     ("genre_loyalty_scores", LoyaltyScores []);
     ("night_owl_users", NightOwls []);
     ("enriched_logs", EnrichedLogs [])].

(** One user, one play each of two genres. *)
Definition tied_logs : list Enriched.t :=
  [Enriched.mk (Some "S001") (Some "U1") None None (Some "A") (Some "X")
     (Some "Pop") (Some "Happy");
   Enriched.mk (Some "S002") (Some "U1") None None (Some "B") (Some "Y")
     (Some "Rock") (Some "Sad")].

(** A run whose tie order puts Rock first among tied genre counts. *)
Definition prefer_rock (rt : Runtime) : Runtime :=
  {| to_timestamp := to_timestamp rt;
     parse_unicode_int := parse_unicode_int rt;
     now := now rt;
     utc_offset := utc_offset rt;
     tie_genre_counts := λ r, if decide (r.1.2 = Some "Rock") then 0 else 1;
     tie_avg_listen_time := tie_avg_listen_time rt;
     tie_top_songs := tie_top_songs rt;
     tie_mood_counts := tie_mood_counts rt;
     tie_loyalty_scores := tie_loyalty_scores rt;
     tie_night_owl_users := tie_night_owl_users rt;
     rand := rand rt |}.


(** The same run in a session whose time zone is five and a half hours
    ahead of UTC. *)
Definition india_runtime : Runtime :=
  {| to_timestamp := to_timestamp example_runtime;
     parse_unicode_int := parse_unicode_int example_runtime;
     now := now example_runtime;
     utc_offset := λ _, 19800000000%Z;
     tie_genre_counts := tie_genre_counts example_runtime;
     tie_avg_listen_time := tie_avg_listen_time example_runtime;
     tie_top_songs := tie_top_songs example_runtime;
     tie_mood_counts := tie_mood_counts example_runtime;
     tie_loyalty_scores := tie_loyalty_scores example_runtime;
     tie_night_owl_users := tie_night_owl_users example_runtime;
     rand := rand example_runtime |}.

(** One event at 20:30 UTC, which is 02:00 of the next day in that zone. *)
Definition evening_logs : list Log.t :=
  [Log.mk (Some "A") (Some "S001") (Some 1742416200000000%Z) (Some 200%Z)].


(** ** The fixture generator, [data_generator.py]

    The generator draws from Python's [random] and from NumPy's generator.
    Each is an arbitrary stream of numbers, read in order; every statement
    about the generator holds for all streams.  A generated relation is
    the [DataFrame] before [to_csv], a row of [songs_df] being the five
    strings [to_csv] writes as a line of the file; the progress messages
    are left out. *)
Module DataGenerator.

Record Randomness := {
  (** what Python's [random] yields, draw by draw *)
  random_bits : nat → nat;
  (** what NumPy's generator yields, draw by draw, when asked for a
      position *)
  numpy_bits : nat → Z;
  (** and when asked for a standard normal deviate *)
  gauss_bits : nat → Q
}.

(** The number of draws made so far from each generator. *)
Record RngState := {
  random_pos : nat;
  numpy_pos : nat
}.

Inductive GenError :=
  | IndexError
  | ValueError
  | OverflowError.

Definition Gen (A : Type) : Type := RngState → (GenError + A) * RngState.

Definition gen_ret {A} (a : A) : Gen A := λ st, (inr a, st).

Definition gen_bind {A B} (m : Gen A) (k : A → Gen B) : Gen B :=
  λ st, match m st with
        | (inr a, st') => k a st'
        | (inl e, st') => (inl e, st')
        end.

Definition gen_raise {A} (e : GenError) : Gen A := λ st, (inl e, st).

Declare Scope gen_scope.
Delimit Scope gen_scope with gen.
Notation "x <- m ;; k" := (gen_bind m (λ x, k))
  (at level 100, m at next level, right associativity) : gen_scope.
Local Open Scope gen_scope.

(** [str(i)] of a non-negative integer. *)
Definition str (i : nat) : string := pretty i.

Fixpoint zeros (n : nat) : string :=
  match n with
  | 0 => ""
  | S n' => String "0" (zeros n')
  end.

Definition is_sign (c : ascii) : bool :=
  bool_decide (c = "+"%char) || bool_decide (c = "-"%char).

(** [s.zfill(width)]: zeros on the left, after a leading sign. *)
Definition zfill (width : nat) (s : string) : string :=
  let fill := zeros (width - String.length s) in
  match s with
  | String c s' => if is_sign c then String c (fill +:+ s') else fill +:+ s
  | EmptyString => fill
  end.

(** A text that starts with a digit other than zero. *)
Definition digit_head (s : string) : Prop :=
  match s with
  | String c _ => c ≠ "0"%char ∧ is_sign c = false
  | EmptyString => False
  end.

(** A text with a blank in it. *)
Fixpoint has_space (s : string) : bool :=
  match s with
  | String c s' => bool_decide (c = " "%char) || has_space s'
  | EmptyString => false
  end.

(** [[f"S{str(i).zfill(4)}" for i in range(1, num_songs+1)]] *)
Definition song_ids (num_songs : nat) : list string :=
  (λ i, "S" +:+ zfill 4 (str i)) <$> seq 1 num_songs.

(** [[f"U{str(i).zfill(4)}" for i in range(1, num_users+1)]] *)
Definition user_ids (num_users : nat) : list string :=
  (λ i, "U" +:+ zfill 4 (str i)) <$> seq 1 num_users.

Definition adjectives : list string :=
  ["Beautiful"; "Crazy"; "Dark"; "Electric"; "Fantastic"; "Golden"; "Happy";
   "Infinite"; "Jazzy"; "Kind"; "Lost"; "Midnight"; "Neon"; "Ocean";
   "Perfect"; "Quiet"; "Radiant"; "Sweet"; "Timeless"; "Undefined";
   "Vibrant"; "Wandering"; "Yearning"; "Zealous"].

Definition nouns : list string :=
  ["Love"; "Heart"; "Dream"; "Sky"; "River"; "Mountain"; "Star"; "Moon";
   "Sun"; "Memory"; "Journey"; "Dance"; "Song"; "Ocean"; "Fire"; "Time";
   "Light"; "Shadow"; "Sunrise"; "Wave"].

Definition artists : list string :=
  ["The Echoes"; "Midnight Rhythm"; "Stellar Band"; "Electric Phoenix";
   "Crystal Sound"; "Neon Dreams"; "Violet Harmony"; "Ocean Waves";
   "Urban Soul"; "Digital Pulse"; "Acoustic Hearts"; "Jazz Ensemble";
   "Rock Rebels"; "Pop Paradise"; "Folk Fusion"; "Classic Revival";
   "Beat Masters"; "Sound Collective"; "Rhythm Section"; "Melody Makers"].

Definition genres : list string :=
  ["Pop"; "Rock"; "Jazz"; "Classical"; "Hip Hop"; "R&B"; "Electronic";
   "Country"; "Folk"; "Indie"].

Definition moods : list string :=
  ["Happy"; "Sad"; "Energetic"; "Chill"; "Romantic"; "Melancholic";
   "Nostalgic"; "Upbeat"; "Dreamy"; "Intense"].

Definition max_attempts : nat := 100.

(** [titles] and [used_titles]. *)
Record Titles := {
  titles : list string;
  used_titles : gset string
}.

(** [used_titles.add(title); titles.append(title)] *)
Definition add_title (title : string) (t : Titles) : Titles :=
  {| titles := titles t ++ [title]; used_titles := {[title]} ∪ used_titles t |}.

(** [f"{adjective} {noun}"] and [f"{adjective} {noun} {i}"] *)
Definition plain_title (adjective noun : string) : string :=
  adjective +:+ " " +:+ noun.

Definition numbered_title (adjective noun : string) (i : nat) : string :=
  adjective +:+ " " +:+ noun +:+ " " +:+ str i.

(** A [datetime] is counted in seconds from 1970-01-01 00:00:00 on the
    local clock; [datetime.min] is 0001-01-01 00:00:00 and [datetime.max]
    the last second of the year 9999. *)
Definition datetime_min : Z := -62135596800.
Definition datetime_max : Z := 253402300799.

(** A row of the listening logs; [timestamp] is the [datetime] whose
    [strftime] text the file holds. *)
Record Play := {
  user_id : string;
  song_id : string;
  timestamp : Z;
  duration_sec : Z
}.

(** [series.unique().tolist()]: the values in order of first appearance. *)
Definition unique (l : list string) : list string :=
  foldl (λ acc x, if decide (x ∈ acc) then acc else acc ++ [x]) [] l.

(** [sum(weights)], with exact rationals for floats. *)
Definition sumQ (l : list Q) : Q := foldl Qplus 0%Q l.

Definition is_positive (q : Q) : bool := negb (Qle_bool q 0).

(** Floats are exact rationals, rounding left out, that overflow where
    doubles do: a number of magnitude [2^1024 - 2^970] or more rounds to
    no double. *)
Definition float_limit : Z := 2 ^ 1024 - 2 ^ 970.

Definition overflows (x : Q) : bool :=
  Qle_bool (inject_Z float_limit) (Qabs x).

(** The result of a float operation: [None] is an infinity. *)
Definition float (x : Q) : option Q :=
  if overflows x then None else Some x.

Definition gauss_bound : Q := 13.

(** The number within the bound nearest a number. *)
Definition clamp (bound x : Q) : Q :=
  if Qle_bool x (- bound) then (- bound)%Q
  else if Qle_bool bound x then bound else x.

Section generator.
Context (rnd : Randomness).

Definition next_random : Gen nat :=
  λ st, (inr (random_bits rnd (random_pos st)),
         {| random_pos := S (random_pos st); numpy_pos := numpy_pos st |}).

Definition next_numpy : Gen Z :=
  λ st, (inr (numpy_bits rnd (numpy_pos st)),
         {| random_pos := random_pos st; numpy_pos := S (numpy_pos st) |}).

(** [random.choice(seq)]: an element at a drawn position; [IndexError] on
    an empty sequence. *)
Definition random_choice {A} (seq : list A) : Gen A :=
  d <- next_random;;
  match seq !! (d `mod` length seq) with
  | Some x => gen_ret x
  | None => gen_raise IndexError
  end.

(** [[body for _ in range(n)]] *)
Fixpoint repeat_gen {A} (n : nat) (body : Gen A) : Gen (list A) :=
  match n with
  | 0 => gen_ret []
  | S n' => x <- body;; xs <- repeat_gen n' body;; gen_ret (x :: xs)
  end.

(** [for x in xs: body], the body updating the loop's variables. *)
Fixpoint gen_for_each {A S} (xs : list A) (body : A → S → Gen S) (s : S)
  : Gen S :=
  match xs with
  | [] => gen_ret s
  | x :: xs' => s' <- body x s;; gen_for_each xs' body s'
  end.

(** The [while attempts < max_attempts] loop, [fuel] being
    [max_attempts - attempts]: it ends on [break] or with the attempts
    used up, and yields [attempts]. *)
Fixpoint title_attempts (fuel attempts : nat) (t : Titles)
  : Gen (nat * Titles) :=
  match fuel with
  | 0 => gen_ret (attempts, t)
  | S fuel' =>
      adjective <- random_choice adjectives;;
      noun <- random_choice nouns;;
      let title := plain_title adjective noun in
      if decide (title ∈ used_titles t)
      then title_attempts fuel' (S attempts) t
      else gen_ret (attempts, add_title title t)
  end.

(** The body of [for i in range(num_songs)]. *)
Definition generate_title (i : nat) (t : Titles) : Gen Titles :=
  r <- title_attempts (max_attempts - 0) 0 t;;
  if decide (max_attempts ≤ r.1)
  then adjective <- random_choice adjectives;;
       noun <- random_choice nouns;;
       gen_ret (add_title (numbered_title adjective noun i) r.2)
  else gen_ret r.2.

(** [pd.DataFrame({...})]: [ValueError] unless the columns have one
    length. *)
Definition data_frame (song_id title artist genre mood : list string)
  : Gen (list RawSong.t) :=
  if decide (length title = length song_id ∧ length artist = length song_id
             ∧ length genre = length song_id ∧ length mood = length song_id)
  then gen_ret (zip_with (λ f x, f x)
              (zip_with (λ f x, f x)
                 (zip_with (λ f x, f x)
                    (zip_with RawSong.mk song_id title) artist) genre) mood)
  else gen_raise ValueError.

Definition generate_songs_metadata (num_songs : nat)
  : Gen (list RawSong.t) :=
  let song_ids := song_ids num_songs in
  t <- gen_for_each (seq 0 num_songs) generate_title
         {| titles := []; used_titles := ∅ |};;
  artist <- repeat_gen num_songs (random_choice artists);;
  genre <- repeat_gen num_songs (random_choice genres);;
  mood <- repeat_gen num_songs (random_choice moods);;
  data_frame song_ids (titles t) artist genre mood.

(** [random.randint(a, b)]: [ValueError] on an empty range. *)
Definition random_randint (a b : Z) : Gen Z :=
  if decide (b < a)%Z then gen_raise ValueError
  else d <- next_random;; gen_ret (a + Z.of_nat d `mod` (b - a + 1))%Z.

Fixpoint sample_go {A} (k : nat) (population : list A) : Gen (list A) :=
  match k with
  | 0 => gen_ret []
  | S k' =>
      d <- next_random;;
      let j := d `mod` length population in
      match population !! j with
      | Some x =>
          rest <- sample_go k' (delete j population);; gen_ret (x :: rest)
      | None => gen_raise ValueError
      end
  end.

(** [random.sample(population, k)]: [k] elements at distinct positions;
    [ValueError] when the population has fewer. *)
Definition random_sample {A} (population : list A) (k : nat) : Gen (list A) :=
  if decide (length population < k) then gen_raise ValueError
  else sample_go k population.

(** [n / m] on two integers, a float: [OverflowError] when the quotient is
    too large for one. *)
Definition true_div (n m : Z) : Gen Q :=
  let quotient := (inject_Z n / inject_Z m)%Q in
  if overflows quotient then gen_raise OverflowError else gen_ret quotient.

(** An integer argument that NumPy takes as a double: [OverflowError] when
    it is too large for one. *)
Definition float_of_int (n : Z) : Gen Q :=
  if overflows (inject_Z n) then gen_raise OverflowError
  else gen_ret (inject_Z n).

(** The standard normal deviate of NumPy's legacy generator: the polar
    method yields none beyond [gauss_bound]. *)
Definition legacy_gauss : Gen Q :=
  λ st, (inr (clamp gauss_bound (gauss_bits rnd (numpy_pos st))),
         {| random_pos := random_pos st; numpy_pos := S (numpy_pos st) |}).

(** [np.random.normal(loc, scale)] with an integer [loc] and a float
    [scale]: [ValueError] on a negative [scale]; otherwise the double
    [loc + scale * deviate], infinite when the product or the sum
    overflows. *)
Definition numpy_normal (loc : Z) (scale : Q) : Gen (option Q) :=
  loc <- float_of_int loc;;
  if negb (Qle_bool 0 scale) then gen_raise ValueError
  else
    deviate <- legacy_gauss;;
    gen_ret (product ← float (scale * deviate); float (loc + product)).

(** [int(x)] of a float: the fraction is dropped; [OverflowError] on an
    infinite float. *)
Definition int (x : option Q) : Gen Z :=
  match x with
  | Some x => gen_ret (Qnum x ÷ Z.pos (Qden x))%Z
  | None => gen_raise OverflowError
  end.

(** [timedelta(days=days)], in seconds: [OverflowError] beyond 999999999
    days. *)
Definition timedelta (days : Z) : Gen Z :=
  if decide (-999999999 ≤ days ≤ 999999999)%Z then gen_ret (days * 86400)%Z
  else gen_raise OverflowError.

(** [date - delta]: [OverflowError] when the result is no [datetime]. *)
Definition datetime_sub (date delta : Z) : Gen Z :=
  let result := (date - delta)%Z in
  if decide (datetime_min ≤ result ≤ datetime_max)%Z then gen_ret result
  else gen_raise OverflowError.

(** [np.random.choice(n, p=p)]: an index of non-zero probability;
    [ValueError] when there is nothing to choose from or [p] is no
    distribution over the [n] indices. *)
Definition numpy_choice (n : nat) (p : list Q) : Gen nat :=
  if decide (n = 0) then gen_raise ValueError
  else if decide (length p ≠ n) then gen_raise ValueError
  else if negb (forallb (λ q, Qle_bool 0 q) p) then gen_raise ValueError
  else if negb (Qeq_bool (sumQ p) 1) then gen_raise ValueError
  else
    d <- next_numpy;;
    let support := filter (λ i, is_positive (default 0%Q (p !! i))) (seq 0 n) in
    match support !! Z.to_nat (d `mod` Z.of_nat (length support)) with
    | Some i => gen_ret i
    | None => gen_raise ValueError
    end.

(** The weight of a song for a user, before it is normalised. *)
Definition song_weight (fav_genres fav_moods : list string)
    (song : RawSong.t) : Q :=
  let weight := 1%Q in
  let weight :=
    if decide (RawSong.genre song ∈ fav_genres) then (weight * 3)%Q else weight in
  let weight :=
    if decide (RawSong.mood song ∈ fav_moods) then (weight * 2)%Q else weight in
  weight.

(** The [if total_weight > 0: ... else: ...] that normalises. *)
Definition normalize (song_weights : list Q) : list Q :=
  let total_weight := sumQ song_weights in
  if is_positive total_weight
  then (λ w, w / total_weight)%Q <$> song_weights
  else (λ _, 1 / inject_Z (Z.of_nat (length song_weights)))%Q <$> song_weights.

(** The body of [for _ in range(num_plays)]. *)
Definition generate_play (end_date start_date : Z) (songs_df : list RawSong.t)
    (fav_genres fav_moods : list string) (song_weights : list Q)
    (user_id : string) (logs : list Play) : Gen (list Play) :=
  let song_ids := RawSong.song_id <$> songs_df in
  song_idx <- numpy_choice (length song_ids) song_weights;;
  match songs_df !! song_idx with
  | None => gen_raise IndexError
  | Some song =>
      random_seconds <- random_randint 0 (end_date - start_date);;
      let timestamp := (start_date + random_seconds)%Z in
      duration <-
        (if decide (RawSong.genre song ∈ fav_genres ∨ RawSong.mood song ∈ fav_moods)
         then random_randint 180 300
         else random_randint 30 300);;
      gen_ret (logs ++ [{| user_id := user_id; song_id := RawSong.song_id song;
                           timestamp := timestamp; duration_sec := duration |}])
  end.

(** The body of [for i, user_id in enumerate(user_ids)]. *)
Definition generate_user (end_date start_date : Z) (songs_df : list RawSong.t)
    (days avg_plays_per_user_per_day : Z) (user_id : string)
    (logs : list Play) : Gen (list Play) :=
  let all_genres := unique (RawSong.genre <$> songs_df) in
  let all_moods := unique (RawSong.mood <$> songs_df) in
  fav_genres <- random_sample all_genres (3 `min` length all_genres);;
  fav_moods <- random_sample all_moods (3 `min` length all_moods);;
  let song_weights :=
    normalize (song_weight fav_genres fav_moods <$> songs_df) in
  scale <- true_div (avg_plays_per_user_per_day * days) 4;;
  play_count <- numpy_normal (avg_plays_per_user_per_day * days) scale;;
  num_plays <- int play_count;;
  let num_plays := (1 `max` num_plays)%Z in
  gen_for_each (seq 0 (Z.to_nat num_plays))
    (λ _, generate_play end_date start_date songs_df fav_genres fav_moods
            song_weights user_id)
    logs.

(** The rows written to [data/listening_logs.csv], [now] being
    [datetime.now()] in seconds. *)
Definition generate_listening_logs (now : Z) (songs_df : list RawSong.t)
    (num_users : nat) (days avg_plays_per_user_per_day : Z)
  : Gen (list Play) :=
  let user_ids := user_ids num_users in
  let end_date := now in
  delta <- timedelta days;;
  start_date <- datetime_sub end_date delta;;
  gen_for_each user_ids
    (generate_user end_date start_date songs_df days
       avg_plays_per_user_per_day) [].

(** The [__main__] block, up to the [except] that prints the error. *)
Definition generator_main (now : Z) : Gen (list RawSong.t * list Play) :=
  songs_df <- generate_songs_metadata 500;;
  logs <- generate_listening_logs now songs_df 100 30 8;;
  gen_ret (songs_df, logs).

End generator.

(** The state after one draw from [random]. *)
Definition advance (st : RngState) : RngState :=
  {| random_pos := S (random_pos st); numpy_pos := numpy_pos st |}.

(** What the titles so far look like before song [i]. *)
Definition titles_ok (i : nat) (t : Titles) : Prop :=
  length (titles t) = i ∧ NoDup (titles t)
  ∧ (∀ x, x ∈ used_titles t ↔ x ∈ titles t)
  ∧ ∀ x, x ∈ titles t →
      (∃ a n, a ∈ adjectives ∧ n ∈ nouns ∧ x = plain_title a n)
      ∨ (∃ a n j, a ∈ adjectives ∧ n ∈ nouns ∧ j < i
                  ∧ x = numbered_title a n j).

(** What a generated play of a user owes. *)
Definition play_ok (end_date start_date : Z) (songs_df : list RawSong.t)
    (user : string) (p : Play) : Prop :=
  user_id p = user
  ∧ song_id p ∈ RawSong.song_id <$> songs_df
  ∧ (start_date ≤ timestamp p ≤ end_date)%Z
  ∧ (30 ≤ duration_sec p ≤ 300)%Z.

(** A row of [logs_df] as [to_csv] writes it to [data/listening_logs.csv]:
    [strftime] gives the text of the [datetime], and the duration is
    written in decimal. *)
Definition to_csv_row (strftime : Z → string) (p : Play) : RawLog.t :=
  RawLog.mk (user_id p) (song_id p) (strftime (timestamp p))
            (pretty (duration_sec p)).

End DataGenerator.

(** A stream of draws, a state to start from, a clock (2023-11-14
    22:13:20) and, in place of [strftime], the seconds in decimal. *)
Definition example_randomness : DataGenerator.Randomness :=
  {| DataGenerator.random_bits := λ n, 7 * n + 3;
     DataGenerator.numpy_bits := λ n, (Z.of_nat n - 2)%Z;
     DataGenerator.gauss_bits := λ n, (inject_Z (Z.of_nat n) - 2)%Q |}.

Definition start_state : DataGenerator.RngState :=
  {| DataGenerator.random_pos := 0; DataGenerator.numpy_pos := 0 |}.

Definition example_now : Z := 1700000000.

Definition example_strftime (t : Z) : string := pretty t.

(** ** Facts about the relational operators *)

Lemma filter_all {A} (P : A → Prop) `{∀ x, Decision (P x)} (l : list A) :
  (∀ x, x ∈ l → P x) → filter P l = l.
Proof.
  induction l as [|x l IH]; intros Hall; [done|].
  rewrite filter_cons_True by apply Hall, list_elem_of_here.
  f_equal. apply IH. intros y Hy. by apply Hall, list_elem_of_further.
Qed.

Lemma filter_none {A} (P : A → Prop) `{∀ x, Decision (P x)} (l : list A) :
  (∀ x, x ∈ l → ¬ P x) → filter P l = [].
Proof.
  induction l as [|x l IH]; intros Hall; [done|].
  rewrite filter_cons_False by apply Hall, list_elem_of_here.
  apply IH. intros y Hy. by apply Hall, list_elem_of_further.
Qed.

Lemma filter_ext_in {A} (P Q : A → Prop)
    `{∀ x, Decision (P x)} `{∀ x, Decision (Q x)} (l : list A) :
  (∀ x, x ∈ l → P x ↔ Q x) → filter P l = filter Q l.
Proof.
  induction l as [|x l IH]; intros Hext; [done|].
  rewrite !filter_cons.
  assert (filter P l = filter Q l) as ->
    by (apply IH; intros y Hy; by apply Hext, list_elem_of_further).
  pose proof (Hext x (list_elem_of_here x l)) as Hx.
  destruct (decide (P x)), (decide (Q x)); tauto.
Qed.

Section relational_facts.
Context {A B K : Type} `{EqDecision K}.
Implicit Types (l : list A) (key : A → K).

Lemma elem_of_group_by_count key l k n :
  (k, n) ∈ group_by_count key l ↔
  k ∈ key <$> l ∧ n = length (filter (λ x, key x = k) l).
Proof.
  unfold group_by_count. rewrite list_elem_of_fmap. split.
  - intros (k' & [= -> ->] & Hk). by rewrite elem_of_remove_dups in Hk.
  - intros [Hk ->]. exists k. by rewrite elem_of_remove_dups.
Qed.

Lemma group_by_count_keys key l :
  fst <$> group_by_count key l = remove_dups (key <$> l).
Proof.
  unfold group_by_count. rewrite <- list_fmap_compose.
  rewrite <- (list_fmap_id (remove_dups _)) at 2. by apply list_fmap_ext.
Qed.

Lemma NoDup_group_by_count_keys key l : NoDup (fst <$> group_by_count key l).
Proof. rewrite group_by_count_keys. apply NoDup_remove_dups. Qed.

Lemma NoDup_group_by_count key l : NoDup (group_by_count key l).
Proof. eapply NoDup_fmap_1, NoDup_group_by_count_keys. Qed.

Lemma group_by_count_pos key l k n : (k, n) ∈ group_by_count key l → 0 < n.
Proof.
  rewrite elem_of_group_by_count. intros [Hk ->].
  apply list_elem_of_fmap in Hk as (x & -> & Hx).
  assert (x ∈ filter (λ y, key y = key x) l) as Hin
    by by apply list_elem_of_filter.
  destruct (filter _ l); [by apply elem_of_nil in Hin | simpl; lia].
Qed.

Lemma col_eq_Some (x : K) (c : option K) : col_eq (Some x) c ↔ c = Some x.
Proof. unfold col_eq. split; [by intros [_ <-]|by intros ->]. Qed.

Lemma col_eq_None_l (c : option K) : ¬ col_eq None c.
Proof. by intros [[? [=]] _]. Qed.

Lemma col_eq_None_r (c : option K) : ¬ col_eq c None.
Proof. by intros [[? ->] [=]]. Qed.

(** The keys that are not NULL are distinct when the keys are. *)
Lemma NoDup_omap_fmap (kb : B → option K) (r : list B) :
  NoDup (kb <$> r) → NoDup (omap kb r).
Proof.
  induction r as [|b r IH]; [constructor|].
  rewrite fmap_cons. intros [Hb Hnd]%NoDup_cons. cbn [omap list_omap].
  destruct (kb b) as [x|] eqn:Hx; [|by apply IH].
  apply NoDup_cons. split; [|by apply IH].
  intros (b' & Hb' & Hx')%list_elem_of_omap. apply Hb.
  rewrite <- Hx'. by apply list_elem_of_fmap_2.
Qed.

(** Rows of a relation that has one row per key: selecting a key finds at
    most the row of that key, and none for NULL. *)
Lemma filter_key_NoDup (kb : B → option K) (r : list B) (k : option K) :
  NoDup (omap kb r) →
  length (filter (λ b, col_eq k (kb b)) r)
  = if decide (is_Some k ∧ k ∈ kb <$> r) then 1 else 0.
Proof.
  destruct k as [x|]; intros Hnd.
  2: { rewrite filter_none by (intros b _; apply col_eq_None_l).
       rewrite decide_False; [done|]. by intros [[? [=]] _]. }
  induction r as [|b r IH].
  { rewrite decide_False; [done|]. by intros [_ ?%elem_of_nil]. }
  rewrite filter_cons, fmap_cons. cbn [omap list_omap] in Hnd.
  destruct (decide (col_eq (Some x) (kb b))) as [Hb%col_eq_Some|Hb].
  - rewrite Hb in Hnd |- *. apply NoDup_cons in Hnd as [Hx Hnd].
    rewrite decide_True by (split; [done|apply list_elem_of_here]).
    cbn [length]. rewrite (IH Hnd), decide_False; [done|].
    intros [_ (b' & Hb' & Hin)%list_elem_of_fmap]. apply Hx.
    apply list_elem_of_omap. eauto.
  - rewrite col_eq_Some in Hb.
    assert (NoDup (omap kb r)) as Hnd'.
    { destruct (kb b); [by apply NoDup_cons in Hnd as [_ ?]|done]. }
    rewrite (IH Hnd').
    destruct (decide (is_Some (Some x) ∧ Some x ∈ kb <$> r)) as [[_ Hin]|Hnin].
    + rewrite decide_True; [done|]. split; [done|].
      by apply list_elem_of_further.
    + rewrite decide_False; [done|]. intros [_ [Heq|Hin]%elem_of_cons].
      * by apply Hb.
      * apply Hnin. by split.
Qed.

Lemma elem_of_inner_join (ka : A → option K) (kb : B → option K) l
    (r : list B) a b :
  (a, b) ∈ inner_join ka kb l r ↔ a ∈ l ∧ b ∈ r ∧ col_eq (ka a) (kb b).
Proof.
  unfold inner_join. rewrite list_elem_of_bind. split.
  - intros (a' & Hab & Ha).
    apply list_elem_of_fmap in Hab as (b' & [= -> ->] & Hb).
    apply list_elem_of_filter in Hb. tauto.
  - intros (Ha & Hb & Hk). exists a. split; [|done].
    apply list_elem_of_fmap. exists b. by rewrite list_elem_of_filter.
Qed.

Lemma length_inner_join (ka : A → option K) (kb : B → option K) l
    (r : list B) :
  NoDup (omap kb r) →
  length (inner_join ka kb l r)
  = length (filter (λ a, is_Some (ka a) ∧ ka a ∈ kb <$> r) l).
Proof.
  intros Hnd. unfold inner_join. induction l as [|a l IH]; [done|].
  rewrite bind_cons, length_app, length_fmap, IH, filter_cons.
  rewrite filter_key_NoDup by done.
  destruct (decide (is_Some (ka a) ∧ ka a ∈ kb <$> r)); simpl; lia.
Qed.
End relational_facts.

(** ** The join *)

(** C3, as stated, fails: the one event has the [song_id] of the one song,
    the empty text, and the song is the only one with it; the reader takes
    both as NULL and the join has no row. *)
Lemma enrich_drops_empty_song_id :
  NoDup (RawSong.song_id <$> keyless_songs)
  ∧ length (filter (λ e, RawLog.song_id e ∈ RawSong.song_id <$> keyless_songs)
              keyless_logs) = 1
  ∧ length (enrich (read_log example_runtime <$> keyless_logs)
              (read_song <$> keyless_songs)) = 0.
Proof.
  split_and!; [|reflexivity..]. apply (bool_decide_unpack _). by vm_compute.
Qed.

(** C3, amended. When the songs that have a [song_id] have distinct ones,
    the enriched relation has as many rows as there are events that have a
    [song_id] and have it among the songs, and every enriched row is such
    an event paired with the song of the same [song_id]: an event with no
    [song_id] or an absent one, and a song without events, leave no row. *)
Theorem enrich_cardinality (logs_df : list Log.t) (songs_df : list Song.t) :
  NoDup (omap Song.song_id songs_df) →
  length (enrich logs_df songs_df)
    = length (filter (λ e, is_Some (Log.song_id e)
                           ∧ Log.song_id e ∈ Song.song_id <$> songs_df)
                logs_df)
  ∧ ∀ r, r ∈ enrich logs_df songs_df →
      ∃ e s, e ∈ logs_df ∧ s ∈ songs_df ∧ is_Some (Log.song_id e)
             ∧ Log.song_id e = Song.song_id s ∧ r = enrich_row (e, s).
Proof.
  intros Hkey. split.
  - unfold enrich. rewrite length_fmap. by apply length_inner_join.
  - intros r Hr. unfold enrich in Hr.
    apply list_elem_of_fmap in Hr as ([e s] & -> & Hes).
    apply elem_of_inner_join in Hes as (He & Hs & Hsome & Heq).
    by exists e, s.
Qed.

Lemma enrich_cardinality_witness :
  length (enrich scenario_logs scenario_songs) = 2
  ∧ ∀ r, r ∈ enrich scenario_logs scenario_songs →
      ∃ e s, e ∈ scenario_logs ∧ s ∈ scenario_songs
             ∧ is_Some (Log.song_id e)
             ∧ Log.song_id e = Song.song_id s ∧ r = enrich_row (e, s).
Proof.
  apply (enrich_cardinality scenario_logs scenario_songs).
  apply (bool_decide_unpack _). vm_compute. exact I.
Defined.

(** ** Ordering and ranking *)

Section ordering_facts.
Context {A : Type} (measure tie : A → nat).

#[global] Instance desc_by_total : Total (desc_by measure tie).
Proof. intros a b. unfold desc_by. lia. Qed.

#[global] Instance desc_by_trans : Transitive (desc_by measure tie).
Proof. intros a b c. unfold desc_by. lia. Qed.

Lemma desc_by_measure a b : desc_by measure tie a b → measure b ≤ measure a.
Proof. unfold desc_by. lia. Qed.

Lemma order_by_desc_perm (l : list A) : order_by_desc measure tie l ≡ₚ l.
Proof. apply merge_sort_Permutation. Qed.

Lemma order_by_desc_sorted (l : list A) :
  StronglySorted (desc_by measure tie) (order_by_desc measure tie l).
Proof. apply StronglySorted_merge_sort; apply _. Qed.
End ordering_facts.

Lemma sorted_take_drop {A} (R : relation A) (l : list A) (k : nat) x y :
  StronglySorted R l → x ∈ take k l → y ∈ drop k l → R x y.
Proof.
  intros Hs Hx Hy. rewrite <- (take_drop k l) in Hs.
  apply StronglySorted_app in Hs as (Hxy & _ & _). by apply Hxy.
Qed.

Lemma top_k_of_take {A} (k : nat) (measure tie : A → nat) (group : list A) :
  NoDup group →
  top_k_of k measure group (take k (order_by_desc measure tie group)).
Proof.
  intros Hnd. pose proof (order_by_desc_perm measure tie group) as Hperm.
  pose proof (order_by_desc_sorted measure tie group) as Hsorted.
  set (sorted := order_by_desc measure tie group) in *.
  repeat split.
  - intros r Hr. rewrite <- Hperm. by eapply subseteq_take.
  - intros Hle. rewrite take_ge; [done|]. by rewrite Hperm.
  - rewrite length_take, Hperm. lia.
  - eapply sublist_NoDup; [|apply sublist_take]. by rewrite Hperm.
  - intros r m Hr Hm Hout. eapply desc_by_measure.
    eapply (sorted_take_drop _ sorted k); [done..|].
    rewrite <- Hperm, <- (take_drop k sorted), elem_of_app in Hm. tauto.
Qed.

Lemma top_k_of_perm {A} (k : nat) (measure : A → nat)
    (group result result' : list A) :
  result ≡ₚ result' →
  top_k_of k measure group result → top_k_of k measure group result'.
Proof.
  intros Hperm (Hsub & Hall & Hk). repeat split.
  - intros r. rewrite <- Hperm. apply Hsub.
  - intros Hle. rewrite <- Hperm. by apply Hall.
  - rewrite <- Hperm. by apply Hk.
  - rewrite <- Hperm. by apply Hk.
  - intros r m. rewrite <- Hperm. by apply Hk.
Qed.

(** Selecting one key from the concatenation of per-key blocks finds the
    block of that key. *)
Lemma filter_bind_partition {A K} `{EqDecision K} (key : A → K)
    (f : K → list A) (ks : list K) (u : K) :
  NoDup ks → (∀ k x, x ∈ f k → key x = k) →
  filter (λ x, key x = u) (ks ≫= f) = if decide (u ∈ ks) then f u else [].
Proof.
  intros Hnd Hkey. induction ks as [|k ks IH]; [done|].
  apply NoDup_cons in Hnd as [Hk Hnd]. rewrite bind_cons, filter_app, IH by done.
  destruct (decide (k = u)) as [->|Hne].
  - destruct (decide (u ∈ ks)); [done|].
    destruct (decide (u ∈ u :: ks)) as [_|[]]; [|apply list_elem_of_here].
    rewrite app_nil_r. apply filter_all. intros x. apply Hkey.
  - rewrite filter_none; [|intros x Hx; by rewrite (Hkey _ _ Hx)].
    destruct (decide (u ∈ ks)) as [Hin|Hnin];
      destruct (decide (u ∈ k :: ks)) as [Hin'|Hnin']; try done.
    + destruct Hnin'. by apply list_elem_of_further.
    + apply elem_of_cons in Hin' as [->|Hin']; done.
Qed.

Lemma filter_rank_gt_1 {A} (f : nat → A → A * nat) (l : list A) :
  (∀ i x, (f i x).2 ≠ 1) → filter (λ r, r.2 = 1) (imap f l) = [].
Proof.
  intros Hf. apply filter_none. intros r Hr.
  apply elem_of_lookup_imap in Hr as (i & x & -> & _). apply Hf.
Qed.

Lemma row_number_filter_1 {A} (l : list A) :
  fst <$> filter (λ r, r.2 = 1) (imap (λ i x, (x, S i)) l) = take 1 l.
Proof.
  destruct l as [|x l]; [done|]. rewrite imap_cons.
  rewrite filter_cons_True by done.
  rewrite filter_rank_gt_1 by (intros i y; simpl; lia). done.
Qed.

Section ranking_facts.
Context {A K : Type} `{EqDecision K} (key : A → K).
Context (R : relation A) `{!RelDecision R}.

Lemma filter_row_number_over (P : A * nat → Prop) `{∀ r, Decision (P r)}
    (l : list A) :
  filter P (row_number_over key R l)
  = remove_dups (key <$> l) ≫= λ k,
      filter P (imap (λ i x, (x, S i))
                  (merge_sort R (filter (λ x, key x = k) l))).
Proof.
  unfold row_number_over. induction (remove_dups (key <$> l)) as [|k ks IH].
  - done.
  - by rewrite !bind_cons, filter_app, IH.
Qed.

Lemma row_number_over_rank_1 (l : list A) :
  fst <$> filter (λ r, r.2 = 1) (row_number_over key R l) = rank_1 key R l.
Proof.
  rewrite filter_row_number_over. unfold rank_1.
  induction (remove_dups (key <$> l)) as [|k ks IH]; [done|].
  by rewrite !bind_cons, fmap_app, IH, row_number_filter_1.
Qed.

Lemma elem_of_partition_head (l : list A) k x :
  x ∈ take 1 (merge_sort R (filter (λ x, key x = k) l)) → key x = k ∧ x ∈ l.
Proof.
  intros Hx. apply subseteq_take in Hx.
  rewrite merge_sort_Permutation in Hx. by apply list_elem_of_filter in Hx.
Qed.

Lemma rank_1_partition (l : list A) (u : K) :
  filter (λ x, key x = u) (rank_1 key R l)
  = take 1 (merge_sort R (filter (λ x, key x = u) l)).
Proof.
  unfold rank_1. rewrite filter_bind_partition.
  - destruct (decide (u ∈ remove_dups (key <$> l))) as [|Hnin]; [done|].
    rewrite (filter_none _ l); [done|]. intros x Hx Hkey. apply Hnin.
    rewrite elem_of_remove_dups, list_elem_of_fmap. eauto.
  - apply NoDup_remove_dups.
  - intros k x Hx. by apply elem_of_partition_head in Hx as [? _].
Qed.

(** One rank-1 row per key. *)
Lemma NoDup_rank_1_keys (l : list A) : NoDup (key <$> rank_1 key R l).
Proof.
  unfold rank_1. pose proof (NoDup_remove_dups (key <$> l)) as Hnd.
  induction (remove_dups (key <$> l)) as [|k ks IH]; [constructor|].
  apply NoDup_cons in Hnd as [Hk Hnd]. rewrite bind_cons, fmap_app.
  apply NoDup_app. split_and!.
  - destruct (merge_sort R _) as [|x s]; [constructor|].
    cbn. apply NoDup_singleton.
  - intros k' Hk' Hin. apply list_elem_of_fmap in Hk' as (x & -> & Hx).
    apply elem_of_partition_head in Hx as [Hkx _]. rewrite Hkx in Hin.
    apply list_elem_of_fmap in Hin as (y & Hy & Hin).
    apply list_elem_of_bind in Hin as (k' & Hin & Hk').
    apply elem_of_partition_head in Hin as [<- _]. congruence.
  - by apply IH.
Qed.
End ranking_facts.

(** ** Top-K analyses *)

Lemma elem_of_user_genre_plays (enriched_logs : list Enriched.t) u g n :
  ((u, g), n) ∈ user_genre_plays enriched_logs ↔
  (∃ e, e ∈ enriched_logs ∧ Enriched.user_id e = u ∧ Enriched.genre e = g)
  ∧ n = category_play_count enriched_logs u g.
Proof.
  unfold user_genre_plays, category_play_count.
  rewrite elem_of_group_by_count, list_elem_of_fmap.
  erewrite (list_filter_iff _ (λ e, Enriched.user_id e = u ∧ Enriched.genre e = g));
    [|intros e; split; [by intros [= -> ->]|by intros [-> ->]]].
  split.
  - intros [(e & [= -> ->] & He) ->]. eauto.
  - intros [(e & He & <- & <-) ->]. eauto.
Qed.

Lemma user_favorite_genres_group (rt : Runtime)
    (enriched_logs : list Enriched.t) (user_id : Str) :
  filter (λ r, r.1.1 = user_id) (user_favorite_genres rt enriched_logs)
  ≡ₚ take 1 (order_by_desc snd (tie_genre_counts rt)
               (filter (λ r, r.1.1 = user_id)
                  (user_genre_counts enriched_logs))).
Proof.
  unfold user_favorite_genres, order_by_asc.
  rewrite merge_sort_Permutation, row_number_over_rank_1.
  by rewrite rank_1_partition.
Qed.

Lemma top_k_of_group_perm {A} (k : nat) (measure : A → nat)
    (group group' result : list A) :
  group ≡ₚ group' →
  top_k_of k measure group result → top_k_of k measure group' result.
Proof.
  intros Hperm (Hsub & Hall & Hk). repeat split.
  - intros r Hr. rewrite <- Hperm. by apply Hsub.
  - intros Hle. rewrite <- Hperm in Hle |- *. by apply Hall.
  - rewrite <- Hperm in H. by apply Hk.
  - rewrite <- Hperm in H. by apply Hk.
  - intros r m Hr Hm. rewrite <- Hperm in H, Hm. by apply Hk.
Qed.

(** The rows task 1 ranks for an actor are the members of the actor's
    group. *)
Lemma genre_group_perm (enriched_logs : list Enriched.t) (actor : Str) :
  filter (λ r, r.1.1 = actor) (user_genre_counts enriched_logs)
  ≡ₚ genre_group enriched_logs actor.
Proof.
  apply NoDup_Permutation.
  - apply NoDup_filter, NoDup_group_by_count.
  - unfold genre_group. apply NoDup_fmap_2; [|apply NoDup_remove_dups].
    by intros g1 g2 [= ->].
  - intros [[u g] n]. rewrite list_elem_of_filter. cbn [fst].
    change (user_genre_counts enriched_logs)
      with (user_genre_plays enriched_logs).
    rewrite elem_of_user_genre_plays. unfold genre_group.
    rewrite list_elem_of_fmap. split.
    + intros (-> & (e & He & Hu & <-) & ->). exists (Enriched.genre e).
      split; [done|]. apply elem_of_remove_dups, list_elem_of_fmap_2.
      by apply list_elem_of_filter.
    + intros (g' & [= -> -> ->] & Hg). split; [done|]. split; [|done].
      apply elem_of_remove_dups, list_elem_of_fmap in Hg as (e & -> & He).
      apply list_elem_of_filter in He as [Hu He]. eauto.
Qed.

(** The weekly filter keeps the events dated seven days before [now] or
    later, whatever comes after [now] included. *)
Lemma this_week_from_week_start (rt : Runtime)
    (enriched_logs : list Enriched.t) :
  this_week rt enriched_logs = filter (from_week_start rt) enriched_logs.
Proof.
  unfold this_week. apply list_filter_iff. intros e.
  unfold col_ge, from_week_start, one_week_ago, timedelta_days.
  destruct (Enriched.timestamp e) as [t|]; [|done].
  rewrite bool_decide_spec. lia.
Qed.

Lemma item_group_song_counts (rt : Runtime)
    (enriched_logs : list Enriched.t) :
  item_group (from_week_start rt) enriched_logs = song_counts rt enriched_logs.
Proof.
  unfold item_group, song_counts, group_by_count.
  rewrite this_week_from_week_start. apply list_fmap_ext.
  intros _ item _. f_equal. unfold item_play_count.
  rewrite list_filter_filter. f_equal. apply list_filter_iff. tauto.
Qed.

Lemma item_group_ext (window window' : Enriched.t → Prop)
    `{∀ e, Decision (window e)} `{∀ e, Decision (window' e)}
    (enriched_logs : list Enriched.t) :
  (∀ e, e ∈ enriched_logs → window e ↔ window' e) →
  item_group window enriched_logs = item_group window' enriched_logs.
Proof.
  intros Hext. unfold item_group, item_play_count.
  rewrite (filter_ext_in window window') by done.
  apply list_fmap_ext. intros _ item _. f_equal. f_equal.
  apply filter_ext_in. intros e He. by rewrite (Hext e He).
Qed.

(** C4. Task 1 keeps, for every actor, the top 1 of the actor's group, one
    member per category the actor has an event of, measured by its play
    count; and task 3 keeps the top 10 of the group of the items played
    from seven days before [now] on, measured by their plays in that time,
    which is the group of the week from [now - 7 days] to [now] when no
    event is dated after [now].  Top K: the whole group when it has at most
    K members, otherwise exactly K members, none with a play count below
    that of a member left out. *)
Theorem top_k_completeness (rt : Runtime) (enriched_logs : list Enriched.t) :
  (∀ actor,
     top_k_of 1 snd (genre_group enriched_logs actor)
       (filter (λ r, r.1.1 = actor) (user_favorite_genres rt enriched_logs)))
  ∧ top_k_of 10 snd (item_group (from_week_start rt) enriched_logs)
      (top_songs rt enriched_logs)
  ∧ ((∀ e t, e ∈ enriched_logs → Enriched.timestamp e = Some t →
             (t ≤ now rt)%Z) →
     top_k_of 10 snd (item_group (in_week rt) enriched_logs)
       (top_songs rt enriched_logs)).
Proof.
  assert (top_k_of 10 snd (item_group (from_week_start rt) enriched_logs)
            (top_songs rt enriched_logs)) as Hweek.
  { rewrite item_group_song_counts.
    apply top_k_of_take, NoDup_group_by_count. }
  split_and!; [|done|].
  - intros actor. eapply top_k_of_group_perm; [apply genre_group_perm|].
    eapply top_k_of_perm.
    + symmetry. apply user_favorite_genres_group.
    + apply top_k_of_take, NoDup_filter, NoDup_group_by_count.
  - intros Hpast.
    rewrite (item_group_ext (in_week rt) (from_week_start rt)); [done|].
    intros e He. unfold in_week, from_week_start.
    destruct (Enriched.timestamp e) as [t|] eqn:Ht; [|done].
    specialize (Hpast e t He Ht). lia.
Qed.

(** At a concrete input: one event in the week. *)
Lemma top_k_completeness_witness :
  top_k_of 10 snd (item_group (in_week example_runtime) [yesterday_event])
    (top_songs example_runtime [yesterday_event]).
Proof.
  apply (top_k_completeness example_runtime [yesterday_event]).
  intros e t ->%list_elem_of_singleton [= <-]. by vm_compute.
Defined.

(** ** The weekly filter *)

(** C7 does not hold of the code.  Task 3 is documented as the top songs
    of this week, the last seven days from [now]; its filter has the lower
    bound of the week and no upper bound, so that an event dated after
    [now], which is not of the week, passes the filter and is counted. *)
Lemma this_week_keeps_future_event :
  tomorrow_event ∈ this_week example_runtime [tomorrow_event]
  ∧ Enriched.timestamp tomorrow_event = Some 1742551200000000%Z
  ∧ ¬ (1742551200000000 ≤ now example_runtime)%Z
  ∧ ¬ in_week example_runtime tomorrow_event
  ∧ top_songs example_runtime [tomorrow_event]
    = [(Some "S001", Some "A", Some "X", 1)].
Proof.
  split_and!.
  - vm_compute. apply list_elem_of_here.
  - reflexivity.
  - vm_compute. by intros H.
  - vm_compute. by intros [_ H].
  - reflexivity.
Qed.

(** ** Genre loyalty *)

Section counting_facts.
Context {A : Type}.
Implicit Types (P Q : A → Prop) (l : list A).

Lemma length_filter_disjoint P1 P2 Q
    `{∀ x, Decision (P1 x)} `{∀ x, Decision (P2 x)} `{∀ x, Decision (Q x)} l :
  (∀ x, P1 x → Q x) → (∀ x, P2 x → Q x) → (∀ x, P1 x → P2 x → False) →
  length (filter P1 l) + length (filter P2 l) ≤ length (filter Q l).
Proof.
  intros Hsub1 Hsub2 Hdisj. induction l as [|x l IH]; [done|].
  rewrite !filter_cons.
  destruct (decide (P1 x)) as [HP1|?], (decide (P2 x)) as [HP2|?],
    (decide (Q x)) as [?|HQ]; simpl; try lia.
  - destruct (Hdisj x HP1 HP2).
  - destruct (Hdisj x HP1 HP2).
  - destruct HQ. by apply Hsub1.
  - destruct HQ. by apply Hsub2.
Qed.

Lemma length_filter_impl P Q
    `{∀ x, Decision (P x)} `{∀ x, Decision (Q x)} l :
  (∀ x, P x → Q x) → length (filter P l) ≤ length (filter Q l).
Proof.
  intros HPQ. induction l as [|x l IH]; [done|].
  rewrite !filter_cons.
  destruct (decide (P x)) as [HP|?], (decide (Q x)) as [?|HQ]; simpl; try lia.
  destruct HQ. by apply HPQ.
Qed.

Lemma length_filter_pos P `{∀ x, Decision (P x)} l :
  0 < length (filter P l) → ∃ x, x ∈ l ∧ P x.
Proof.
  destruct (filter P l) as [|x l'] eqn:Hf; simpl; [lia|]. intros _.
  assert (x ∈ filter P l) as Hx by (rewrite Hf; apply list_elem_of_here).
  apply list_elem_of_filter in Hx. exists x. tauto.
Qed.

Lemma max_list_with_le (f : A → nat) l n :
  max_list_with f l ≤ n ↔ ∀ x, x ∈ l → f x ≤ n.
Proof.
  induction l as [|y l IH]; simpl.
  - split; [by intros _ x ?%elem_of_nil | lia].
  - rewrite Nat.max_lub_iff, IH. split.
    + intros [Hy Hl] x [->|Hx]%elem_of_cons; auto.
    + intros Hall. split; [apply Hall, list_elem_of_here|].
      intros x Hx. by apply Hall, list_elem_of_further.
Qed.

Lemma max_list_with_ge (f : A → nat) l x : x ∈ l → f x ≤ max_list_with f l.
Proof. intros Hx. by eapply max_list_with_le. Qed.
End counting_facts.

Lemma elem_of_user_total_plays (enriched_logs : list Enriched.t) u t :
  (u, t) ∈ user_total_plays enriched_logs ↔
  u ∈ Enriched.user_id <$> enriched_logs
  ∧ t = total_play_count enriched_logs u.
Proof. apply elem_of_group_by_count. Qed.

Lemma category_le_total (enriched_logs : list Enriched.t) u g :
  category_play_count enriched_logs u g ≤ total_play_count enriched_logs u.
Proof. apply length_filter_impl. tauto. Qed.

Lemma two_categories_le_total (enriched_logs : list Enriched.t) u g1 g2 :
  g1 ≠ g2 →
  category_play_count enriched_logs u g1 + category_play_count enriched_logs u g2
  ≤ total_play_count enriched_logs u.
Proof.
  intros Hne. apply length_filter_disjoint; [tauto|tauto|].
  intros e [_ ?] [_ ?]. congruence.
Qed.

(** The window maximum of task 5 is the maximum category play count. *)
Lemma window_max_genre_plays (enriched_logs : list Enriched.t) u :
  max_list_with snd
    (filter (λ y, y.1.1 = u) (user_genre_plays enriched_logs))
  = max_category_play_count enriched_logs u.
Proof.
  unfold max_category_play_count. apply Nat.le_antisymm.
  - apply max_list_with_le. intros [[u' g] n] [Hu Hr]%list_elem_of_filter.
    simpl in Hu. subst u'.
    apply elem_of_user_genre_plays in Hr as [(e & He & _ & <-) ->].
    apply (max_list_with_ge id _
             (category_play_count enriched_logs u (Enriched.genre e))).
    apply list_elem_of_fmap_2. by apply list_elem_of_fmap_2.
  - apply max_list_with_le. intros n (g & -> & Hg)%list_elem_of_fmap.
    unfold id.
    destruct (decide (category_play_count enriched_logs u g = 0)) as [->|Hpos];
      [lia|].
    assert (0 < category_play_count enriched_logs u g) as Hlt by lia.
    apply length_filter_pos in Hlt as (e & He & Hu & Hge).
    apply (max_list_with_ge snd _ ((u, g), category_play_count enriched_logs u g)).
    apply list_elem_of_filter. split; [done|].
    apply elem_of_user_genre_plays. eauto.
Qed.

Lemma elem_of_user_max_genre (enriched_logs : list Enriched.t) u g m :
  ((u, g), m) ∈ user_max_genre enriched_logs ↔
  ((u, g), m) ∈ user_genre_plays enriched_logs
  ∧ m = max_category_play_count enriched_logs u.
Proof.
  unfold user_max_genre, max_over. rewrite list_elem_of_fmap. split.
  - intros ([[[u' g'] n] m'] & [= -> -> ->] & Hr).
    apply list_elem_of_filter in Hr as [Hmax Hr]. simpl in Hmax. subst n.
    apply list_elem_of_fmap in Hr as (x & [= <- Hm] & Hx). simpl in Hm.
    rewrite window_max_genre_plays in Hm. done.
  - intros [Hx ->].
    exists (((u, g), max_category_play_count enriched_logs u),
            max_category_play_count enriched_logs u).
    split; [done|]. apply list_elem_of_filter. split; [done|].
    apply list_elem_of_fmap. eexists. split; [|exact Hx]. simpl.
    by rewrite window_max_genre_plays.
Qed.

Lemma pos_of_nat_Z (t : nat) : 0 < t → Z.pos (Pos.of_nat t) = Z.of_nat t.
Proof.
  destruct t as [|t]; [lia|]. intros _. by rewrite <- Pos.of_nat_succ.
Qed.

Lemma col_gt_spec (c v : Q) : col_gt c v ↔ (v < c)%Q.
Proof.
  unfold col_gt. rewrite negb_True, Is_true_true, Qle_bool_iff. split.
  - apply Qnot_le_lt.
  - intros Hlt Hle. by apply (Qlt_not_le _ _ Hlt).
Qed.

Lemma loyalty_score_gt (m t : nat) :
  0 < t → (0.8 < loyalty_score m t)%Q ↔ 4 * t < 5 * m.
Proof.
  intros Ht. unfold Qlt, loyalty_score. simpl. rewrite pos_of_nat_Z by done. lia.
Qed.


Lemma elem_of_loyalty_scores (rt : Runtime) (enriched_logs : list Enriched.t)
    u g q :
  ((u, g), q) ∈ loyalty_scores rt enriched_logs ↔
  is_Some u
  ∧ ∃ m t, ((u, g), m) ∈ user_max_genre enriched_logs
           ∧ (u, t) ∈ user_total_plays enriched_logs
           ∧ q = loyalty_score m t ∧ (0.8 < q)%Q.
Proof.
  unfold loyalty_scores.
  rewrite merge_sort_Permutation, list_elem_of_filter, list_elem_of_fmap.
  rewrite col_gt_spec. simpl. split.
  - intros [Hgt ([[[u' g'] m] [u'' t]] & [= -> -> ->] & Hjoin)].
    apply elem_of_inner_join in Hjoin as (Hm & Ht & Hsome & Hu).
    simpl in Hsome, Hu. subst u''. split; [done|]. by exists m, t.
  - intros (Hsome & m & t & Hm & Ht & -> & Hgt). split; [done|].
    exists (((u, g), m), (u, t)). split; [done|]. by apply elem_of_inner_join.
Qed.

(** What every row of the loyalty output comes from. *)
Lemma loyalty_row_inv (rt : Runtime) (enriched_logs : list Enriched.t) u g q :
  ((u, g), q) ∈ loyalty_scores rt enriched_logs →
  let m := max_category_play_count enriched_logs u in
  let t := total_play_count enriched_logs u in
  q = loyalty_score m t ∧ m = category_play_count enriched_logs u g
  ∧ 0 < t ∧ 4 * t < 5 * m ∧ is_Some u.
Proof.
  intros (Hsome & m & t & Hm & Ht & -> & Hgt)%elem_of_loyalty_scores.
  apply elem_of_user_max_genre in Hm as [Hg ->].
  apply elem_of_user_genre_plays in Hg as [_ Hg].
  pose proof (group_by_count_pos _ _ _ _ Ht) as Hpos.
  apply elem_of_user_total_plays in Ht as [_ ->].
  apply loyalty_score_gt in Hgt; done.
Qed.



(** The (user, genre) keys of the loyalty output are rows of the per-genre
    counts, each at most once. *)
Lemma join_keys_sublist {A B K C} `{EqDecision K}
    (ka : A → option K) (kb : B → option K)
    (g : A → C) (l : list A) (r : list B) :
  NoDup (omap kb r) →
  (g ∘ fst) <$> inner_join ka kb l r `sublist_of` g <$> l.
Proof.
  intros Hnd. unfold inner_join. induction l as [|a l IH]; [done|].
  rewrite bind_cons, fmap_app, fmap_cons.
  pose proof (filter_key_NoDup kb r (ka a) Hnd) as Hlen.
  destruct (filter (λ b, col_eq (ka a) (kb b)) r) as [|b [|b' bs]].
  - by apply sublist_cons.
  - by apply sublist_skip.
  - simpl in Hlen. destruct (decide _); lia.
Qed.

Lemma NoDup_loyalty_keys (rt : Runtime) (enriched_logs : list Enriched.t) :
  NoDup (fst <$> loyalty_scores rt enriched_logs).
Proof.
  unfold loyalty_scores. rewrite merge_sort_Permutation.
  eapply sublist_NoDup; [apply (NoDup_group_by_count_keys
    (λ e, (Enriched.user_id e, Enriched.genre e)) enriched_logs)|].
  etransitivity; [apply fmap_sublist, sublist_filter|].
  rewrite <- list_fmap_compose.
  etransitivity;
    [apply (join_keys_sublist _ _ fst), NoDup_omap_fmap,
       NoDup_group_by_count_keys|].
  unfold user_max_genre. rewrite <- list_fmap_compose.
  etransitivity; [apply fmap_sublist, sublist_filter|].
  unfold max_over. by rewrite <- list_fmap_compose.
Qed.

(** C10. The genre loyalty output has at most one row per user: two genres
    tied at a user's maximum leave a score of at most one half, which the
    0.8 threshold rejects. *)
Theorem loyalty_one_row_per_user (rt : Runtime)
    (enriched_logs : list Enriched.t) :
  NoDup ((λ r, r.1.1) <$> loyalty_scores rt enriched_logs)
  ∧ ∀ u g1 g2 m1 m2 t,
      g1 ≠ g2 →
      ((u, g1), m1) ∈ user_max_genre enriched_logs →
      ((u, g2), m2) ∈ user_max_genre enriched_logs →
      (u, t) ∈ user_total_plays enriched_logs →
      (loyalty_score m1 t <= 1 # 2)%Q.
Proof.
  split.
  - change (λ r : Str * Str * Q, r.1.1) with
      (fst ∘ fst : Str * Str * Q → Str).
    rewrite list_fmap_compose. apply NoDup_fmap_2_strong.
    + intros [u g1] [u' g2] Hx Hy Hu. simpl in Hu. subst u'.
      apply list_elem_of_fmap in Hx as ([[? ?] q1] & [= <- <-] & Hx).
      apply list_elem_of_fmap in Hy as ([[? ?] q2] & [= <- <-] & Hy).
      apply loyalty_row_inv in Hx as (_ & Hm1 & Ht & Hgt & _).
      apply loyalty_row_inv in Hy as (_ & Hm2 & _ & _ & _).
      destruct (decide (g1 = g2)) as [->|Hne]; [done|].
      pose proof (two_categories_le_total enriched_logs u g1 g2 Hne). lia.
    + apply NoDup_loyalty_keys.
  - intros u g1 g2 m1 m2 t Hne Hm1 Hm2 Ht.
    apply elem_of_user_max_genre in Hm1 as [[_ Hc1]%elem_of_user_genre_plays ->].
    apply elem_of_user_max_genre in Hm2 as [[_ Hc2]%elem_of_user_genre_plays ->].
    pose proof (group_by_count_pos _ _ _ _ Ht) as Hpos.
    apply elem_of_user_total_plays in Ht as [_ ->].
    pose proof (two_categories_le_total enriched_logs u g1 g2 Hne).
    unfold Qle, loyalty_score. simpl. rewrite pos_of_nat_Z by done. lia.
Qed.

(** ** Running the driver program *)

Lemma bind_run {A B} (m : App A) (k : A → App B) w w' a :
  m w = (w', inr a) → bind m k w = k a w'.
Proof. unfold bind. by intros ->. Qed.

Lemma bind_raise {A B} (m : App A) (k : A → App B) w w' e :
  m w = (w', inl e) → bind m k w = (w', inl e).
Proof. unfold bind. by intros ->. Qed.

Lemma prepare_output_directory_run w :
  prepare_output_directory w = (with_output skeleton w, inr tt).
Proof. reflexivity. Qed.

Lemma load_data_run rt w raw_logs raw_songs :
  listening_logs_csv w = Some raw_logs →
  songs_metadata_csv w = Some raw_songs →
  load_data rt w
  = (w, inr (read_log rt <$> raw_logs, read_song <$> raw_songs,
             enrich (read_log rt <$> raw_logs) (read_song <$> raw_songs))).
Proof.
  intros Hlogs Hsongs. unfold load_data, bind, read_csv, ret.
  by rewrite Hlogs, Hsongs.
Qed.

Lemma load_data_raise rt w :
  listening_logs_csv w = None ∨ songs_metadata_csv w = None →
  ∃ path, load_data rt w = (w, inl (PathDoesNotExist path)).
Proof.
  unfold load_data, bind, read_csv, ret, raise.
  destruct (listening_logs_csv w), (songs_metadata_csv w); intros [?|?];
    simplify_eq; eauto.
Qed.

(** *** The loop of task 4 *)

Lemma combine_join (recommendations : list (list Recommendation.t)) :
  combine recommendations = mjoin recommendations.
Proof.
  destruct recommendations as [|first rest]; [done|]. simpl.
  revert first. induction rest as [|r rest IH]; intros first; simpl.
  - by rewrite app_nil_r.
  - by rewrite IH, <- app_assoc.
Qed.

Lemma task4_loop_run rt enriched_logs songs_df (cohort : list Str) w :
  for_each cohort (λ user_id,
      listened <- collect (Collect_user_listened_songs user_id)
                    (user_listened_songs enriched_logs user_id);;
      seed <- draw_seed;;
      ret (user_recommendations (rand rt seed) songs_df listened user_id)) w
  = ({| listening_logs_csv := listening_logs_csv w;
        songs_metadata_csv := songs_metadata_csv w;
        output := output w;
        collects := reverse (Collect_user_listened_songs <$> cohort)
                    ++ collects w;
        seeds_drawn := seeds_drawn w + length cohort |},
     inr (imap (iteration rt enriched_logs songs_df (seeds_drawn w)) cohort)).
Proof.
  revert w. induction cohort as [|u cohort IH]; intros w.
  - destruct w. unfold ret. simpl. by rewrite Nat.add_0_r.
  - cbn [for_each]. unfold bind at 1. unfold bind at 1. cbn [collect].
    unfold bind at 1. cbn [draw_seed ret]. unfold bind at 1.
    rewrite IH. unfold ret.
    cbn [listening_logs_csv songs_metadata_csv output collects seeds_drawn].
    rewrite fmap_cons, reverse_cons, <- app_assoc, imap_cons.
    replace (seeds_drawn w + length (u :: cohort))
      with (S (seeds_drawn w) + length cohort) by (simpl; lia).
    do 3 f_equal.
    + unfold iteration. by rewrite Nat.add_0_r.
    + apply imap_ext. intros i x _. unfold iteration. simpl.
      by rewrite Nat.add_succ_r.
Qed.

Lemma task4_run rt enriched_logs songs_df w :
  task4_happy_song_recommendations rt enriched_logs songs_df w
  = ({| listening_logs_csv := listening_logs_csv w;
        songs_metadata_csv := songs_metadata_csv w;
        output :=
          <["happy_recommendations" :=
              Recommendations
                (final_recommendations rt enriched_logs songs_df (seeds_drawn w))]>
            (output w);
        collects :=
          reverse (Collect_user_listened_songs
                     <$> sad_song_listeners rt enriched_logs)
          ++ Collect_sad_song_listeners :: collects w;
        seeds_drawn :=
          seeds_drawn w + length (sad_song_listeners rt enriched_logs) |},
     inr (final_recommendations rt enriched_logs songs_df (seeds_drawn w))).
Proof.
  unfold task4_happy_song_recommendations.
  unfold bind at 1. cbn [collect]. unfold bind at 1.
  rewrite task4_loop_run. unfold bind, ret, write, set_output.
  cbn [listening_logs_csv songs_metadata_csv output collects seeds_drawn].
  by rewrite combine_join.
Qed.

(** ** Recommendations *)

Lemma order_by_rand_perm {A} (keys : nat → nat) (l : list A) :
  order_by_rand keys l ≡ₚ l.
Proof.
  unfold order_by_rand. rewrite merge_sort_Permutation, fmap_imap.
  rewrite (imap_ext _ (const id)) by done. by rewrite imap_const, list_fmap_id.
Qed.

Lemma filter_fmap {A B} (f : A → B) (P : B → Prop) `{∀ y, Decision (P y)}
    (l : list A) :
  filter P (f <$> l) = f <$> filter (P ∘ f) l.
Proof.
  induction l as [|x l IH]; [done|].
  rewrite fmap_cons, !filter_cons, IH. unfold compose.
  by destruct (decide (P (f x))).
Qed.

Lemma filter_comm {A} (P Q : A → Prop)
    `{∀ x, Decision (P x)} `{∀ x, Decision (Q x)} (l : list A) :
  filter P (filter Q l) = filter Q (filter P l).
Proof. rewrite !list_filter_filter. apply list_filter_iff. tauto. Qed.

Lemma elem_of_user_recommendations keys songs_df listened user_id r :
  r ∈ user_recommendations keys songs_df listened user_id →
  ∃ s, s ∈ songs_df ∧ Song.mood s = Some "Happy"
       ∧ col_not_in (Song.song_id s) listened
       ∧ r = Recommendation.mk user_id (Song.song_id s) (Song.title s)
               (Song.artist s).
Proof.
  unfold user_recommendations, happy_songs.
  intros (s & -> & Hs)%list_elem_of_fmap. apply subseteq_take in Hs.
  rewrite order_by_rand_perm in Hs.
  apply list_elem_of_filter in Hs as [Hnew [Hmood Hs]%list_elem_of_filter].
  by exists s.
Qed.


(** The join column of an enriched row is not NULL. *)
Lemma enrich_song_id logs_df songs_df r :
  r ∈ enrich logs_df songs_df → is_Some (Enriched.song_id r).
Proof.
  unfold enrich. intros ([e s] & -> & Hes)%list_elem_of_fmap.
  by apply elem_of_inner_join in Hes as (_ & _ & Hsome & _).
Qed.


(** The songs the loop collects for a user are songs of events of that
    user, and none is NULL. *)
Lemma elem_of_user_listened_songs logs_df songs_df user_id k :
  k ∈ user_listened_songs (enrich logs_df songs_df) user_id →
  is_Some k
  ∧ ∃ r, r ∈ enrich logs_df songs_df ∧ Enriched.user_id r = user_id
         ∧ Enriched.song_id r = k.
Proof.
  unfold user_listened_songs, user_songs.
  intros ([u k'] & -> & [[_ Hu] Hp]%list_elem_of_filter)%list_elem_of_fmap.
  apply elem_of_remove_dups, list_elem_of_fmap in Hp as (r & [= -> ->] & Hr).
  split; [by eapply enrich_song_id|]. by exists r.
Qed.

(** The cohort, from the rank-1 mood rows. *)
Lemma sad_song_listeners_rank_1 rt enriched_logs :
  sad_song_listeners rt enriched_logs
  = (λ x, x.1.1) <$>
      filter (λ x, x.1.2 = Some "Sad")
        (rank_1 (λ r, r.1.1) (desc_by snd (tie_mood_counts rt))
           (mood_counts enriched_logs)).
Proof.
  unfold sad_song_listeners. rewrite <- row_number_over_rank_1.
  rewrite filter_fmap, <- list_fmap_compose, list_filter_filter.
  f_equal. apply list_filter_iff. intros r. unfold compose. tauto.
Qed.

Lemma NoDup_sad_song_listeners rt enriched_logs :
  NoDup (sad_song_listeners rt enriched_logs).
Proof.
  rewrite sad_song_listeners_rank_1.
  eapply sublist_NoDup; [|apply fmap_sublist, sublist_filter].
  apply NoDup_rank_1_keys.
Qed.




(** ** The shape of the recommendation engine *)

(** C2, as stated, fails: on the scenario of the specification the driver
    collects the listened songs of the one cohort user in a stage of its
    own. *)
Lemma task4_collects_per_actor :
  per_actor_collects
    (collects
       (task4_happy_song_recommendations example_runtime
          (enrich scenario_logs scenario_songs) scenario_songs fresh_world).1)
  = [Some "U1"].
Proof. reflexivity. Qed.

Lemma per_actor_collects_app (log1 log2 : list DriverAction) :
  per_actor_collects (log1 ++ log2)
  = per_actor_collects log1 ++ per_actor_collects log2.
Proof. apply omap_app. Qed.

Lemma per_actor_collects_listened (users : list Str) :
  per_actor_collects (Collect_user_listened_songs <$> users) = users.
Proof.
  induction users as [|u users IH]; [done|].
  change (u :: per_actor_collects (Collect_user_listened_songs <$> users)
          = u :: users).
  by rewrite IH.
Qed.

Lemma filter_blocks_absent {A K} `{EqDecision K} (key : A → K)
    (F : nat → K → list A) (ks : list K) (u : K) :
  (∀ i k x, x ∈ F i k → key x = k) → u ∉ ks →
  filter (λ x, key x = u) (mjoin (imap F ks)) = [].
Proof.
  intros Hkey Hu. apply filter_none.
  intros x (l & Hx & Hl)%list_elem_of_join Hxu.
  apply elem_of_lookup_imap in Hl as (i & k & -> & Hi).
  apply Hkey in Hx. apply list_elem_of_lookup_2 in Hi. congruence.
Qed.

Lemma filter_blocks {A K} `{EqDecision K} (key : A → K)
    (F : nat → K → list A) (ks : list K) (i : nat) (u : K) :
  NoDup ks → (∀ i k x, x ∈ F i k → key x = k) → ks !! i = Some u →
  filter (λ x, key x = u) (mjoin (imap F ks)) = F i u.
Proof.
  intros Hnd. revert F i.
  induction Hnd as [|k ks Hk Hnd IH]; intros F i Hkey Hi; [done|].
  rewrite imap_cons. simpl. rewrite filter_app. destruct i as [|i].
  - simpl in Hi. simplify_eq.
    rewrite (filter_blocks_absent key (F ∘ S)); [|intros ?; apply Hkey|done].
    rewrite app_nil_r. apply filter_all. intros x. apply Hkey.
  - simpl in Hi. rewrite (IH (F ∘ S) i); [|intros ?; apply Hkey|done].
    rewrite filter_none; [done|]. intros x Hx Hxu. apply Hkey in Hx.
    apply list_elem_of_lookup_2 in Hi. congruence.
Qed.

Lemma iteration_user rt enriched_logs songs_df seed i u r :
  r ∈ iteration rt enriched_logs songs_df seed i u →
  Recommendation.user_id r = u.
Proof.
  unfold iteration. by intros (s & _ & _ & _ & ->)%elem_of_user_recommendations.
Qed.

Lemma eligible_group (cohort : list Str) (logs_df : list Log.t)
    (songs_df : list Song.t) (user : string) :
  NoDup cohort → Some user ∈ cohort →
  (∀ s, s ∈ songs_df → Song.mood s = Some "Happy" →
        is_Some (Song.song_id s)) →
  snd <$> filter (λ p, p.1 = Some user)
            (EligiblePairs cohort (enrich logs_df songs_df) songs_df)
  = filter (λ s, col_not_in (Song.song_id s)
                   (user_listened_songs (enrich logs_df songs_df)
                      (Some user)))
      (happy_songs songs_df).
Proof.
  intros Hnd Hin Hids. unfold EligiblePairs, CandidatePairs.
  rewrite filter_comm.
  rewrite (filter_bind_partition fst); [|done|].
  2: { by intros k x (s & -> & _)%list_elem_of_fmap. }
  rewrite decide_True by done.
  rewrite filter_fmap, <- list_fmap_compose, list_fmap_id.
  fold (happy_songs songs_df). apply filter_ext_in.
  intros s [Hmood Hs]%list_elem_of_filter. unfold compose. simpl.
  unfold ActorItemPairs. rewrite list_elem_of_filter. split.
  - intros Hnew. split_and!; [by apply Hids| |].
    + intros (Hsome & r & Hr & Hu & Hk)%elem_of_user_listened_songs.
      apply Hnew. split; [done|].
      apply elem_of_remove_dups, list_elem_of_fmap.
      exists r. by rewrite Hu, Hk.
    + by intros [[? [=]] _]%elem_of_user_listened_songs.
  - intros (_ & Hnew & _) [_ Hp]. apply Hnew.
    unfold user_listened_songs, user_songs. apply list_elem_of_fmap.
    exists (Some user, Song.song_id s). split; [done|].
    by apply list_elem_of_filter.
Qed.

(** C2, amended. Task 4 is a loop on the driver: after one collect of the
    cohort it makes one collect per cohort user, in turn; and when every
    Happy song has a [song_id], what it emits for a cohort user that has a
    [user_id] is a sample of at most 3, in the order of that iteration's
    random keys, of the user's group of the anti-join of cohort x Happy
    songs against the (user, song) pairs listened. *)
Theorem recommendations_by_driver_loop (rt : Runtime)
    (logs_df : list Log.t) (songs_df : list Song.t) (w : World) :
  let enriched_logs := enrich logs_df songs_df in
  let cohort := sad_song_listeners rt enriched_logs in
  ∃ w' recs,
    task4_happy_song_recommendations rt enriched_logs songs_df w
    = (w', inr recs)
    ∧ collects w'
      = reverse (Collect_user_listened_songs <$> cohort)
        ++ Collect_sad_song_listeners :: collects w
    ∧ per_actor_collects (collects w')
      = reverse cohort ++ per_actor_collects (collects w)
    ∧ ∀ i user,
        cohort !! i = Some (Some user) →
        (∀ s, s ∈ songs_df → Song.mood s = Some "Happy" →
              is_Some (Song.song_id s)) →
        filter (λ r, Recommendation.user_id r = Some user) recs
        = (λ s, Recommendation.mk (Some user) (Song.song_id s)
                  (Song.title s) (Song.artist s)) <$>
            take 3 (order_by_rand (rand rt (seeds_drawn w + i))
              (snd <$> filter (λ p, p.1 = Some user)
                 (EligiblePairs cohort enriched_logs songs_df))).
Proof.
  intros enriched_logs cohort. eexists _, _. split; [apply task4_run|].
  cbn [collects]. split_and!.
  - done.
  - rewrite per_actor_collects_app, <- fmap_reverse.
    by rewrite per_actor_collects_listened.
  - intros i user Hi Hids. unfold final_recommendations. fold cohort.
    rewrite (filter_blocks _ _ _ i (Some user));
      [|apply NoDup_sad_song_listeners|intros ? k x; apply iteration_user
       |done].
    unfold iteration, user_recommendations. subst cohort enriched_logs.
    rewrite eligible_group;
      [done|apply NoDup_sad_song_listeners| |done].
    by eapply list_elem_of_lookup_2.
Qed.

(** ** The whole run *)

Lemma main_run rt w raw_logs raw_songs :
  listening_logs_csv w = Some raw_logs →
  songs_metadata_csv w = Some raw_songs →
  let logs_df := read_log rt <$> raw_logs in
  let songs_df := read_song <$> raw_songs in
  let cohort := sad_song_listeners rt (enrich logs_df songs_df) in
  main rt w
  = ({| listening_logs_csv := listening_logs_csv w;
        songs_metadata_csv := songs_metadata_csv w;
        output := written_output rt logs_df songs_df (seeds_drawn w);
        collects := reverse (Collect_user_listened_songs <$> cohort)
                    ++ Collect_sad_song_listeners :: collects w;
        seeds_drawn := seeds_drawn w + length cohort |},
     inr tt).
Proof.
  intros Hlogs Hsongs logs_df songs_df cohort. unfold main.
  erewrite bind_run by apply prepare_output_directory_run.
  erewrite bind_run by (by apply load_data_run).
  cbv beta iota.
  erewrite bind_run by reflexivity.
  erewrite bind_run by reflexivity.
  erewrite bind_run by reflexivity.
  erewrite bind_run by apply task4_run.
  erewrite bind_run by reflexivity.
  erewrite bind_run by reflexivity.
  reflexivity.
Qed.

Lemma main_raise rt w :
  listening_logs_csv w = None ∨ songs_metadata_csv w = None →
  ∃ path, main rt w = (with_output skeleton w, inl (PathDoesNotExist path)).
Proof.
  intros Hmissing. unfold main.
  erewrite bind_run by apply prepare_output_directory_run.
  destruct (load_data_raise rt (with_output skeleton w) Hmissing) as [path Hload].
  exists path. by erewrite bind_raise.
Qed.

(** *** A run that fails *)

(** C5, as stated, fails: the run aborts on the missing source after it has
    replaced the prior run's output by an empty directory. *)
Lemma failed_run_clears_prior_output :
  (main example_runtime prior_run_world).2
  = inl (PathDoesNotExist "data/listening_logs.csv")
  ∧ output prior_run_world !! "user_favorite_genres"
    = Some (FavoriteGenres [(Some "U1", Some "Pop", 2)])
  ∧ output (main example_runtime prior_run_world).1 !! "user_favorite_genres"
    = Some EmptyDir.
Proof. split_and!; reflexivity. Qed.

(** C5, amended. A run fails only on a missing input source, and then it
    aborts before any analysis writes: the prior run's output is gone and
    [output/] holds the seven empty subdirectories, never a mix of old and
    new artifacts. *)
Theorem failed_run_leaves_skeleton (rt : Runtime) (w w' : World) (e : Error) :
  main rt w = (w', inl e) →
  (listening_logs_csv w = None ∨ songs_metadata_csv w = None)
  ∧ output w' = skeleton
  ∧ ∀ location, location ∈ subdirs → output w' !! location = Some EmptyDir.
Proof.
  intros Hfail.
  assert (skeleton_lookup :
    ∀ location, location ∈ subdirs → skeleton !! location = Some EmptyDir).
  { intros location Hin. unfold subdirs in Hin.
    repeat (apply elem_of_cons in Hin as [->|Hin]; [reflexivity|]).
    by apply elem_of_nil in Hin. }
  destruct (listening_logs_csv w) as [raw_logs|] eqn:Hlogs.
  - destruct (songs_metadata_csv w) as [songs_df|] eqn:Hsongs.
    + rewrite (main_run rt w raw_logs songs_df Hlogs Hsongs) in Hfail.
      by simplify_eq.
    + destruct (main_raise rt w (or_intror Hsongs)) as [path Hmain].
      rewrite Hmain in Hfail. simplify_eq. auto.
  - destruct (main_raise rt w (or_introl Hlogs)) as [path Hmain].
    rewrite Hmain in Hfail. simplify_eq. auto.
Qed.

Lemma failed_run_leaves_skeleton_witness :
  (listening_logs_csv prior_run_world = None
   ∨ songs_metadata_csv prior_run_world = None)
  ∧ output (with_output skeleton prior_run_world) = skeleton
  ∧ ∀ location, location ∈ subdirs →
      output (with_output skeleton prior_run_world) !! location = Some EmptyDir.
Proof.
  apply (failed_run_leaves_skeleton example_runtime prior_run_world
           (with_output skeleton prior_run_world)
           (PathDoesNotExist "data/listening_logs.csv")).
  reflexivity.
Defined.

(** *** A row that does not convert *)

(** C6, as stated, fails: the loader returns the malformed row with a NULL
    duration and the run completes. *)
Lemma load_data_keeps_malformed_row :
  parse_int example_runtime "abc" = None
  ∧ load_data example_runtime malformed_world
    = (malformed_world,
       inr ([Log.mk (Some "U1") (Some "S002") (Some 1742378400000000%Z) None],
            scenario_songs,
            [Enriched.mk (Some "S002") (Some "U1")
               (Some 1742378400000000%Z) None
               (Some "B") (Some "Y") (Some "Pop") (Some "Sad")]))
  ∧ (main example_runtime malformed_world).2 = inr tt.
Proof. split_and!; reflexivity. Qed.

(** C6, amended. The loader keeps every row of the event source, in order:
    a [duration_sec] or a [timestamp] that does not convert becomes NULL in
    that field of the row, as an empty field does, nothing is dropped, no
    error is raised, and the run completes. *)
Theorem loader_keeps_every_row (rt : Runtime) (w : World)
    (raw_logs : list RawLog.t) (raw_songs : list RawSong.t) :
  listening_logs_csv w = Some raw_logs →
  songs_metadata_csv w = Some raw_songs →
  ∃ logs_df,
    load_data rt w
    = (w, inr (logs_df, read_song <$> raw_songs,
               enrich logs_df (read_song <$> raw_songs)))
    ∧ length logs_df = length raw_logs
    ∧ (∀ i r, raw_logs !! i = Some r →
         ∃ l, logs_df !! i = Some l
              ∧ Log.user_id l = read_string (RawLog.user_id r)
              ∧ Log.song_id l = read_string (RawLog.song_id r)
              ∧ Log.timestamp l
                = read_string (RawLog.timestamp r) ≫= to_timestamp rt
              ∧ Log.duration_sec l = parse_int rt (RawLog.duration_sec r))
    ∧ ∃ w', main rt w = (w', inr tt).
Proof.
  intros Hlogs Hsongs. exists (read_log rt <$> raw_logs). split_and!.
  - by apply load_data_run.
  - apply length_fmap.
  - intros i r Hr. exists (read_log rt r). split; [|done].
    by rewrite list_lookup_fmap, Hr.
  - eexists. by apply main_run.
Qed.

Lemma loader_keeps_every_row_witness :
  ∃ logs_df,
    load_data example_runtime malformed_world
    = (malformed_world,
       inr (logs_df, read_song <$> scenario_raw_songs,
            enrich logs_df (read_song <$> scenario_raw_songs)))
    ∧ length logs_df = 1
    ∧ (∀ i r,
         [RawLog.mk "U1" "S002" "2025-03-19 10:00:00" "abc"] !! i = Some r →
         ∃ l, logs_df !! i = Some l
              ∧ Log.user_id l = read_string (RawLog.user_id r)
              ∧ Log.song_id l = read_string (RawLog.song_id r)
              ∧ Log.timestamp l
                = read_string (RawLog.timestamp r)
                    ≫= to_timestamp example_runtime
              ∧ Log.duration_sec l
                = parse_int example_runtime (RawLog.duration_sec r))
    ∧ ∃ w', main example_runtime malformed_world = (w', inr tt).
Proof.
  apply (loader_keeps_every_row example_runtime malformed_world
           [RawLog.mk "U1" "S002" "2025-03-19 10:00:00" "abc"]
           scenario_raw_songs);
    reflexivity.
Defined.

(** *** Nothing to analyse *)

Lemma written_output_lookup rt logs_df songs_df seed location :
  location ∈ subdirs →
  ∃ a, written_output rt logs_df songs_df seed !! location = Some a
       ∧ a ≠ EmptyDir.
Proof.
  intros Hin. unfold subdirs in Hin.
  repeat (apply elem_of_cons in Hin as [->|Hin]; [by eexists|]).
  by apply elem_of_nil in Hin.
Qed.

(** C9. With both sources present the run never fails and leaves a written
    artifact at each of the seven locations; with no event, each artifact
    is written with no row; and with an empty cohort task 4 returns and
    writes the empty relation. *)
Theorem empty_input_outputs (rt : Runtime) :
  (∀ w raw_logs songs_df,
     listening_logs_csv w = Some raw_logs →
     songs_metadata_csv w = Some songs_df →
     ∃ w', main rt w = (w', inr tt)
           ∧ ∀ location, location ∈ subdirs →
               ∃ a, output w' !! location = Some a ∧ a ≠ EmptyDir)
  ∧ (∀ w songs_df,
       listening_logs_csv w = Some [] →
       songs_metadata_csv w = Some songs_df →
       ∃ w', main rt w = (w', inr tt) ∧ output w' = empty_outputs)
  ∧ (∀ w enriched_logs songs_df,
       sad_song_listeners rt enriched_logs = [] →
       ∃ w', task4_happy_song_recommendations rt enriched_logs songs_df w
             = (w', inr [])
             ∧ output w' !! "happy_recommendations"
               = Some (Recommendations [])).
Proof.
  split_and!.
  - intros w raw_logs songs_df Hlogs Hsongs. eexists.
    split; [by apply main_run|]. apply written_output_lookup.
  - intros w songs_df Hlogs Hsongs. eexists.
    split; [by apply main_run|]. reflexivity.
  - intros w enriched_logs songs_df Hcohort. eexists.
    rewrite task4_run. unfold final_recommendations. rewrite Hcohort.
    split; [reflexivity|]. apply lookup_insert_eq.
Qed.

(** ** The model at work *)

Example parse_int_samples :
  let parse_int := parse_int example_runtime in
  parse_int "200" = Some 200%Z ∧ parse_int "-5" = Some (-5)%Z
  ∧ parse_int "+12" = Some 12%Z ∧ parse_int "2147483647" = Some 2147483647%Z
  ∧ parse_int "2147483648" = None ∧ parse_int "-2147483648" = Some (-2147483648)%Z
  ∧ parse_int "12.5" = None ∧ parse_int " 12" = None ∧ parse_int "-" = None
  ∧ parse_int "" = None.
Proof. repeat split. Qed.

(** An empty field is NULL, in a string column too. *)
Example read_empty_fields :
  read_log example_runtime (RawLog.mk "" "" "" "")
  = Log.mk None None None None
  ∧ read_song (RawSong.mk "" "A" "" "Pop" "") =
    Song.mk None (Some "A") None (Some "Pop") None
  ∧ read_song <$> scenario_raw_songs = scenario_songs.
Proof. repeat split. Qed.

(** The scenario of the specification: the event of the unknown song is
    not enriched but counts in the analyses of the raw logs. *)
Example scenario_enriched_logs :
  enrich scenario_logs scenario_songs
  = [Enriched.mk (Some "S002") (Some "U1") (Some 1000000%Z) (Some 200%Z)
       (Some "B") (Some "Y") (Some "Pop") (Some "Sad");
     Enriched.mk (Some "S002") (Some "U1") (Some 2000000%Z) (Some 210%Z)
       (Some "B") (Some "Y") (Some "Pop") (Some "Sad")].
Proof. reflexivity. Qed.

Example scenario_user_favorite_genres :
  user_favorite_genres example_runtime (enrich scenario_logs scenario_songs)
  = [(Some "U1", Some "Pop", 2)].
Proof. reflexivity. Qed.

Example scenario_avg_listen_time :
  avg_listen_time example_runtime scenario_logs
  = [(Some "S002", (Some (410 # 2)%Q, 2));
     (Some "S999", (Some (100 # 1)%Q, 1))].
Proof. reflexivity. Qed.

Example scenario_recommendations :
  sad_song_listeners example_runtime (enrich scenario_logs scenario_songs)
  = [Some "U1"]
  ∧ final_recommendations example_runtime
      (enrich scenario_logs scenario_songs) scenario_songs 0
    = [Recommendation.mk (Some "U1") (Some "S001") (Some "A") (Some "X")].
Proof. split; reflexivity. Qed.

Example scenario_loyalty_scores :
  loyalty_scores example_runtime (enrich scenario_logs scenario_songs)
  = [(Some "U1", Some "Pop", (2 # 2)%Q)].
Proof. reflexivity. Qed.

(** Two genres tied at the maximum: the oracle picks the favourite, and the
    loyalty output has no row for the user. *)
Example tied_favorite_genres :
  user_favorite_genres example_runtime tied_logs
  = [(Some "U1", Some "Pop", 1)]
  ∧ user_favorite_genres (prefer_rock example_runtime) tied_logs
    = [(Some "U1", Some "Rock", 1)]
  ∧ loyalty_scores example_runtime tied_logs = [].
Proof. repeat split. Qed.

(** Events with no [user_id] make one group, which comes first in task 1
    and has no row in task 5, where the join on [user_id] drops it. *)
Example nameless_analyses :
  let enriched_logs :=
    enrich (read_log example_runtime <$> nameless_logs) scenario_songs in
  user_favorite_genres example_runtime enriched_logs = [(None, Some "Pop", 3)]
  ∧ loyalty_scores example_runtime enriched_logs = []
  ∧ sad_song_listeners example_runtime enriched_logs = [None]
  ∧ user_listened_songs enriched_logs None = [].
Proof. repeat split. Qed.

(** The hour of an event is that of the session time zone: the event at
    20:30 UTC is a night play five and a half hours to the east. *)
Example night_owl_users_time_zone :
  night_owl_users example_runtime evening_logs = []
  ∧ night_owl_users india_runtime evening_logs = [(Some "A", 1)].
Proof. split; reflexivity. Qed.

(** ** Further properties of the analyses *)

(** *** The head of a descending sort *)

Lemma head_order_by_desc {A} (measure tie : A → nat) (l : list A) x :
  x ∈ take 1 (order_by_desc measure tie l) →
  x ∈ l ∧ ∀ y, y ∈ l → measure y ≤ measure x.
Proof.
  pose proof (order_by_desc_perm measure tie l) as Hperm.
  pose proof (order_by_desc_sorted measure tie l) as Hsorted.
  destruct (order_by_desc measure tie l) as [|h s]; [by intros ?%elem_of_nil|].
  cbn. intros ->%list_elem_of_singleton.
  apply StronglySorted_cons in Hsorted as [Hall _]. split.
  - rewrite <- Hperm. apply list_elem_of_here.
  - intros y Hy. rewrite <- Hperm in Hy.
    apply elem_of_cons in Hy as [->|Hy]; [done|].
    eapply desc_by_measure. by eapply Forall_forall in Hall.
Qed.

Lemma head_order_by_desc_exists {A} (measure tie : A → nat) (l : list A) :
  l ≠ [] → ∃ x, take 1 (order_by_desc measure tie l) = [x].
Proof.
  intros Hne. pose proof (order_by_desc_perm measure tie l) as Hperm.
  destruct (order_by_desc measure tie l) as [|h s]; [|by exists h].
  by apply Permutation_nil in Hperm.
Qed.

(** *** Task 1 *)

Lemma user_favorite_genres_perm rt enriched_logs :
  user_favorite_genres rt enriched_logs
  ≡ₚ rank_1 (λ r, r.1.1) (desc_by snd (tie_genre_counts rt))
       (user_genre_counts enriched_logs).
Proof.
  unfold user_favorite_genres, order_by_asc.
  by rewrite merge_sort_Permutation, row_number_over_rank_1.
Qed.

Lemma elem_of_user_favorite_genres rt enriched_logs u g n :
  ((u, g), n) ∈ user_favorite_genres rt enriched_logs →
  ((u, g), n) ∈ user_genre_plays enriched_logs
  ∧ n = max_category_play_count enriched_logs u.
Proof.
  intros Hr.
  assert (((u, g), n) ∈ filter (λ r : Str * Str * nat, r.1.1 = u)
                          (user_favorite_genres rt enriched_logs)) as Hu
    by by apply list_elem_of_filter.
  rewrite user_favorite_genres_group in Hu.
  apply head_order_by_desc in Hu as [Hin Hmax].
  apply list_elem_of_filter in Hin as [_ Hin]. split; [done|].
  rewrite <- window_max_genre_plays. apply Nat.le_antisymm.
  - apply (max_list_with_ge snd _ ((u, g), n)). by apply list_elem_of_filter.
  - apply max_list_with_le. intros y Hy. by apply Hmax.
Qed.

#[global] Instance asc_by_total {A} (key : A → Str) : Total (asc_by key).
Proof.
  intros a b. unfold asc_by, col_le.
  destruct (key a) as [x|], (key b) as [y|]; [|tauto..].
  rewrite !Is_true_true. apply String.leb_total.
Qed.

(** Task 1 has one row for every user with an enriched event and for no
    other, the events with no [user_id] making one user; the row's genre
    is one the user played most, with that number of plays; and the rows
    come by ascending [user_id], NULL first. *)
Theorem favorite_genre_is_most_played (rt : Runtime)
    (enriched_logs : list Enriched.t) :
  NoDup ((λ r, r.1.1) <$> user_favorite_genres rt enriched_logs)
  ∧ (∀ u, u ∈ (λ r, r.1.1) <$> user_favorite_genres rt enriched_logs
          ↔ u ∈ Enriched.user_id <$> enriched_logs)
  ∧ (∀ u g n, ((u, g), n) ∈ user_favorite_genres rt enriched_logs →
        n = category_play_count enriched_logs u g
        ∧ n = max_category_play_count enriched_logs u)
  ∧ Sorted (λ a b, col_le a.1.1 b.1.1)
      (user_favorite_genres rt enriched_logs).
Proof.
  split_and!.
  - rewrite user_favorite_genres_perm. apply NoDup_rank_1_keys.
  - intros u. rewrite list_elem_of_fmap. split.
    + intros ([[u' g] n] & -> & Hr). simpl.
      apply elem_of_user_favorite_genres in Hr as [Hr _].
      apply elem_of_user_genre_plays in Hr as [(e & He & <- & _) _].
      by apply list_elem_of_fmap_2.
    + intros (e & -> & He)%list_elem_of_fmap.
      destruct (head_order_by_desc_exists snd (tie_genre_counts rt)
                  (filter (λ r : Str * Str * nat,
                             r.1.1 = Enriched.user_id e)
                     (user_genre_counts enriched_logs))) as [x Hx].
      { intros Hnil.
        assert (((Enriched.user_id e, Enriched.genre e),
                 category_play_count enriched_logs (Enriched.user_id e)
                   (Enriched.genre e))
                ∈ filter (λ r : Str * Str * nat,
                            r.1.1 = Enriched.user_id e)
                    (user_genre_counts enriched_logs)) as Hin.
        { apply list_elem_of_filter. split; [done|].
          apply elem_of_user_genre_plays. eauto. }
        rewrite Hnil in Hin. by apply elem_of_nil in Hin. }
      assert (x ∈ filter (λ r : Str * Str * nat,
                            r.1.1 = Enriched.user_id e)
                    (user_favorite_genres rt enriched_logs)) as Hin
        by (rewrite user_favorite_genres_group, Hx; apply list_elem_of_here).
      apply list_elem_of_filter in Hin as [Hu Hin]. by exists x.
  - intros u g n Hr. apply elem_of_user_favorite_genres in Hr as [Hr Hmax].
    by apply elem_of_user_genre_plays in Hr as [_ Hr].
  - unfold user_favorite_genres, order_by_asc.
    apply (Sorted_merge_sort (asc_by _)).
Qed.

(** *** Sums of group counts, and sorted prefixes *)

Lemma sum_list_with_fmap {A B} (g : B → nat) (h : A → B) (l : list A) :
  sum_list_with g (h <$> l) = sum_list_with (g ∘ h) l.
Proof.
  induction l as [|x l IH]; [done|].
  change (g (h x) + sum_list_with g (h <$> l)
          = g (h x) + sum_list_with (g ∘ h) l).
  by rewrite IH.
Qed.

Lemma sum_list_with_ext_in {A} (f g : A → nat) (l : list A) :
  (∀ x, x ∈ l → f x = g x) → sum_list_with f l = sum_list_with g l.
Proof.
  induction l as [|x l IH]; intros Hfg; [done|].
  change (f x + sum_list_with f l = g x + sum_list_with g l).
  rewrite (Hfg x) by apply list_elem_of_here.
  rewrite IH; [done|]. intros y Hy. by apply Hfg, list_elem_of_further.
Qed.

(** The groups of a relation partition it. *)
Lemma sum_counts_partition {A K} `{EqDecision K} (key : A → K)
    (ks : list K) (l : list A) :
  NoDup ks → (∀ x, x ∈ l → key x ∈ ks) →
  sum_list_with (λ k, length (filter (λ x, key x = k) l)) ks = length l.
Proof.
  intros Hnd. revert l. induction Hnd as [|k ks Hk Hnd IH]; intros l Hl.
  - destruct l as [|x l]; [done|].
    by destruct (elem_of_nil (key x)) as [Hnil _]; destruct Hnil; apply Hl;
      apply list_elem_of_here.
  - change (length (filter (λ x, key x = k) l)
            + sum_list_with (λ k, length (filter (λ x, key x = k) l)) ks
            = length l).
    rewrite (sum_list_with_ext_in _
      (λ k', length (filter (λ x, key x = k')
                       (filter (λ x, key x ≠ k) l)))).
    + rewrite IH.
      * rewrite <- (length_app (filter _ l)).
        by rewrite (filter_app_complement (λ x, key x = k) l).
      * intros x [Hne Hx]%list_elem_of_filter.
        apply Hl in Hx. apply elem_of_cons in Hx as [?|?]; done.
    + intros k' Hk'. rewrite list_filter_filter. f_equal.
      apply list_filter_iff. intros x. split; [|tauto].
      intros ->. split; [done|]. congruence.
Qed.

Lemma sum_group_by_count {A K} `{EqDecision K} (key : A → K) (l : list A) :
  sum_list_with snd (group_by_count key l) = length l.
Proof.
  unfold group_by_count. rewrite sum_list_with_fmap.
  apply (sum_counts_partition key); [apply NoDup_remove_dups|].
  intros x Hx. by apply elem_of_remove_dups, list_elem_of_fmap_2.
Qed.

Lemma StronglySorted_mono {A} (R1 R2 : relation A) (l : list A) :
  (∀ a b, R1 a b → R2 a b) → StronglySorted R1 l → StronglySorted R2 l.
Proof.
  intros Himpl. induction 1 as [|a l Hs IH Hall]; constructor; [done|].
  eapply Forall_impl; [exact Hall|]. apply Himpl.
Qed.

Lemma StronglySorted_take {A} (R : relation A) (l : list A) (k : nat) :
  StronglySorted R l → StronglySorted R (take k l).
Proof.
  intros Hs. rewrite <- (take_drop k l) in Hs.
  by apply StronglySorted_app in Hs as (_ & ? & _).
Qed.

Lemma order_by_desc_decreasing {A} (measure tie : A → nat) (l : list A) :
  StronglySorted (λ a b, measure b ≤ measure a) (order_by_desc measure tie l).
Proof.
  eapply StronglySorted_mono; [|apply order_by_desc_sorted].
  apply desc_by_measure.
Qed.

(** *** Task 2 *)

Lemma avg_None (l : list (option Z)) : avg l = None ↔ Forall (.= None) l.
Proof.
  unfold avg. split.
  - destruct (omap id l) as [|x xs] eqn:Hx; [|done]. intros _.
    apply Forall_forall. intros [d|] Hd; [|done].
    assert (d ∈ omap id l) as Hin by (apply list_elem_of_omap; eauto).
    rewrite Hx in Hin. by apply elem_of_nil in Hin.
  - intros Hall. assert (omap id l = []) as ->; [|done].
    induction Hall as [|? l -> _ IH]; [done|]. exact IH.
Qed.

Lemma sum_bounds (lo hi : Z) (xs : list Z) :
  Forall (λ d, lo ≤ d ≤ hi)%Z xs →
  (lo * Z.of_nat (length xs) ≤ foldr Z.add 0 xs ≤ hi * Z.of_nat (length xs))%Z.
Proof. induction 1 as [|d xs Hd _ IH]; simpl; lia. Qed.

Lemma avg_bounds (lo hi : Z) (l : list (option Z)) (q : Q) :
  (∀ d, Some d ∈ l → lo ≤ d ≤ hi)%Z → avg l = Some q →
  (inject_Z lo <= q ∧ q <= inject_Z hi)%Q.
Proof.
  intros Hl. unfold avg.
  assert (Forall (λ d, lo ≤ d ≤ hi)%Z (omap id l)) as Hall.
  { apply Forall_forall. intros d (o & Ho & Hd)%list_elem_of_omap.
    simpl in Hd. subst o. by apply Hl. }
  apply sum_bounds in Hall.
  destruct (omap id l) as [|x xs] eqn:Hx; [done|]. intros [= <-].
  unfold Qle, inject_Z. cbn [Qnum Qden].
  rewrite pos_of_nat_Z by (simpl; lia). cbn [length foldr] in Hall. lia.
Qed.

(** Task 2 has one row per song of the raw logs, whether the catalogue has
    the song or not; the row's play count is the number of log events of
    the song, so the play counts add up to the number of log events; the
    average is NULL exactly when no event of the song has a duration, and
    otherwise lies within any bounds the durations lie within; and the rows
    come by descending play count. *)
Theorem avg_listen_time_counts_every_event (rt : Runtime)
    (logs_df : list Log.t) :
  NoDup (fst <$> avg_listen_time rt logs_df)
  ∧ (∀ s, s ∈ fst <$> avg_listen_time rt logs_df
          ↔ s ∈ Log.song_id <$> logs_df)
  ∧ (∀ s a n, (s, (a, n)) ∈ avg_listen_time rt logs_df →
        let events := filter (λ l, Log.song_id l = s) logs_df in
        n = length events ∧ 0 < n
        ∧ (a = None ↔ ∀ l, l ∈ events → Log.duration_sec l = None)
        ∧ ∀ lo hi q,
            (∀ l d, l ∈ events → Log.duration_sec l = Some d → lo ≤ d ≤ hi)%Z →
            a = Some q → (inject_Z lo <= q ∧ q <= inject_Z hi)%Q)
  ∧ sum_list_with (λ r, r.2.2) (avg_listen_time rt logs_df) = length logs_df
  ∧ StronglySorted (λ a b, b.2.2 ≤ a.2.2) (avg_listen_time rt logs_df).
Proof.
  assert (Hkeys : fst <$> group_by_agg Log.song_id
            (λ g, (avg (Log.duration_sec <$> g), length g)) logs_df
          = remove_dups (Log.song_id <$> logs_df)).
  { unfold group_by_agg. rewrite <- list_fmap_compose.
    rewrite <- (list_fmap_id (remove_dups _)) at 2. by apply list_fmap_ext. }
  split_and!.
  - unfold avg_listen_time. rewrite order_by_desc_perm, Hkeys.
    apply NoDup_remove_dups.
  - intros s. unfold avg_listen_time.
    by rewrite order_by_desc_perm, Hkeys, elem_of_remove_dups.
  - intros s a n Hr events. unfold avg_listen_time in Hr.
    rewrite order_by_desc_perm in Hr. unfold group_by_agg in Hr.
    apply list_elem_of_fmap in Hr as (k & [= -> -> ->] & Hk).
    fold events. split_and!.
    + done.
    + apply elem_of_remove_dups, list_elem_of_fmap in Hk as (l & -> & Hl).
      assert (l ∈ events) as Hin by by apply list_elem_of_filter.
      destruct events; [by apply elem_of_nil in Hin|simpl; lia].
    + rewrite avg_None, Forall_fmap, Forall_forall. done.
    + intros lo hi q Hbounds. apply avg_bounds.
      intros d (l & Hd & Hl)%list_elem_of_fmap. by apply (Hbounds l).
  - unfold avg_listen_time. rewrite order_by_desc_perm. unfold group_by_agg.
    rewrite sum_list_with_fmap.
    apply (sum_counts_partition Log.song_id); [apply NoDup_remove_dups|].
    intros x Hx. by apply elem_of_remove_dups, list_elem_of_fmap_2.
  - apply order_by_desc_decreasing.
Qed.

(** *** Task 3 *)

(** The weekly leaderboard has at most 10 rows, of distinct songs, each
    with at least one play, by descending play count. *)
Theorem top_songs_leaderboard (rt : Runtime) (enriched_logs : list Enriched.t) :
  length (top_songs rt enriched_logs) ≤ 10
  ∧ NoDup (fst <$> top_songs rt enriched_logs)
  ∧ (∀ r, r ∈ top_songs rt enriched_logs → 0 < r.2)
  ∧ StronglySorted (λ a b, b.2 ≤ a.2) (top_songs rt enriched_logs).
Proof.
  unfold top_songs. split_and!.
  - rewrite length_take. lia.
  - eapply sublist_NoDup; [|apply fmap_sublist, sublist_take].
    rewrite order_by_desc_perm. apply NoDup_group_by_count_keys.
  - intros [k n] Hr%subseteq_take. rewrite order_by_desc_perm in Hr.
    by eapply group_by_count_pos.
  - apply StronglySorted_take, order_by_desc_decreasing.
Qed.

(** *** Task 6 *)

Lemma is_night_at_night rt (l : Log.t) :
  is_night rt (Log.timestamp l) ↔ at_night rt l.
Proof.
  unfold is_night, hour, at_night.
  destruct (Log.timestamp l) as [t|]; simpl; [|done].
  by rewrite andb_True, !bool_decide_spec.
Qed.

Lemma night_plays_of_user rt (logs_df : list Log.t) u :
  length (filter (λ l, Log.user_id l = u)
            (filter (λ l, is_night rt (Log.timestamp l)) logs_df))
  = night_play_count rt logs_df u.
Proof.
  unfold night_play_count. rewrite list_filter_filter. f_equal.
  apply list_filter_iff. intros l. by rewrite is_night_at_night.
Qed.

(** Task 6 has one row per user with a log event from midnight to five on
    the wall clock of the session time zone, the catalogue playing no
    part; the row counts the user's events in those hours, events with a
    NULL timestamp never counting; and the rows come by descending
    count. *)
Theorem night_owl_users_counts (rt : Runtime) (logs_df : list Log.t) :
  (∀ u n, (u, n) ∈ night_owl_users rt logs_df
          ↔ n = night_play_count rt logs_df u ∧ 0 < n)
  ∧ NoDup (fst <$> night_owl_users rt logs_df)
  ∧ (∀ u, night_play_count rt logs_df u
          ≤ length (filter (λ l, Log.user_id l = u
                                 ∧ is_Some (Log.timestamp l)) logs_df))
  ∧ StronglySorted (λ a b, b.2 ≤ a.2) (night_owl_users rt logs_df).
Proof.
  split_and!.
  - intros u n. unfold night_owl_users.
    rewrite order_by_desc_perm, elem_of_group_by_count, night_plays_of_user.
    split.
    + intros [Hu ->]. split; [done|].
      apply list_elem_of_fmap in Hu as (l & -> & Hl).
      apply list_elem_of_filter in Hl as [Hnight%is_night_at_night Hl].
      unfold night_play_count.
      assert (l ∈ filter (λ l', Log.user_id l' = Log.user_id l
                                ∧ at_night rt l') logs_df) as Hin
        by by apply list_elem_of_filter.
      destruct (filter _ logs_df); [by apply elem_of_nil in Hin|simpl; lia].
    + intros [-> Hpos]. split; [|done].
      apply length_filter_pos in Hpos as (l & Hl & <- & Hnight).
      apply list_elem_of_fmap_2. apply list_elem_of_filter.
      by rewrite is_night_at_night.
  - unfold night_owl_users. rewrite order_by_desc_perm.
    apply NoDup_group_by_count_keys.
  - intros u. apply length_filter_impl. intros l [Hu Hnight]. split; [done|].
    unfold at_night in Hnight. by destruct (Log.timestamp l).
  - apply order_by_desc_decreasing.
Qed.

(** *** Task 4: who is in the cohort *)

Lemma elem_of_mood_counts (enriched_logs : list Enriched.t) u m n :
  ((u, m), n) ∈ mood_counts enriched_logs ↔
  (∃ e, e ∈ enriched_logs ∧ Enriched.user_id e = u ∧ Enriched.mood e = m)
  ∧ n = mood_play_count enriched_logs u m.
Proof.
  unfold mood_counts, mood_play_count.
  rewrite elem_of_group_by_count, list_elem_of_fmap.
  erewrite (list_filter_iff _ (λ e, Enriched.user_id e = u ∧ Enriched.mood e = m));
    [|intros e; split; [by intros [= -> ->]|by intros [-> ->]]].
  split.
  - intros [(e & [= -> ->] & He) ->]. eauto.
  - intros [(e & He & <- & <-) ->]. eauto.
Qed.

Lemma mood_counts_of_user (enriched_logs : list Enriched.t) u m :
  0 < mood_play_count enriched_logs u m →
  ((u, m), mood_play_count enriched_logs u m)
  ∈ filter (λ r : Str * Str * nat, r.1.1 = u) (mood_counts enriched_logs).
Proof.
  intros (e & He & Hu & Hm)%length_filter_pos.
  apply list_elem_of_filter. split; [done|].
  apply elem_of_mood_counts. eauto.
Qed.

(** A user is in the cohort only if Sad is among the user's most played
    moods, and is in it, whatever the order among ties, if Sad is played
    more than every other mood. *)
Theorem sad_cohort_membership (rt : Runtime) (enriched_logs : list Enriched.t) :
  (∀ u, u ∈ sad_song_listeners rt enriched_logs →
        0 < mood_play_count enriched_logs u (Some "Sad")
        ∧ ∀ m, mood_play_count enriched_logs u m
               ≤ mood_play_count enriched_logs u (Some "Sad"))
  ∧ (∀ u, (∀ m, m ≠ (Some "Sad") → mood_play_count enriched_logs u m
                              < mood_play_count enriched_logs u (Some "Sad")) →
          u ∈ sad_song_listeners rt enriched_logs).
Proof.
  split.
  - intros u. rewrite sad_song_listeners_rank_1.
    intros ([[u' m] n] & -> & Hx)%list_elem_of_fmap.
    apply list_elem_of_filter in Hx as [Hsad Hx]. simpl in *. subst m.
    assert (((u', (Some "Sad")), n)
            ∈ filter (λ r : Str * Str * nat, r.1.1 = u')
                (rank_1 (λ r, r.1.1) (desc_by snd (tie_mood_counts rt))
                   (mood_counts enriched_logs))) as Hhead
      by by apply list_elem_of_filter.
    rewrite rank_1_partition in Hhead.
    apply (head_order_by_desc snd) in Hhead as [Hin Hmax].
    apply list_elem_of_filter in Hin as [_ Hin].
    pose proof (group_by_count_pos _ _ _ _ Hin) as Hpos.
    apply elem_of_mood_counts in Hin as [_ ->]. split; [done|].
    intros m.
    destruct (decide (mood_play_count enriched_logs u' m = 0)) as [->|Hm];
      [lia|].
    apply (Hmax ((u', m), mood_play_count enriched_logs u' m)).
    apply mood_counts_of_user. lia.
  - intros u Hdom. rewrite sad_song_listeners_rank_1.
    assert (0 < mood_play_count enriched_logs u (Some "Sad")) as Hpos
      by (pose proof (Hdom (Some "Happy") ltac:(done)); lia).
    pose proof (mood_counts_of_user _ _ _ Hpos) as Hsad.
    destruct (head_order_by_desc_exists snd (tie_mood_counts rt)
                (filter (λ r : Str * Str * nat, r.1.1 = u)
                   (mood_counts enriched_logs))) as [[[u' m] n] Hx].
    { intros Hnil. rewrite Hnil in Hsad. by apply elem_of_nil in Hsad. }
    assert (((u', m), n)
            ∈ take 1 (order_by_desc snd (tie_mood_counts rt)
                        (filter (λ r : Str * Str * nat, r.1.1 = u)
                           (mood_counts enriched_logs)))) as Hhead
      by (rewrite Hx; apply list_elem_of_here).
    pose proof Hhead as [Hin Hmax]%head_order_by_desc.
    apply list_elem_of_filter in Hin as [Hu Hin]. simpl in Hu. subst u'.
    apply elem_of_mood_counts in Hin as [_ ->].
    specialize (Hmax _ Hsad). simpl in Hmax.
    destruct (decide (m = (Some "Sad"))) as [->|Hne];
      [|specialize (Hdom m Hne); lia].
    unfold order_by_desc in Hhead. rewrite <- rank_1_partition in Hhead.
    apply list_elem_of_filter in Hhead as [_ Hhead].
    apply list_elem_of_fmap.
    exists ((u, (Some "Sad")), mood_play_count enriched_logs u (Some "Sad")).
    split; [done|]. by apply list_elem_of_filter.
Qed.

(** *** Task 4: how many records a user gets *)

Lemma user_listened_songs_None (enriched_logs : list Enriched.t) :
  user_listened_songs enriched_logs None = [].
Proof.
  unfold user_listened_songs. rewrite filter_none; [done|].
  intros p _. apply col_eq_None_r.
Qed.

(** What the loop's filter keeps for a user that has a [user_id]: the
    songs with a [song_id] that no enriched event of the user plays. *)
Lemma not_listened_iff logs_df songs_df (user : string) (k : Str) :
  col_not_in k (user_listened_songs (enrich logs_df songs_df) (Some user))
  ↔ is_Some k
    ∧ (Some user, k)
      ∉ (λ e, (Enriched.user_id e, Enriched.song_id e))
          <$> enrich logs_df songs_df.
Proof.
  unfold col_not_in. split.
  - intros (Hsome & Hnew & _). split; [done|]. intros Hin. apply Hnew.
    unfold user_listened_songs, user_songs. apply list_elem_of_fmap.
    exists (Some user, k). split; [done|]. apply list_elem_of_filter.
    split; [done|]. by apply elem_of_remove_dups.
  - intros [Hsome Hnew]. split_and!; [done| |].
    + intros (_ & r & Hr & Hu & Hk)%elem_of_user_listened_songs.
      apply Hnew. apply list_elem_of_fmap. exists r. by rewrite Hu, Hk.
    + by intros [[? [=]] _]%elem_of_user_listened_songs.
Qed.

(** Task 4 gives records to the users of the cohort only; a cohort user
    that has a [user_id] gets 3 records, or as many as there are Happy
    songs with a [song_id] that the user has no enriched event for when
    these are fewer than 3; the cohort user that has none, if there is
    one, gets 3 records, or as many as there are Happy songs with a
    [song_id]; when [song_id] is a key of the songs the records of a user
    are of different songs; and the task draws one seed per cohort user. *)
Theorem recommendations_per_user (rt : Runtime)
    (logs_df : list Log.t) (songs_df : list Song.t) (w : World) :
  let enriched_logs := enrich logs_df songs_df in
  let cohort := sad_song_listeners rt enriched_logs in
  ∃ w' recs,
    task4_happy_song_recommendations rt enriched_logs songs_df w
    = (w', inr recs)
    ∧ seeds_drawn w' = seeds_drawn w + length cohort
    ∧ (∀ u, u ∉ cohort →
            filter (λ r, Recommendation.user_id r = u) recs = [])
    ∧ (∀ user, Some user ∈ cohort →
         length (filter (λ r, Recommendation.user_id r = Some user) recs)
         = 3 `min` length (unheard_happy_songs enriched_logs songs_df user))
    ∧ (None ∈ cohort →
       length (filter (λ r, Recommendation.user_id r = None) recs)
       = 3 `min` length (identified_happy_songs songs_df))
    ∧ ∀ u, u ∈ cohort → NoDup (Song.song_id <$> songs_df) →
           NoDup (Recommendation.song_id
                    <$> filter (λ r, Recommendation.user_id r = u) recs).
Proof.
  intros enriched_logs cohort.
  eexists _, _. split; [apply task4_run|]. split; [done|].
  assert (∀ u, u ∈ cohort →
            ∃ i, filter (λ r, Recommendation.user_id r = u)
                   (final_recommendations rt enriched_logs songs_df
                      (seeds_drawn w))
                 = iteration rt enriched_logs songs_df (seeds_drawn w) i u)
    as Hblock.
  { intros u (i & Hi)%list_elem_of_lookup_1. exists i.
    apply filter_blocks;
      [apply NoDup_sad_song_listeners|intros ? k x; apply iteration_user
      |done]. }
  split_and!.
  - intros u Hu. apply filter_blocks_absent; [|done].
    intros i k x. apply iteration_user.
  - intros user [i ->]%Hblock. unfold iteration, user_recommendations.
    rewrite length_fmap, length_take, order_by_rand_perm. f_equal. f_equal.
    unfold happy_songs, unheard_happy_songs. rewrite list_filter_filter.
    apply list_filter_iff. intros s. subst enriched_logs.
    rewrite not_listened_iff. tauto.
  - intros [i Hi]%Hblock.
    transitivity
      (length (iteration rt enriched_logs songs_df (seeds_drawn w) i None)).
    { f_equal. rewrite <- Hi. by apply list_filter_iff. }
    unfold iteration, user_recommendations.
    rewrite length_fmap, length_take, order_by_rand_perm. f_equal. f_equal.
    unfold happy_songs, identified_happy_songs.
    rewrite list_filter_filter, user_listened_songs_None.
    apply list_filter_iff. intros s. unfold col_not_in.
    split; [tauto|]. intros [? ?]. split_and!; try done; apply not_elem_of_nil.
  - intros u [i ->]%Hblock Hkey. unfold iteration, user_recommendations.
    rewrite <- list_fmap_compose.
    eapply sublist_NoDup; [|apply fmap_sublist, sublist_take].
    rewrite order_by_rand_perm.
    eapply sublist_NoDup; [exact Hkey|].
    apply fmap_sublist. etransitivity; apply sublist_filter.
Qed.

(** *** Task 5: who is in the output, and in which order *)

#[global] Instance desc_by_Q_total {A} (score : A → Q) (tie : A → nat) :
  Total (desc_by_Q score tie).
Proof.
  intros a b. unfold desc_by_Q.
  destruct (Qle_bool (score a) (score b)) eqn:Hab; [|by left].
  destruct (Qle_bool (score b) (score a)) eqn:Hba; [|by right].
  apply Qle_bool_iff in Hab, Hba.
  assert (score a == score b)%Q as Heq by by apply Qle_antisym.
  pose proof (proj2 (Qeq_bool_iff _ _) Heq) as ->.
  symmetry in Heq. pose proof (proj2 (Qeq_bool_iff _ _) Heq) as ->.
  simpl. rewrite !bool_decide_spec. lia.
Qed.

Lemma desc_by_Q_le {A} (score : A → Q) (tie : A → nat) a b :
  desc_by_Q score tie a b → (score b <= score a)%Q.
Proof.
  unfold desc_by_Q. intros [Hlt|[Heq _]%andb_True]%orb_True.
  - apply negb_True in Hlt. rewrite Is_true_true, Qle_bool_iff in Hlt.
    apply Qlt_le_weak. by apply Qnot_le_lt.
  - apply Is_true_true, Qeq_bool_iff in Heq. rewrite Heq. apply Qle_refl.
Qed.

Lemma Sorted_mono {A} (R1 R2 : relation A) (l : list A) :
  (∀ a b, R1 a b → R2 a b) → Sorted R1 l → Sorted R2 l.
Proof.
  intros Himpl. induction 1 as [|a l Hs IH Hhd]; constructor; [done|].
  destruct Hhd; constructor. by apply Himpl.
Qed.

(** The genre loyalty output has a row for a user and a genre exactly when
    the user has a [user_id] (the join on [user_id] drops the events that
    have none), the genre is the user's most played and the user's maximum
    per-genre play count is more than four fifths of the user's total; the
    rows come by descending score. *)
Theorem loyalty_scores_exactly (rt : Runtime) (enriched_logs : list Enriched.t) :
  (∀ u g q,
     ((u, g), q) ∈ loyalty_scores rt enriched_logs ↔
     is_Some u
     ∧ q = loyalty_score (max_category_play_count enriched_logs u)
                         (total_play_count enriched_logs u)
     ∧ category_play_count enriched_logs u g
       = max_category_play_count enriched_logs u
     ∧ 4 * total_play_count enriched_logs u
       < 5 * max_category_play_count enriched_logs u)
  ∧ (∀ g q, (None, g, q) ∉ loyalty_scores rt enriched_logs)
  ∧ Sorted (λ a b, (b.2 <= a.2)%Q) (loyalty_scores rt enriched_logs).
Proof.
  split_and!.
  - intros u g q. split.
    + intros (-> & Hm & _ & Hgt & Hsome)%loyalty_row_inv. done.
    + intros (Hsome & -> & Hmax & Hgt).
      assert (0 < category_play_count enriched_logs u g) as Hpos by lia.
      apply length_filter_pos in Hpos as (e & He & Hu & Hg).
      apply elem_of_loyalty_scores. split; [done|].
      exists (max_category_play_count enriched_logs u),
             (total_play_count enriched_logs u).
      split_and!; [| |done|].
      * apply elem_of_user_max_genre. split; [|done]. rewrite <- Hmax.
        apply elem_of_user_genre_plays. eauto.
      * apply elem_of_user_total_plays. split; [|done].
        rewrite <- Hu. by apply list_elem_of_fmap_2.
      * apply loyalty_score_gt; [|done].
        pose proof (category_le_total enriched_logs u g). lia.
  - by intros g q (_ & _ & _ & _ & [? [=]])%loyalty_row_inv.
  - unfold loyalty_scores.
    eapply Sorted_mono; [|apply (Sorted_merge_sort (desc_by_Q _ _))].
    intros a b. apply (desc_by_Q_le snd).
Qed.

(** The genre of a row of the loyalty output is the user's favourite genre
    of task 1, whatever the order among ties. *)
Theorem loyal_genre_is_favorite (rt : Runtime)
    (enriched_logs : list Enriched.t) (u g : Str) (q : Q) :
  ((u, g), q) ∈ loyalty_scores rt enriched_logs →
  ((u, g), max_category_play_count enriched_logs u)
  ∈ user_favorite_genres rt enriched_logs.
Proof.
  intros (_ & Hmax & Hpos & Hgt & _)%loyalty_row_inv.
  assert (u ∈ (λ r : Str * Str * nat, r.1.1)
              <$> user_favorite_genres rt enriched_logs) as Hu.
  { rewrite user_favorite_genres_perm.
    assert (0 < category_play_count enriched_logs u g) as Hg by lia.
    apply length_filter_pos in Hg as (e & He & Heu & Heg).
    destruct (head_order_by_desc_exists snd (tie_genre_counts rt)
                (filter (λ r : Str * Str * nat, r.1.1 = u)
                   (user_genre_counts enriched_logs))) as [x Hx].
    { intros Hnil.
      assert (((u, g), category_play_count enriched_logs u g)
              ∈ filter (λ r : Str * Str * nat, r.1.1 = u)
                  (user_genre_counts enriched_logs)) as Hin.
      { apply list_elem_of_filter. split; [done|].
        apply elem_of_user_genre_plays. eauto. }
      rewrite Hnil in Hin. by apply elem_of_nil in Hin. }
    unfold order_by_desc in Hx. rewrite <- rank_1_partition in Hx.
    assert (x ∈ filter (λ r : Str * Str * nat, r.1.1 = u)
                  (rank_1 (λ r, r.1.1) (desc_by snd (tie_genre_counts rt))
                     (user_genre_counts enriched_logs))) as Hin
      by (rewrite Hx; apply list_elem_of_here).
    apply list_elem_of_filter in Hin as [Hxu Hin].
    apply list_elem_of_fmap. by exists x. }
  apply list_elem_of_fmap in Hu as ([[u' g'] n] & Hu' & Hr).
  simpl in Hu'. subst u'.
  pose proof (elem_of_user_favorite_genres _ _ _ _ _ Hr) as [Hplays ->].
  apply elem_of_user_genre_plays in Hplays as [_ Hg'].
  destruct (decide (g' = g)) as [->|Hne]; [done|].
  pose proof (two_categories_le_total enriched_logs u g' g Hne). lia.
Qed.

Lemma loyal_genre_is_favorite_witness :
  (Some "U1", Some "Pop", max_category_play_count loyal_logs (Some "U1"))
  ∈ user_favorite_genres example_runtime loyal_logs.
Proof.
  apply (loyal_genre_is_favorite example_runtime loyal_logs (Some "U1")
           (Some "Pop") (5 # 6)%Q).
  vm_compute. apply list_elem_of_here.
Defined.

(** *** The join, whatever the order of the rows *)

Lemma bind_Permutation_pointwise {A B} (f g : A → list B) (l : list A) :
  (∀ x, f x ≡ₚ g x) → l ≫= f ≡ₚ l ≫= g.
Proof.
  intros Hfg. induction l as [|x l IH]; [done|].
  by rewrite !bind_cons, Hfg, IH.
Qed.

(** The enriched relation does not depend on the order of the events or of
    the songs, up to the order of its rows. *)
Theorem enrich_order_independent (logs_df logs_df' : list Log.t)
    (songs_df songs_df' : list Song.t) :
  logs_df ≡ₚ logs_df' → songs_df ≡ₚ songs_df' →
  enrich logs_df songs_df ≡ₚ enrich logs_df' songs_df'.
Proof.
  intros Hlogs Hsongs. unfold enrich, inner_join. apply fmap_Permutation.
  rewrite Hlogs. apply bind_Permutation_pointwise. intros e.
  by rewrite Hsongs.
Qed.

Lemma enrich_order_independent_witness :
  enrich scenario_logs scenario_songs
  ≡ₚ enrich (reverse scenario_logs) (reverse scenario_songs).
Proof.
  apply enrich_order_independent; by rewrite reverse_Permutation.
Defined.

(** *** Counts that add up *)

Lemma sum_filter_group_by_count {A K} `{EqDecision K} (key : A → K)
    (P : K → Prop) `{∀ k, Decision (P k)} (l : list A) :
  sum_list_with snd (filter (λ r, P r.1) (group_by_count key l))
  = length (filter (λ x, P (key x)) l).
Proof.
  unfold group_by_count. rewrite filter_fmap, sum_list_with_fmap.
  rewrite (sum_list_with_ext_in _
    (λ k, length (filter (λ x, key x = k) (filter (λ x, P (key x)) l)))).
  - apply (sum_counts_partition key).
    + apply NoDup_filter, NoDup_remove_dups.
    + intros x [HP Hx]%list_elem_of_filter. apply list_elem_of_filter.
      split; [done|]. by apply elem_of_remove_dups, list_elem_of_fmap_2.
  - intros k [HP _]%list_elem_of_filter. simpl in HP.
    rewrite list_filter_filter. unfold compose. cbn [snd]. f_equal.
    apply list_filter_iff.
    intros x. split; [|tauto]. intros ->. done.
Qed.

(** The per-genre play counts of a user add up to the user's total plays,
    the totals of the users to the number of enriched events, and the
    night plays of the users to the number of log events in the night
    hours. *)
Theorem play_counts_add_up (rt : Runtime) (logs_df : list Log.t)
    (enriched_logs : list Enriched.t) :
  (∀ u, sum_list_with snd
          (filter (λ r, r.1.1 = u) (user_genre_plays enriched_logs))
        = total_play_count enriched_logs u)
  ∧ sum_list_with snd (user_total_plays enriched_logs) = length enriched_logs
  ∧ sum_list_with snd (night_owl_users rt logs_df)
    = length (filter (at_night rt) logs_df).
Proof.
  split_and!.
  - intros u.
    exact (sum_filter_group_by_count
             (λ e, (Enriched.user_id e, Enriched.genre e))
             (λ k : Str * Str, k.1 = u) enriched_logs).
  - apply sum_group_by_count.
  - unfold night_owl_users. rewrite order_by_desc_perm, sum_group_by_count.
    f_equal. apply list_filter_iff. intros l. apply is_night_at_night.
Qed.

(** *** The weekly filter over time *)



(** ** The fixture generator *)

Section generator_facts.
Import DataGenerator.
Context (rnd : Randomness).

Lemma append_nil_l (s : string) : "" +:+ s = s.
Proof. reflexivity. Qed.

Lemma append_cons (c : ascii) (s t : string) :
  String c s +:+ t = String c (s +:+ t).
Proof. reflexivity. Qed.

(** *** Identifiers *)

Lemma pretty_N_go_head (x : N) (s : string) :
  (0 < x)%N → digit_head (pretty_N_go x s).
Proof.
  revert s. induction (N.lt_wf_0 x) as [x _ IH]; intros s Hx.
  rewrite pretty_N_go_step by done.
  destruct (decide (x < 10)%N) as [Hlt|Hge].
  - rewrite N.div_small by done. rewrite pretty_N_go_0, N.mod_small by done.
    assert (x = 1 ∨ x = 2 ∨ x = 3 ∨ x = 4 ∨ x = 5 ∨ x = 6
            ∨ x = 7 ∨ x = 8 ∨ x = 9)%N as Hcases by lia.
    destruct Hcases as [->|[->|[->|[->|[->|[->|[->|[->| ->]]]]]]]]; by split.
  - apply IH; [apply N.div_lt; lia|apply N.div_str_pos; lia].
Qed.

Lemma str_head (i : nat) : 0 < i → digit_head (str i).
Proof.
  intros Hi. unfold str, pretty, pretty_nat, pretty, pretty_N.
  rewrite decide_False by lia. apply pretty_N_go_head. lia.
Qed.

Lemma zeros_app_inj (m n : nat) (a b : string) :
  digit_head a → digit_head b → zeros m +:+ a = zeros n +:+ b → a = b.
Proof.
  revert n. induction m as [|m IH]; intros [|n] Ha Hb Heq;
    cbn [zeros] in Heq; rewrite ?append_nil_l, ?append_cons in Heq.
  - done.
  - subst a. by destruct Ha.
  - subst b. by destruct Hb.
  - injection Heq as Heq. by eapply IH.
Qed.

Lemma zfill_head (width : nat) (s : string) :
  digit_head s → zfill width s = zeros (width - String.length s) +:+ s.
Proof.
  destruct s as [|c s]; [done|]. intros [_ Hsign]. unfold zfill.
  by rewrite Hsign.
Qed.

Lemma zfill_str_inj (width i j : nat) :
  0 < i → 0 < j → zfill width (str i) = zfill width (str j) → i = j.
Proof.
  intros Hi Hj. rewrite !zfill_head by by apply str_head.
  intros Heq%zeros_app_inj; [|by apply str_head..].
  by apply (inj pretty) in Heq.
Qed.

Lemma prefixed_ids_NoDup (prefix : string) (n : nat) :
  NoDup ((λ i, prefix +:+ zfill 4 (str i)) <$> seq 1 n).
Proof.
  apply NoDup_fmap_2_strong; [|apply NoDup_seq].
  intros i j Hi%elem_of_seq Hj%elem_of_seq Heq%(inj (String.app prefix)).
  apply zfill_str_inj in Heq; lia.
Qed.

(** The identifiers the generator gives to songs and to users are as many
    as asked for and pairwise distinct, beyond four digits too. *)
Theorem generated_ids_distinct (n : nat) :
  length (song_ids n) = n ∧ NoDup (song_ids n)
  ∧ length (user_ids n) = n ∧ NoDup (user_ids n).
Proof.
  unfold song_ids, user_ids. rewrite !length_fmap, !length_seq.
  split_and!; try done; apply prefixed_ids_NoDup.
Qed.

(** *** Titles *)

Lemma gen_bind_run {A B} (m : Gen A) (k : A → Gen B) st st' a :
  m st = (inr a, st') → gen_bind m k st = k a st'.
Proof. unfold gen_bind. by intros ->. Qed.

Lemma random_choice_run {A} (seq : list A) st :
  seq ≠ [] →
  ∃ x, x ∈ seq ∧ random_choice rnd seq st = (inr x, advance st).
Proof.
  intros Hne. unfold random_choice, gen_bind, next_random.
  destruct (seq !! _) as [x|] eqn:Hx.
  - exists x. split; [by eapply list_elem_of_lookup_2|done].
  - apply lookup_ge_None in Hx.
    assert (length seq ≠ 0) as Hlen by by destruct seq.
    pose proof (Nat.mod_upper_bound (random_bits rnd (random_pos st))
                  (length seq) Hlen). lia.
Qed.

Lemma has_space_app (a b : string) :
  has_space (a +:+ " " +:+ b) = true.
Proof.
  induction a as [|c a IH]; [done|].
  rewrite append_cons. cbn [has_space]. by rewrite IH, orb_true_r.
Qed.

(** Two texts without blanks, each followed by a blank and more text: the
    first blank tells where each ends. *)
Lemma split_at_space (a a' b b' : string) :
  has_space a = false → has_space a' = false →
  a +:+ " " +:+ b = a' +:+ " " +:+ b' → a = a' ∧ b = b'.
Proof.
  revert a'. induction a as [|c a IH]; intros [|c' a'] Ha Ha' Heq;
    rewrite ?append_nil_l, ?append_cons, ?append_nil_l in Heq;
    cbn [has_space] in Ha, Ha'.
  - by injection Heq as ->.
  - injection Heq as <- _. done.
  - injection Heq as -> _. done.
  - injection Heq as -> Heq. apply orb_false_iff in Ha as [_ Ha].
    apply orb_false_iff in Ha' as [_ Ha'].
    by destruct (IH a' Ha Ha' Heq) as [-> ->].
Qed.

Lemma words_no_space :
  Forall (λ w, has_space w = false) adjectives
  ∧ Forall (λ w, has_space w = false) nouns.
Proof. split; repeat constructor. Qed.

Lemma adjective_no_space a : a ∈ adjectives → has_space a = false.
Proof. intros Ha. by eapply Forall_forall in Ha; [|apply words_no_space]. Qed.

Lemma noun_no_space n : n ∈ nouns → has_space n = false.
Proof. intros Hn. by eapply Forall_forall in Hn; [|apply words_no_space]. Qed.

Lemma plain_ne_numbered a n a' n' i :
  a ∈ adjectives → n ∈ nouns → a' ∈ adjectives →
  plain_title a n ≠ numbered_title a' n' i.
Proof.
  intros Ha Hn Ha' Heq. unfold plain_title, numbered_title in Heq.
  apply split_at_space in Heq as [_ ->]; [|by apply adjective_no_space..].
  apply noun_no_space in Hn. by rewrite has_space_app in Hn.
Qed.

Lemma numbered_inj a n i a' n' j :
  a ∈ adjectives → n ∈ nouns → a' ∈ adjectives → n' ∈ nouns →
  numbered_title a n i = numbered_title a' n' j → i = j.
Proof.
  intros Ha Hn Ha' Hn' Heq. unfold numbered_title in Heq.
  apply split_at_space in Heq as [_ Heq]; [|by apply adjective_no_space..].
  apply split_at_space in Heq as [_ Heq]; [|by apply noun_no_space..].
  by apply (inj pretty) in Heq.
Qed.

Lemma title_attempts_run fuel attempts t st :
  ∃ attempts' t' st',
    title_attempts rnd fuel attempts t st = (inr (attempts', t'), st')
    ∧ ((attempts' = attempts + fuel ∧ t' = t)
       ∨ (attempts' < attempts + fuel
          ∧ ∃ a n, a ∈ adjectives ∧ n ∈ nouns
                   ∧ (plain_title a n ∉ used_titles t)
                   ∧ t' = add_title (plain_title a n) t)).
Proof.
  revert attempts st. induction fuel as [|fuel IH]; intros attempts st.
  - eexists _, _, _. split; [done|]. left. split; [lia|done].
  - cbn [title_attempts].
    destruct (random_choice_run adjectives st) as (a & Ha & Hrun); [done|].
    destruct (random_choice_run nouns (advance st)) as (n & Hn & Hrun');
      [done|].
    rewrite (gen_bind_run _ _ _ _ _ Hrun), (gen_bind_run _ _ _ _ _ Hrun').
    destruct (decide (plain_title a n ∈ used_titles t)) as [Hused|Hnew].
    + destruct (IH (S attempts) (advance (advance st)))
        as (attempts' & t' & st' & -> & Hcases).
      eexists _, _, _. split; [done|].
      destruct Hcases as [[-> ->]|[Hlt Hrest]]; [left|right].
      * split; [lia|done].
      * split; [lia|done].
    + eexists _, _, _. split; [done|]. right. split; [lia|]. eauto 10.
Qed.

Lemma generate_title_run i t st :
  titles_ok i t →
  ∃ t' st', generate_title rnd i t st = (inr t', st') ∧ titles_ok (S i) t'.
Proof.
  intros (Hlen & Hnd & Hused & Hshape). unfold generate_title.
  destruct (title_attempts_run (max_attempts - 0) 0 t st)
    as (attempts & t1 & st1 & Hrun & Hcases).
  rewrite (gen_bind_run _ _ _ _ _ Hrun). cbn [fst snd].
  assert (Hadd : ∀ x, x ∉ titles t →
            ((∃ a n, a ∈ adjectives ∧ n ∈ nouns ∧ x = plain_title a n)
             ∨ (∃ a n, a ∈ adjectives ∧ n ∈ nouns
                       ∧ x = numbered_title a n i)) →
            titles_ok (S i) (add_title x t)).
  { intros x Hx Hform. unfold titles_ok, add_title. cbn [titles used_titles].
    split_and!.
    - rewrite length_app. simpl. lia.
    - apply NoDup_app. split_and!; [done| |apply NoDup_singleton].
      intros y Hy ->%list_elem_of_singleton. done.
    - intros y. rewrite elem_of_union, elem_of_singleton, elem_of_app,
        list_elem_of_singleton, Hused. tauto.
    - intros y [Hy| ->%list_elem_of_singleton]%elem_of_app.
      + destruct (Hshape y Hy) as [?|(a & n & j & ? & ? & ? & ?)]; [by left|].
        right. exists a, n, j. split_and!; try done. lia.
      + destruct Hform as [?|(a & n & ? & ? & ?)]; [by left|].
        right. exists a, n, i. split_and!; try done. lia. }
  destruct Hcases as [[-> ->]|[Hlt (a & n & Ha & Hn & Hnew & ->)]].
  - rewrite decide_True by (unfold max_attempts; lia).
    destruct (random_choice_run adjectives st1) as (a & Ha & Hrun1); [done|].
    destruct (random_choice_run nouns (advance st1)) as (n & Hn & Hrun2);
      [done|].
    rewrite (gen_bind_run _ _ _ _ _ Hrun1), (gen_bind_run _ _ _ _ _ Hrun2).
    eexists _, _. split; [done|]. apply Hadd; [|right; eauto].
    intros Hin. destruct (Hshape _ Hin)
      as [(a' & n' & Ha' & Hn' & Heq)|(a' & n' & j & Ha' & Hn' & Hj & Heq)].
    + symmetry in Heq. by apply plain_ne_numbered in Heq.
    + apply numbered_inj in Heq; [lia|done..].
  - rewrite decide_False by (unfold max_attempts in *; lia).
    eexists _, _. split; [done|]. apply Hadd; [|left; eauto].
    by rewrite <- Hused.
Qed.

Lemma generate_titles_run (start n : nat) t st :
  titles_ok start t →
  ∃ t' st',
    gen_for_each (seq start n) (generate_title rnd) t st = (inr t', st')
    ∧ titles_ok (start + n) t'.
Proof.
  revert start t st. induction n as [|n IH]; intros start t st Hok.
  - eexists _, _. split; [done|]. by rewrite Nat.add_0_r.
  - cbn [seq gen_for_each].
    destruct (generate_title_run start t st Hok) as (t1 & st1 & Hrun & Hok1).
    rewrite (gen_bind_run _ _ _ _ _ Hrun).
    destruct (IH (S start) t1 st1 Hok1) as (t' & st' & Hrun' & Hok').
    eexists _, _. split; [done|]. by rewrite Nat.add_succ_r.
Qed.

(** *** The songs relation *)

Lemma repeat_gen_run {A} (P : A → Prop) (body : Gen A) (n : nat) st :
  (∀ st, ∃ x st', body st = (inr x, st') ∧ P x) →
  ∃ xs st', repeat_gen n body st = (inr xs, st')
            ∧ length xs = n ∧ Forall P xs.
Proof.
  intros Hbody. revert st. induction n as [|n IH]; intros st.
  - eexists _, _. by split_and!.
  - cbn [repeat_gen]. destruct (Hbody st) as (x & st1 & Hrun & Hx).
    rewrite (gen_bind_run _ _ _ _ _ Hrun).
    destruct (IH st1) as (xs & st' & Hrun' & Hlen & Hall).
    rewrite (gen_bind_run _ _ _ _ _ Hrun').
    eexists _, _. split_and!; [done|simpl; lia|by constructor].
Qed.

Lemma choices_run {A} (seq : list A) (n : nat) st :
  seq ≠ [] →
  ∃ xs st', repeat_gen n (random_choice rnd seq) st = (inr xs, st')
            ∧ length xs = n ∧ Forall (.∈ seq) xs.
Proof.
  intros Hne. apply repeat_gen_run. intros st1.
  destruct (random_choice_run seq st1 Hne) as (x & Hx & Hrun). eauto.
Qed.

Lemma data_frame_columns (song_id title artist genre mood : list string) :
  length title = length song_id → length artist = length song_id →
  length genre = length song_id → length mood = length song_id →
  let rows :=
    zip_with (λ f x, f x)
      (zip_with (λ f x, f x)
         (zip_with (λ f x, f x) (zip_with RawSong.mk song_id title) artist)
         genre) mood in
  RawSong.song_id <$> rows = song_id ∧ RawSong.title <$> rows = title
  ∧ RawSong.artist <$> rows = artist ∧ RawSong.genre <$> rows = genre
  ∧ RawSong.mood <$> rows = mood.
Proof.
  revert title artist genre mood.
  induction song_id as [|i song_id IH];
    intros [|t title] [|a artist] [|g genre] [|m mood]; try done.
  intros [= Ht] [= Ha] [= Hg] [= Hm].
  destruct (IH title artist genre mood Ht Ha Hg Hm) as (? & ? & ? & ? & ?).
  cbn. split_and!; by f_equal.
Qed.

Lemma generate_songs_metadata_run (num_songs : nat) (st : RngState) :
  ∃ songs_df st',
    generate_songs_metadata rnd num_songs st = (inr songs_df, st')
    ∧ length songs_df = num_songs
    ∧ RawSong.song_id <$> songs_df = song_ids num_songs
    ∧ NoDup (RawSong.song_id <$> songs_df)
    ∧ NoDup (RawSong.title <$> songs_df)
    ∧ Forall (λ s, RawSong.artist s ∈ artists ∧ RawSong.genre s ∈ genres
                   ∧ RawSong.mood s ∈ moods) songs_df.
Proof.
  unfold generate_songs_metadata.
  destruct (generate_titles_run 0 num_songs
              {| titles := []; used_titles := ∅ |} st)
    as (t & st1 & Hrun1 & Hlen & Hnd & _).
  { split_and!; [done|constructor|set_solver|].
    by intros x ?%elem_of_nil. }
  rewrite (gen_bind_run _ _ _ _ _ Hrun1).
  destruct (choices_run artists num_songs st1) as (ar & st2 & Hrun2 & Har & Pa);
    [done|].
  rewrite (gen_bind_run _ _ _ _ _ Hrun2).
  destruct (choices_run genres num_songs st2) as (ge & st3 & Hrun3 & Hge & Pg);
    [done|].
  rewrite (gen_bind_run _ _ _ _ _ Hrun3).
  destruct (choices_run moods num_songs st3) as (mo & st4 & Hrun4 & Hmo & Pm);
    [done|].
  rewrite (gen_bind_run _ _ _ _ _ Hrun4).
  assert (length (song_ids num_songs) = num_songs) as Hids
    by (unfold song_ids; by rewrite length_fmap, length_seq).
  unfold data_frame. rewrite decide_True by (rewrite Hids; simpl in Hlen; lia).
  destruct (data_frame_columns (song_ids num_songs) (titles t) ar ge mo)
    as (Hc1 & Hc2 & Hc3 & Hc4 & Hc5); [simpl in Hlen; lia..|].
  eexists _, _. split; [done|]. split_and!.
  - rewrite <- Hids at 2. rewrite <- Hc1 at 2. by rewrite length_fmap.
  - done.
  - rewrite Hc1. apply prefixed_ids_NoDup.
  - by rewrite Hc2.
  - apply Forall_forall. intros s Hs. split_and!.
    + eapply Forall_forall in Pa; [exact Pa|]. rewrite <- Hc3.
      by apply list_elem_of_fmap_2.
    + eapply Forall_forall in Pg; [exact Pg|]. rewrite <- Hc4.
      by apply list_elem_of_fmap_2.
    + eapply Forall_forall in Pm; [exact Pm|]. rewrite <- Hc5.
      by apply list_elem_of_fmap_2.
Qed.

(** Whatever the random draws, the generator of the songs returns, with no
    error, as many songs as asked for, with the identifiers in order and
    distinct (so [song_id] is a key), with distinct titles, and with
    artist, genre and mood from the generator's lists. *)
Theorem generate_songs_metadata_well_formed (num_songs : nat) (st : RngState) :
  ∃ songs_df st',
    generate_songs_metadata rnd num_songs st = (inr songs_df, st')
    ∧ length songs_df = num_songs
    ∧ RawSong.song_id <$> songs_df = song_ids num_songs
    ∧ NoDup (RawSong.song_id <$> songs_df)
    ∧ NoDup (RawSong.title <$> songs_df)
    ∧ (∀ s, s ∈ songs_df →
         RawSong.artist s ∈ artists ∧ RawSong.genre s ∈ genres
         ∧ RawSong.mood s ∈ moods).
Proof.
  destruct (generate_songs_metadata_run num_songs st)
    as (songs_df & st' & Hrun & Hlen & Hids & Hnd & Htitles & Hcols).
  exists songs_df, st'. split_and!; try done.
  intros s Hs. by eapply Forall_forall in Hcols.
Qed.

(** *** Draws *)

Lemma random_randint_run (a b : Z) st :
  (a ≤ b)%Z →
  ∃ v, random_randint rnd a b st = (inr v, advance st) ∧ (a ≤ v ≤ b)%Z.
Proof.
  intros Hab. unfold random_randint. rewrite decide_False by lia.
  eexists. split; [done|].
  pose proof (Z.mod_pos_bound (Z.of_nat (random_bits rnd (random_pos st)))
                (b - a + 1)). lia.
Qed.

Lemma sample_go_run {A} (k : nat) (population : list A) st :
  k ≤ length population →
  ∃ xs st', sample_go rnd k population st = (inr xs, st').
Proof.
  revert population st. induction k as [|k IH]; intros population st Hk.
  - by eexists _, _.
  - cbn [sample_go]. unfold gen_bind at 1. cbn [next_random].
    set (j := random_bits rnd (random_pos st) `mod` length population).
    assert (j < length population) as Hj
      by (apply Nat.mod_upper_bound; lia).
    destruct (lookup_lt_is_Some_2 population j Hj) as [x Hx]. rewrite Hx.
    destruct (IH (delete j population) (advance st)) as (xs & st' & Hrun).
    { rewrite length_delete by done. lia. }
    unfold advance in Hrun. rewrite (gen_bind_run _ _ _ _ _ Hrun).
    by eexists _, _.
Qed.

Lemma random_sample_run {A} (population : list A) st :
  ∃ xs st',
    random_sample rnd population (3 `min` length population) st
    = (inr xs, st').
Proof.
  unfold random_sample. rewrite decide_False by lia.
  apply sample_go_run. lia.
Qed.

(** *** Weights *)

Lemma is_positive_spec (q : Q) : is_positive q ↔ (0 < q)%Q.
Proof.
  unfold is_positive. rewrite negb_True, Is_true_true, Qle_bool_iff. split.
  - apply Qnot_le_lt.
  - intros Hlt Hle. by apply (Qlt_not_le _ _ Hlt).
Qed.

Lemma foldl_Qplus (acc : Q) (l : list Q) :
  (foldl Qplus acc l == acc + sumQ l)%Q.
Proof.
  unfold sumQ. revert acc. induction l as [|x l IH]; intros acc; simpl.
  - ring.
  - rewrite (IH (acc + x)%Q), (IH (0 + x)%Q). ring.
Qed.

Lemma sumQ_cons (x : Q) (l : list Q) : (sumQ (x :: l) == x + sumQ l)%Q.
Proof.
  unfold sumQ at 1. simpl. rewrite foldl_Qplus. ring.
Qed.

Lemma sumQ_pos (l : list Q) :
  Forall (λ q, 0 < q)%Q l → l ≠ [] → (0 < sumQ l)%Q.
Proof.
  intros Hall Hne.
  assert (0 <= sumQ l)%Q as Hnonneg.
  { clear Hne. induction Hall as [|x l Hx _ IH]; [done|].
    rewrite sumQ_cons. apply Qlt_le_weak in Hx.
    by apply (Qplus_le_compat 0 x 0 (sumQ l)). }
  destruct Hall as [|x l Hx Hall]; [done|]. rewrite sumQ_cons.
  assert (0 <= sumQ l)%Q as Hl.
  { clear -Hall. induction Hall as [|y l Hy _ IH]; [done|].
    rewrite sumQ_cons. apply Qlt_le_weak in Hy.
    by apply (Qplus_le_compat 0 y 0 (sumQ l)). }
  by apply (Qplus_lt_le_compat 0 x 0 (sumQ l)).
Qed.

Lemma sumQ_scaled (t : Q) (l : list Q) :
  (sumQ ((λ w, w / t) <$> l) == sumQ l / t)%Q.
Proof.
  induction l as [|x l IH].
  - unfold sumQ. simpl. unfold Qdiv. ring.
  - rewrite fmap_cons, !sumQ_cons, IH. unfold Qdiv. ring.
Qed.

Lemma song_weight_pos fav_genres fav_moods song :
  (0 < song_weight fav_genres fav_moods song)%Q.
Proof. unfold song_weight. by repeat case_decide. Qed.

(** The probabilities a user's songs are drawn with: one per song, each
    above zero and the raw weight over the total, adding up to one. *)
Lemma normalize_song_weights (fav_genres fav_moods : list string)
    (songs_df : list RawSong.t) :
  songs_df ≠ [] →
  let raw := song_weight fav_genres fav_moods <$> songs_df in
  let p := normalize raw in
  p = (λ w, w / sumQ raw)%Q <$> raw
  ∧ length p = length songs_df
  ∧ Forall (λ q, 0 < q)%Q p
  ∧ (sumQ p == 1)%Q.
Proof.
  intros Hne raw p.
  assert (0 < sumQ raw)%Q as Htotal.
  { apply sumQ_pos; [|by destruct songs_df].
    apply Forall_fmap, Forall_forall. intros s _. apply song_weight_pos. }
  assert (p = (λ w, w / sumQ raw)%Q <$> raw) as Hp.
  { subst p. unfold normalize.
    by destruct (is_positive (sumQ raw)) eqn:Hpos;
      [|apply is_positive_spec in Htotal; rewrite Hpos in Htotal]. }
  split; [done|]. rewrite Hp. split_and!.
  - subst raw. by rewrite !length_fmap.
  - apply Forall_fmap, Forall_fmap, Forall_forall. intros s _. simpl.
    apply Qlt_shift_div_l; [done|]. rewrite Qmult_0_l. apply song_weight_pos.
  - rewrite sumQ_scaled. apply Qmult_inv_r.
    intros Hzero. rewrite Hzero in Htotal. by apply Qlt_irrefl in Htotal.
Qed.

Lemma numpy_choice_run (n : nat) (p : list Q) st :
  n ≠ 0 → length p = n → Forall (λ q, 0 < q)%Q p → (sumQ p == 1)%Q →
  ∃ i st', numpy_choice rnd n p st = (inr i, st') ∧ i < n.
Proof.
  intros Hn Hlen Hpos Hsum. unfold numpy_choice.
  rewrite decide_False by done. rewrite decide_False by (intros ?; done).
  assert (forallb (λ q, Qle_bool 0 q) p = true) as ->.
  { apply Is_true_true, forallb_True. eapply Forall_impl; [exact Hpos|].
    intros q Hq. apply Is_true_true, Qle_bool_iff. by apply Qlt_le_weak. }
  apply Qeq_bool_iff in Hsum. rewrite Hsum. cbn [negb].
  unfold gen_bind. cbn [next_numpy].
  rewrite (filter_all _ (seq 0 n)).
  - rewrite length_seq.
    pose proof (Z.mod_pos_bound (numpy_bits rnd (numpy_pos st)) (Z.of_nat n)).
    rewrite lookup_seq_lt by lia. eexists _, _. split; [done|]. lia.
  - intros i [_ Hi]%elem_of_seq. apply is_positive_spec.
    destruct (lookup_lt_is_Some_2 p i) as [q Hq]; [lia|]. rewrite Hq. simpl.
    eapply Forall_forall in Hpos; [exact Hpos|].
    by eapply list_elem_of_lookup_2.
Qed.

(** *** The listening logs *)

Lemma overflows_false (x bound : Q) :
  (Qabs x <= bound)%Q → (bound < inject_Z float_limit)%Q →
  overflows x = false.
Proof.
  intros Hx Hbound. unfold overflows.
  destruct (Qle_bool _ _) eqn:Hle; [|done].
  apply Qle_bool_iff in Hle. exfalso.
  apply (Qlt_irrefl bound). eapply Qlt_le_trans; [exact Hbound|].
  by eapply Qle_trans.
Qed.

Lemma overflows_true (x : Q) :
  (inject_Z float_limit <= Qabs x)%Q → overflows x = true.
Proof. intros Hx. unfold overflows. by apply Qle_bool_iff. Qed.

Lemma Qabs_inject_Z (n : Z) : Qabs (inject_Z n) = inject_Z (Z.abs n).
Proof. reflexivity. Qed.

Lemma Qabs_quarter (n : Z) :
  (Qabs (inject_Z n / 4) == inject_Z (Z.abs n) / 4)%Q.
Proof.
  unfold Qdiv. rewrite Qabs_Qmult, Qabs_inject_Z. reflexivity.
Qed.

Lemma quarter_le (n m : Z) :
  (n ≤ m)%Z → (inject_Z n / 4 <= inject_Z m / 4)%Q.
Proof.
  intros Hn. unfold Qdiv. apply Qmult_le_compat_r; [|done].
  by rewrite <- Zle_Qle.
Qed.

Lemma clamp_bound (bound x : Q) :
  (0 <= bound)%Q → (Qabs (clamp bound x) <= bound)%Q.
Proof.
  intros Hbound. apply Qabs_Qle_condition. unfold clamp.
  destruct (Qle_bool x (- bound)) eqn:Hlow.
  { split; [apply Qle_refl|]. eapply Qle_trans; [|exact Hbound].
    apply (Qopp_le_compat 0 bound) in Hbound. exact Hbound. }
  destruct (Qle_bool bound x) eqn:Hhigh.
  { split; [|apply Qle_refl]. eapply Qle_trans; [|exact Hbound].
    apply (Qopp_le_compat 0 bound) in Hbound. exact Hbound. }
  split.
  - apply Qlt_le_weak, Qnot_le_lt. intros Hle%Qle_bool_iff. congruence.
  - apply Qlt_le_weak, Qnot_le_lt. intros Hle%Qle_bool_iff. congruence.
Qed.

Lemma true_div_run (n m : Z) st :
  overflows (inject_Z n / inject_Z m) = false →
  true_div n m st = (inr (inject_Z n / inject_Z m)%Q, st).
Proof. intros Hfin. unfold true_div. by rewrite Hfin. Qed.

Lemma true_div_raise (n m : Z) st :
  overflows (inject_Z n / inject_Z m) = true →
  true_div n m st = (inl OverflowError, st).
Proof. intros Hinf. unfold true_div. by rewrite Hinf. Qed.

Lemma float_of_int_run (n : Z) st :
  overflows (inject_Z n) = false → float_of_int n st = (inr (inject_Z n), st).
Proof. intros Hfin. unfold float_of_int. by rewrite Hfin. Qed.

Lemma float_of_int_raise (n : Z) st :
  overflows (inject_Z n) = true → float_of_int n st = (inl OverflowError, st).
Proof. intros Hinf. unfold float_of_int. by rewrite Hinf. Qed.

(** The scale [avg * days / 4] of the normal draw has the sign of
    [avg * days]. *)
Lemma scale_nonneg (n : Z) : (0 ≤ n)%Z → (0 <= inject_Z n / 4)%Q.
Proof.
  intros Hn. apply Qle_shift_div_l; [done|]. rewrite Qmult_0_l.
  change 0%Q with (inject_Z 0). by rewrite <- Zle_Qle.
Qed.

Lemma scale_neg (n : Z) : (n < 0)%Z → (inject_Z n / 4 < 0)%Q.
Proof.
  intros Hn. apply Qlt_shift_div_r; [done|]. rewrite Qmult_0_l.
  change 0%Q with (inject_Z 0). by rewrite <- Zlt_Qlt.
Qed.

Lemma mean_finite (n : Z) :
  (Z.abs n ≤ 2 ^ 1021)%Z →
  overflows (inject_Z n / inject_Z 4) = false
  ∧ overflows (inject_Z n) = false.
Proof.
  intros Hn. split.
  - apply (overflows_false _ (inject_Z (2 ^ 1021) / 4)); [|done].
    change (inject_Z 4) with 4%Q. rewrite Qabs_quarter. by apply quarter_le.
  - apply (overflows_false _ (inject_Z (2 ^ 1021))); [|done].
    rewrite Qabs_inject_Z. by rewrite <- Zle_Qle.
Qed.

(** The normal draw about a mean of [2 ^ 1021] or less is a finite
    float. *)
Lemma numpy_normal_run (n : Z) st :
  (0 ≤ n ≤ 2 ^ 1021)%Z →
  ∃ x, numpy_normal rnd n (inject_Z n / 4) st
       = (inr (Some x),
          {| random_pos := random_pos st; numpy_pos := S (numpy_pos st) |})
       ∧ (n = 0%Z → Qnum x = 0%Z).
Proof.
  intros [Hpos Hn].
  assert (Z.abs n ≤ 2 ^ 1021)%Z as Habs by lia.
  destruct (mean_finite n Habs) as [_ Hloc].
  unfold numpy_normal. unfold gen_bind at 1.
  rewrite (float_of_int_run n st Hloc).
  pose proof (scale_nonneg n Hpos) as Hscale.
  apply Qle_bool_iff in Hscale as Hscale'. rewrite Hscale'. cbn [negb].
  unfold gen_bind, legacy_gauss, gen_ret.
  set (deviate := clamp gauss_bound _).
  assert (Qabs (inject_Z n / 4 * deviate)
          <= inject_Z (2 ^ 1021) / 4 * gauss_bound)%Q as Hproduct.
  { rewrite Qabs_Qmult, Qabs_quarter.
    apply Qmult_le_compat_nonneg.
    - split; [apply scale_nonneg; lia|by apply quarter_le].
    - split; [apply Qabs_nonneg|by apply clamp_bound]. }
  unfold float.
  rewrite (overflows_false _ _ Hproduct) by done. cbn [mbind option_bind].
  rewrite (overflows_false _ (inject_Z (2 ^ 1021)
                              + inject_Z (2 ^ 1021) / 4 * gauss_bound)).
  - eexists. split; [done|]. intros ->. simpl. lia.
  - eapply Qle_trans; [apply Qabs_triangle|].
    apply Qplus_le_compat; [|done].
    rewrite Qabs_inject_Z, <- Zle_Qle. lia.
  - done.
Qed.

Lemma numpy_normal_raise (n : Z) st :
  (- 2 ^ 1021 ≤ n < 0)%Z →
  numpy_normal rnd n (inject_Z n / 4) st = (inl ValueError, st).
Proof.
  intros [Hn Hneg].
  assert (Z.abs n ≤ 2 ^ 1021)%Z as Habs by lia.
  destruct (mean_finite n Habs) as [_ Hloc].
  unfold numpy_normal. unfold gen_bind at 1.
  rewrite (float_of_int_run n st Hloc).
  destruct (Qle_bool 0 (inject_Z n / 4)) eqn:Hle; [|done].
  apply Qle_bool_iff, Qle_not_lt in Hle. destruct Hle. by apply scale_neg.
Qed.

(** A mean too large for a float ends the draw with an [OverflowError],
    from the division or from the conversion of the mean. *)
Lemma normal_draw_overflow (n : Z) st :
  (float_limit ≤ Z.abs n)%Z →
  (scale <- true_div n 4;; numpy_normal rnd n scale)%gen st
  = (inl OverflowError, st).
Proof.
  intros Hn. unfold gen_bind at 1, true_div.
  destruct (overflows (inject_Z n / inject_Z 4)); [done|]. cbn [gen_ret].
  unfold numpy_normal, gen_bind at 1.
  rewrite float_of_int_raise; [done|].
  apply overflows_true. by rewrite Qabs_inject_Z, <- Zle_Qle.
Qed.

Lemma timedelta_run (days : Z) st :
  (-999999999 ≤ days ≤ 999999999)%Z →
  timedelta days st = (inr (days * 86400)%Z, st).
Proof. intros Hdays. unfold timedelta. by rewrite decide_True. Qed.

Lemma datetime_sub_run (date delta : Z) st :
  (datetime_min ≤ date - delta ≤ datetime_max)%Z →
  datetime_sub date delta st = (inr (date - delta)%Z, st).
Proof. intros Hdate. unfold datetime_sub. by rewrite decide_True. Qed.

Lemma generate_play_run end_date start_date songs_df fav_genres fav_moods
    user logs st :
  songs_df ≠ [] → (start_date ≤ end_date)%Z →
  ∃ p st',
    generate_play rnd end_date start_date songs_df fav_genres fav_moods
      (normalize (song_weight fav_genres fav_moods <$> songs_df)) user logs st
    = (inr (logs ++ [p]), st')
    ∧ play_ok end_date start_date songs_df user p.
Proof.
  intros Hne Hdays. unfold generate_play.
  destruct (normalize_song_weights fav_genres fav_moods songs_df Hne)
    as (_ & Hlen & Hpos & Hsum).
  destruct (numpy_choice_run (length (RawSong.song_id <$> songs_df))
              (normalize (song_weight fav_genres fav_moods <$> songs_df)) st)
    as (i & st1 & Hrun & Hi); [|by rewrite length_fmap|done|done|].
  { rewrite length_fmap. by destruct songs_df. }
  rewrite (gen_bind_run _ _ _ _ _ Hrun). rewrite length_fmap in Hi.
  destruct (lookup_lt_is_Some_2 songs_df i Hi) as [song Hsong]. rewrite Hsong.
  destruct (random_randint_run 0 (end_date - start_date) st1)
    as (secs & Hrun1 & Hsecs); [lia|].
  rewrite (gen_bind_run _ _ _ _ _ Hrun1).
  assert (song ∈ songs_df) as Hin by by eapply list_elem_of_lookup_2.
  destruct (decide (RawSong.genre song ∈ fav_genres ∨ RawSong.mood song ∈ fav_moods))
    as [Hfav|Hfav].
  - destruct (random_randint_run 180 300 (advance st1)) as (d & Hrun2 & Hd);
      [lia|].
    rewrite (gen_bind_run _ _ _ _ _ Hrun2). eexists _, _. split; [done|].
    unfold play_ok. cbn [user_id song_id timestamp duration_sec].
    split_and!; try done; try lia. by apply list_elem_of_fmap_2.
  - destruct (random_randint_run 30 300 (advance st1)) as (d & Hrun2 & Hd);
      [lia|].
    rewrite (gen_bind_run _ _ _ _ _ Hrun2). eexists _, _. split; [done|].
    unfold play_ok. cbn [user_id song_id timestamp duration_sec].
    split_and!; try done; try lia. by apply list_elem_of_fmap_2.
Qed.

Lemma generate_plays_run end_date start_date songs_df fav_genres fav_moods
    user (rounds : list nat) logs st :
  songs_df ≠ [] → (start_date ≤ end_date)%Z →
  ∃ new st',
    gen_for_each rounds
      (λ _, generate_play rnd end_date start_date songs_df fav_genres
              fav_moods
              (normalize (song_weight fav_genres fav_moods <$> songs_df)) user)
      logs st
    = (inr (logs ++ new), st')
    ∧ length new = length rounds
    ∧ Forall (play_ok end_date start_date songs_df user) new.
Proof.
  intros Hne Hdays. revert logs st.
  induction rounds as [|r rounds IH]; intros logs st.
  - exists [], st. by rewrite app_nil_r.
  - cbn [gen_for_each].
    destruct (generate_play_run end_date start_date songs_df fav_genres
                fav_moods user logs st Hne Hdays) as (p & st1 & Hrun & Hp).
    rewrite (gen_bind_run _ _ _ _ _ Hrun).
    destruct (IH (logs ++ [p]) st1) as (new & st' & Hrun' & Hlen & Hall).
    exists (p :: new), st'. rewrite Hrun', <- app_assoc.
    split_and!; [done|simpl; lia|by constructor].
Qed.

Lemma generate_user_run end_date start_date songs_df days avg user logs st :
  songs_df ≠ [] → (start_date ≤ end_date)%Z →
  (0 ≤ avg * days ≤ 2 ^ 1021)%Z →
  ∃ new st',
    generate_user rnd end_date start_date songs_df days avg user logs st
    = (inr (logs ++ new), st')
    ∧ 1 ≤ length new
    ∧ ((avg * days = 0)%Z → length new = 1)
    ∧ Forall (play_ok end_date start_date songs_df user) new.
Proof.
  intros Hne Hdays Hscale. unfold generate_user.
  destruct (random_sample_run (unique (RawSong.genre <$> songs_df)) st)
    as (fav_genres & st1 & Hrun1).
  rewrite (gen_bind_run _ _ _ _ _ Hrun1).
  destruct (random_sample_run (unique (RawSong.mood <$> songs_df)) st1)
    as (fav_moods & st2 & Hrun2).
  rewrite (gen_bind_run _ _ _ _ _ Hrun2).
  assert (Z.abs (avg * days) ≤ 2 ^ 1021)%Z as Habs by lia.
  destruct (mean_finite _ Habs) as [Hdiv _].
  rewrite (gen_bind_run _ _ _ _ _ (true_div_run _ 4 st2 Hdiv)).
  destruct (numpy_normal_run (avg * days) st2 Hscale) as (x & Hrun3 & Hx).
  change (inject_Z 4) with 4%Q. rewrite (gen_bind_run _ _ _ _ _ Hrun3).
  unfold gen_bind at 1, int. cbn [gen_ret].
  set (drawn := (Qnum x ÷ Z.pos (Qden x))%Z).
  set (num_plays := (1 `max` drawn)%Z).
  destruct (generate_plays_run end_date start_date songs_df fav_genres
              fav_moods user (seq 0 (Z.to_nat num_plays)) logs
              {| random_pos := random_pos st2; numpy_pos := S (numpy_pos st2) |}
              Hne Hdays) as (new & st' & Hrun & Hlen & Hall).
  exists new, st'. rewrite Hlen, length_seq. split_and!; [done|lia| |done].
  intros Hzero. subst num_plays drawn. by rewrite (Hx Hzero).
Qed.

Lemma generate_users_run end_date start_date songs_df days avg
    (users : list string) logs st :
  songs_df ≠ [] → (start_date ≤ end_date)%Z →
  (0 ≤ avg * days ≤ 2 ^ 1021)%Z →
  ∃ new st',
    gen_for_each users
      (generate_user rnd end_date start_date songs_df days avg) logs st
    = (inr (logs ++ new), st')
    ∧ Forall (λ p, user_id p ∈ users
                   ∧ play_ok end_date start_date songs_df (user_id p) p) new
    ∧ (∀ u, u ∈ users → ∃ p, p ∈ new ∧ user_id p = u)
    ∧ length users ≤ length new
    ∧ ((avg * days = 0)%Z → user_id <$> new = users).
Proof.
  intros Hne Hdays Hscale. revert logs st.
  induction users as [|u users IH]; intros logs st.
  - exists [], st. rewrite app_nil_r. split_and!; [done|done| |done|done].
    by intros u ?%elem_of_nil.
  - cbn [gen_for_each].
    destruct (generate_user_run end_date start_date songs_df days avg u logs
                st Hne Hdays Hscale)
      as (new1 & st1 & Hrun1 & Hlen1 & Hone & Hall1).
    rewrite (gen_bind_run _ _ _ _ _ Hrun1).
    destruct (IH (logs ++ new1) st1)
      as (new2 & st' & Hrun2 & Hall2 & Hex & Hlen2 & Hcol).
    exists (new1 ++ new2), st'. rewrite Hrun2, <- app_assoc. split_and!.
    + done.
    + apply Forall_app. split.
      * eapply Forall_impl; [exact Hall1|]. intros p Hp.
        pose proof Hp as [-> _]. split; [apply list_elem_of_here|done].
      * eapply Forall_impl; [exact Hall2|]. intros p [Hu Hp].
        split; [by apply list_elem_of_further|done].
    + intros v [->|Hv]%elem_of_cons.
      * destruct new1 as [|p new1]; [simpl in Hlen1; lia|].
        apply Forall_cons in Hall1 as [[Hp _] _].
        exists p. split; [apply list_elem_of_here|done].
      * destruct (Hex v Hv) as (p & Hp & Hpu). exists p.
        split; [|done]. apply elem_of_app. by right.
    + rewrite length_app. simpl. lia.
    + intros Hzero. rewrite fmap_app, (Hcol Hzero).
      destruct new1 as [|p [|? ?]]; [by specialize (Hone Hzero)..| |];
        [|by specialize (Hone Hzero)].
      apply Forall_cons in Hall1 as [[Hp _] _]. simpl. by rewrite Hp.
Qed.

(** The start of the window is computed once, before any row. *)
Lemma generate_listening_logs_start now songs_df num_users days avg st :
  (0 ≤ days)%Z → (datetime_min ≤ now - days * 86400)%Z →
  (now ≤ datetime_max)%Z →
  generate_listening_logs rnd now songs_df num_users days avg st
  = gen_for_each (user_ids num_users)
      (generate_user rnd now (now - days * 86400) songs_df days avg) [] st.
Proof.
  intros Hdays Hmin Hmax. unfold generate_listening_logs.
  assert (-999999999 ≤ days ≤ 999999999)%Z as Hdelta
    by (unfold datetime_min, datetime_max in *; lia).
  rewrite (gen_bind_run _ _ _ _ _ (timedelta_run days st Hdelta)).
  assert (datetime_min ≤ now - days * 86400 ≤ datetime_max)%Z as Hstart by lia.
  by rewrite (gen_bind_run _ _ _ _ _ (datetime_sub_run now _ st Hstart)).
Qed.

(** With at least one song, a window of [days >= 0] that starts no
    earlier than [datetime.min] and a mean number of plays over the window,
    [avg_plays_per_user_per_day * days], from 0 to [2 ^ 1021] (every float
    of the normal draw is then finite, whatever the rounding), the
    generator of the listening logs returns with no error, whatever the
    random draws; every row is of a generated user and of a song of
    [songs_df], is dated within the [days] before [now], and lasts from 30
    to 300 seconds; and every generated user has at least one row. *)
Theorem generate_listening_logs_well_formed (now : Z) (songs_df : list RawSong.t)
    (num_users : nat) (days avg_plays_per_user_per_day : Z) (st : RngState) :
  songs_df ≠ [] →
  (0 ≤ days)%Z → (0 ≤ avg_plays_per_user_per_day * days ≤ 2 ^ 1021)%Z →
  (datetime_min ≤ now - days * 86400)%Z → (now ≤ datetime_max)%Z →
  ∃ logs st',
    generate_listening_logs rnd now songs_df num_users days
      avg_plays_per_user_per_day st = (inr logs, st')
    ∧ Forall (λ p, user_id p ∈ user_ids num_users
                   ∧ song_id p ∈ RawSong.song_id <$> songs_df
                   ∧ (now - days * 86400 ≤ timestamp p ≤ now)%Z
                   ∧ (30 ≤ duration_sec p ≤ 300)%Z) logs
    ∧ (∀ u, u ∈ user_ids num_users → ∃ p, p ∈ logs ∧ user_id p = u)
    ∧ num_users ≤ length logs.
Proof.
  intros Hne Hdays Hscale Hmin Hmax.
  rewrite generate_listening_logs_start by done.
  destruct (generate_users_run now (now - days * 86400) songs_df days
              avg_plays_per_user_per_day (user_ids num_users) [] st)
    as (logs & st' & Hrun & Hall & Hex & Hlen & _); [done|lia|done|].
  exists logs, st'. split_and!; [done| |done|].
  - eapply Forall_impl; [exact Hall|]. intros p [Hu (_ & ? & ? & ?)]. done.
  - unfold user_ids in Hlen. by rewrite length_fmap, length_seq in Hlen.
Qed.

(** With a window that [datetime] can hold, a mean number of plays over
    the window, [avg_plays_per_user_per_day * days], of magnitude
    [2 ^ 1021] or less (no float of the normal draw is then infinite) and
    at least one user to generate, the generator of the listening logs
    fails with a [ValueError] when there is no song (from
    [np.random.choice]), when the window [days] is negative (from
    [random.randint]), and when the mean number of plays over the window is
    negative (from [np.random.normal]). *)
Theorem generate_listening_logs_value_error (now : Z)
    (songs_df : list RawSong.t) (num_users : nat)
    (days avg_plays_per_user_per_day : Z) (st : RngState) :
  (-999999999 ≤ days ≤ 999999999)%Z →
  (datetime_min ≤ now - days * 86400 ≤ datetime_max)%Z →
  (Z.abs (avg_plays_per_user_per_day * days) ≤ 2 ^ 1021)%Z →
  0 < num_users →
  songs_df = [] ∨ (days < 0)%Z ∨ (avg_plays_per_user_per_day * days < 0)%Z →
  ∃ st',
    generate_listening_logs rnd now songs_df num_users days
      avg_plays_per_user_per_day st = (inl ValueError, st').
Proof.
  intros Hdelta Hstart Habs Hn Hbad.
  unfold generate_listening_logs, user_ids.
  rewrite (gen_bind_run _ _ _ _ _ (timedelta_run days st Hdelta)).
  rewrite (gen_bind_run _ _ _ _ _ (datetime_sub_run now _ st Hstart)).
  destruct num_users as [|n]; [lia|]. cbn [seq fmap list_fmap gen_for_each].
  unfold gen_bind at 1, generate_user.
  destruct (random_sample_run (unique (RawSong.genre <$> songs_df)) st)
    as (fav_genres & st1 & Hrun1).
  rewrite (gen_bind_run _ _ _ _ _ Hrun1).
  destruct (random_sample_run (unique (RawSong.mood <$> songs_df)) st1)
    as (fav_moods & st2 & Hrun2).
  rewrite (gen_bind_run _ _ _ _ _ Hrun2).
  destruct (mean_finite _ Habs) as [Hdiv _].
  rewrite (gen_bind_run _ _ _ _ _ (true_div_run _ 4 st2 Hdiv)).
  change (inject_Z 4) with 4%Q.
  destruct (decide (avg_plays_per_user_per_day * days < 0)%Z) as [Hneg|Hpos].
  { unfold gen_bind at 1.
    rewrite numpy_normal_raise by lia. by eexists. }
  assert (0 ≤ avg_plays_per_user_per_day * days ≤ 2 ^ 1021)%Z as Hscale
    by lia.
  destruct (numpy_normal_run (avg_plays_per_user_per_day * days) st2 Hscale)
    as (x & Hrun3 & _).
  rewrite (gen_bind_run _ _ _ _ _ Hrun3).
  unfold gen_bind at 1, int. cbn [gen_ret].
  set (num_plays := (1 `max` _)%Z).
  destruct (Z.to_nat num_plays) as [|k] eqn:Hk; [lia|].
  cbn [seq gen_for_each]. unfold gen_bind at 1, generate_play.
  destruct (decide (songs_df = [])) as [->|Hne].
  - by eexists.
  - destruct Hbad as [?|[Hdays|?]]; [done| |done].
    destruct (normalize_song_weights fav_genres fav_moods songs_df Hne)
      as (_ & Hlen & Hpos' & Hsum).
    destruct (numpy_choice_run (length (RawSong.song_id <$> songs_df))
                (normalize (song_weight fav_genres fav_moods <$> songs_df))
                {| random_pos := random_pos st2;
                   numpy_pos := S (numpy_pos st2) |})
      as (i & st3 & Hrun & Hi); [|by rewrite length_fmap|done|done|].
    { rewrite length_fmap. by destruct songs_df. }
    rewrite (gen_bind_run _ _ _ _ _ Hrun). rewrite length_fmap in Hi.
    destruct (lookup_lt_is_Some_2 songs_df i Hi) as [song ->].
    unfold gen_bind at 1, random_randint. rewrite decide_True by lia.
    by eexists.
Qed.

(** A window that [timedelta] or [datetime] cannot hold makes the
    generator of the listening logs fail with an [OverflowError] before
    any random number is drawn, also when there is no user to generate. *)
Theorem generate_listening_logs_overflow (now : Z) (songs_df : list RawSong.t)
    (num_users : nat) (days avg_plays_per_user_per_day : Z) (st : RngState) :
  (days < -999999999 ∨ 999999999 < days
   ∨ now - days * 86400 < datetime_min
   ∨ datetime_max < now - days * 86400)%Z →
  generate_listening_logs rnd now songs_df num_users days
    avg_plays_per_user_per_day st = (inl OverflowError, st).
Proof.
  intros Hbad. unfold generate_listening_logs, gen_bind, timedelta.
  case_decide as Hdelta; [|done]. cbn [gen_ret]. unfold datetime_sub.
  case_decide as Hstart; [lia|done].
Qed.

(** A mean number of plays over the window,
    [avg_plays_per_user_per_day * days], too large for a float, of
    magnitude [2 ^ 1024 - 2 ^ 970] or more, makes the generator of the
    listening logs fail with an [OverflowError] at the first user, whatever
    the songs and the sign of the mean: from the division by 4 or, when
    the quotient is a float, from the conversion of the mean. *)
Theorem generate_listening_logs_float_overflow (now : Z)
    (songs_df : list RawSong.t) (num_users : nat)
    (days avg_plays_per_user_per_day : Z) (st : RngState) :
  (-999999999 ≤ days ≤ 999999999)%Z →
  (datetime_min ≤ now - days * 86400 ≤ datetime_max)%Z →
  0 < num_users →
  (float_limit ≤ Z.abs (avg_plays_per_user_per_day * days))%Z →
  ∃ st',
    generate_listening_logs rnd now songs_df num_users days
      avg_plays_per_user_per_day st = (inl OverflowError, st').
Proof.
  intros Hdelta Hstart Hn Hbig. unfold generate_listening_logs, user_ids.
  rewrite (gen_bind_run _ _ _ _ _ (timedelta_run days st Hdelta)).
  rewrite (gen_bind_run _ _ _ _ _ (datetime_sub_run now _ st Hstart)).
  destruct num_users as [|n]; [lia|]. cbn [seq fmap list_fmap gen_for_each].
  unfold gen_bind at 1, generate_user.
  destruct (random_sample_run (unique (RawSong.genre <$> songs_df)) st)
    as (fav_genres & st1 & Hrun1).
  rewrite (gen_bind_run _ _ _ _ _ Hrun1).
  destruct (random_sample_run (unique (RawSong.mood <$> songs_df)) st1)
    as (fav_moods & st2 & Hrun2).
  rewrite (gen_bind_run _ _ _ _ _ Hrun2).
  unfold gen_bind at 1, true_div.
  destruct (overflows (_ / _)); [by eexists|]. cbn [gen_ret].
  unfold gen_bind at 1, numpy_normal. unfold gen_bind at 1.
  rewrite float_of_int_raise; [by eexists|].
  apply overflows_true. by rewrite Qabs_inject_Z, <- Zle_Qle.
Qed.

(** When the mean number of plays times [days] is zero, the draw from the
    normal distribution is zero and [max(1, ...)] makes it one: the logs
    hold exactly one row for each generated user, in the order of the
    users. *)
Theorem generate_listening_logs_zero_mean (now : Z) (songs_df : list RawSong.t)
    (num_users : nat) (days avg_plays_per_user_per_day : Z) (st : RngState) :
  songs_df ≠ [] →
  (0 ≤ days)%Z → (avg_plays_per_user_per_day * days = 0)%Z →
  (datetime_min ≤ now - days * 86400)%Z → (now ≤ datetime_max)%Z →
  ∃ logs st',
    generate_listening_logs rnd now songs_df num_users days
      avg_plays_per_user_per_day st = (inr logs, st')
    ∧ user_id <$> logs = user_ids num_users.
Proof.
  intros Hne Hdays Hzero Hmin Hmax.
  rewrite generate_listening_logs_start by done.
  destruct (generate_users_run now (now - days * 86400) songs_df days
              avg_plays_per_user_per_day (user_ids num_users) [] st)
    as (logs & st' & Hrun & _ & _ & _ & Hcol); [done|lia|lia|].
  exists logs, st'. split; [done|]. by apply Hcol.
Qed.

(** With a clock that reads a [datetime] at least 30 days after
    [datetime.min], the generator's main program does not fail, whatever
    the random draws: it returns 500 songs with distinct identifiers and
    at least 100 log rows, every one of a song of the catalogue and of one
    of the 100 users, each of whom has a row. *)
Theorem generator_main_fixture (now : Z) (st : RngState) :
  (datetime_min + 30 * 86400 ≤ now ≤ datetime_max)%Z →
  ∃ songs_df logs st',
    generator_main rnd now st = (inr (songs_df, logs), st')
    ∧ length songs_df = 500
    ∧ NoDup (RawSong.song_id <$> songs_df)
    ∧ 100 ≤ length logs
    ∧ Forall (λ p, user_id p ∈ user_ids 100
                   ∧ song_id p ∈ RawSong.song_id <$> songs_df) logs
    ∧ (∀ u, u ∈ user_ids 100 → ∃ p, p ∈ logs ∧ user_id p = u).
Proof.
  intros Hnow. unfold generator_main.
  destruct (generate_songs_metadata_run 500 st)
    as (songs_df & st1 & Hrun1 & Hlen & _ & Hids & _).
  rewrite (gen_bind_run _ _ _ _ _ Hrun1). unfold gen_bind at 1.
  rewrite generate_listening_logs_start by lia.
  destruct (generate_users_run now (now - 30 * 86400) songs_df 30 8
              (user_ids 100) [] st1)
    as (logs & st' & Hrun2 & Hall & Hex & Hn & _);
    [by destruct songs_df|lia|lia|].
  rewrite Hrun2. cbn [gen_ret].
  exists songs_df, logs, st'.
  unfold user_ids in Hn. rewrite length_fmap, length_seq in Hn.
  split_and!; try done.
  eapply Forall_impl; [exact Hall|]. by intros p (? & _ & ? & _).
Qed.

(** *** From the generator to the analyses *)

Lemma digit_pretty_N_char (x : N) :
  (x < 10)%N → digit (pretty_N_char x) = Some (Z.of_N x).
Proof.
  intros Hx.
  assert (x = 0 ∨ x = 1 ∨ x = 2 ∨ x = 3 ∨ x = 4 ∨ x = 5 ∨ x = 6
          ∨ x = 7 ∨ x = 8 ∨ x = 9)%N as Hcases by lia.
  destruct Hcases as [->|[->|[->|[->|[->|[->|[->|[->|[->| ->]]]]]]]]]; done.
Qed.

Lemma digits_pretty_N_go (x : N) (s : string) (k v : Z) :
  (∀ acc, digits acc s = Some (acc * 10 ^ k + v)%Z) → (0 ≤ k)%Z →
  ∀ acc, ∃ k', digits acc (pretty_N_go x s)
              = Some (acc * 10 ^ k' + Z.of_N x * 10 ^ k + v)%Z.
Proof.
  revert s k v. induction (N.lt_wf_0 x) as [x _ IH]; intros s k v Hs Hk acc.
  destruct (decide (x = 0)%N) as [->|Hx].
  - exists k. rewrite pretty_N_go_0, Hs. f_equal. lia.
  - rewrite pretty_N_go_step by lia.
    destruct (IH (x `div` 10)%N) with
      (s := String (pretty_N_char (x `mod` 10)) s) (k := (k + 1)%Z)
      (v := (Z.of_N (x `mod` 10) * 10 ^ k + v)%Z) (acc := acc) as [k' Hk'].
    + apply N.div_lt; lia.
    + intros acc'. cbn [digits].
      rewrite digit_pretty_N_char by (apply N.mod_lt; lia). simpl.
      rewrite Hs. f_equal. rewrite Z.pow_add_r by lia. lia.
    + lia.
    + exists k'. rewrite Hk'. f_equal.
      rewrite Z.pow_add_r by lia.
      rewrite (N.div_mod x 10) at 3 by lia. lia.
Qed.

Lemma digits_pretty_N (x : N) : digits 0 (pretty x) = Some (Z.of_N x).
Proof.
  unfold pretty, pretty_N. case_decide as Hx; [by subst|].
  destruct (digits_pretty_N_go x "" 0 0) with (acc := 0%Z) as [k' Hk'].
  - intros acc. cbn [digits]. f_equal. lia.
  - done.
  - rewrite Hk'. f_equal. lia.
Qed.

Lemma parse_ascii_int_digit_head (s : string) :
  digit_head s → parse_ascii_int s = digits 0 s ≫= in_int_range.
Proof.
  destruct s as [|c s]; [done|]. intros [_ Hsign]. unfold is_sign in Hsign.
  apply orb_false_elim in Hsign
    as [Hplus%bool_decide_eq_false Hminus%bool_decide_eq_false].
  unfold parse_ascii_int.
  destruct c as [[] [] [] [] [] [] [] []]; try done.
Qed.

Lemma digit_is_ascii (c : ascii) (d : Z) :
  digit c = Some d → (Ascii.N_of_ascii c < 128)%N.
Proof. destruct c as [[] [] [] [] [] [] [] []]; done. Qed.

Lemma digits_is_ascii (s : string) (acc v : Z) :
  digits acc s = Some v → is_ascii s = true.
Proof.
  revert acc. induction s as [|c s IH]; intros acc; [done|].
  cbn [digits is_ascii]. destruct (digit c) as [d|] eqn:Hd; [|done].
  intros Hs%IH. rewrite Hs, bool_decide_eq_true_2; [done|].
  by eapply digit_is_ascii.
Qed.

Lemma pretty_N_head (x : N) : (0 < x)%N → digit_head (pretty x).
Proof.
  intros Hx. unfold pretty, pretty_N. rewrite decide_False by lia.
  apply pretty_N_go_head. lia.
Qed.

(** An integer of the range of [IntegerType], written in decimal as
    [to_csv] writes it, is read back by the loader as itself. *)
Lemma parse_int_pretty (rt : Runtime) (d : Z) :
  (- 2 ^ 31 ≤ d < 2 ^ 31)%Z → parse_int rt (pretty d) = Some d.
Proof.
  intros Hd. unfold pretty, pretty_Z. destruct d as [|p|p].
  - done.
  - change (pretty p) with (pretty (N.pos p)).
    pose proof (digits_pretty_N (N.pos p)) as Hdigits.
    unfold parse_int. rewrite (digits_is_ascii _ _ _ Hdigits).
    rewrite parse_ascii_int_digit_head by by apply pretty_N_head.
    rewrite Hdigits. simpl. unfold in_int_range.
    by rewrite bool_decide_eq_true_2.
  - change (pretty p) with (pretty (N.pos p)).
    pose proof (pretty_N_head (N.pos p) eq_refl) as Hhead.
    pose proof (digits_pretty_N (N.pos p)) as Hdigits.
    pose proof (digits_is_ascii _ _ _ Hdigits) as Hascii.
    destruct (pretty (N.pos p)) as [|c s] eqn:Hs; [done|].
    change ("-" +:+ String c s) with (String "-" (String c s)).
    unfold parse_int. change (is_ascii (String "-" (String c s)))
      with (is_ascii (String c s)). rewrite Hascii.
    unfold parse_ascii_int. rewrite Hdigits. simpl. unfold in_int_range.
    by rewrite bool_decide_eq_true_2.
Qed.

(** A generated identifier is no empty field: the loader reads it as
    itself. *)
Lemma read_string_cons (c : ascii) (s : string) :
  read_string (String c s) = Some (String c s).
Proof. done. Qed.

Lemma read_string_song_ids (n : nat) (x : string) :
  x ∈ song_ids n → read_string x = Some x.
Proof. by intros (i & -> & _)%list_elem_of_fmap. Qed.

Lemma read_string_user_ids (n : nat) (x : string) :
  x ∈ user_ids n → read_string x = Some x.
Proof. by intros (i & -> & _)%list_elem_of_fmap. Qed.

(** A log row that the generator writes is read back by the loader with
    its user, its song and its duration, whatever the duration as long as
    [IntegerType] holds it: the duration is never NULL.  The user and the
    song are read as every text field is, an empty one as NULL; those of a
    generated user and of a generated song are not empty. *)
Theorem generated_row_loads_back (rt : Runtime) (strftime : Z → string)
    (p : Play) :
  (- 2 ^ 31 ≤ duration_sec p < 2 ^ 31)%Z →
  read_log rt (to_csv_row strftime p)
  = Log.mk (read_string (user_id p)) (read_string (song_id p))
           (read_string (strftime (timestamp p)) ≫= to_timestamp rt)
           (Some (duration_sec p))
  ∧ (∀ n, user_id p ∈ user_ids n → read_string (user_id p) = Some (user_id p))
  ∧ (∀ n, song_id p ∈ song_ids n → read_string (song_id p) = Some (song_id p)).
Proof.
  intros Hd. split_and!.
  - unfold read_log, to_csv_row. cbn [RawLog.user_id RawLog.song_id
      RawLog.timestamp RawLog.duration_sec]. by rewrite parse_int_pretty.
  - intros n. apply read_string_user_ids.
  - intros n. apply read_string_song_ids.
Qed.

(** The analyses run on the files of the generator's main program: the
    run completes, the join with the songs loses no log row, so that
    [enriched_logs] holds as many rows as the generator wrote, and every
    row has a duration from 30 to 300 seconds, none NULL. *)
Theorem generated_fixture_analysed (rt : Runtime) (strftime : Z → string)
    (now : Z) (st : RngState) :
  (datetime_min + 30 * 86400 ≤ now ≤ datetime_max)%Z →
  ∃ songs_df logs st',
    generator_main rnd now st = (inr (songs_df, logs), st')
    ∧ ∀ w, listening_logs_csv w = Some (to_csv_row strftime <$> logs) →
           songs_metadata_csv w = Some songs_df →
        ∃ w' rows,
          main rt w = (w', inr tt)
          ∧ output w' !! "enriched_logs" = Some (EnrichedLogs rows)
          ∧ length rows = length logs
          ∧ Forall (λ r, ∃ d, Enriched.duration_sec r = Some d
                              ∧ (30 ≤ d ≤ 300)%Z) rows.
Proof.
  intros Hnow. unfold generator_main.
  destruct (generate_songs_metadata_run 500 st)
    as (songs_df & st1 & Hrun1 & Hlen & Hsid & Hids & _).
  rewrite (gen_bind_run _ _ _ _ _ Hrun1). unfold gen_bind at 1.
  rewrite generate_listening_logs_start by lia.
  destruct (generate_users_run now (now - 30 * 86400) songs_df 30 8
              (user_ids 100) [] st1)
    as (logs & st' & Hrun2 & Hall & _ & _ & _);
    [by destruct songs_df|lia|lia|].
  rewrite Hrun2. cbn [gen_ret].
  exists songs_df, logs, st'. split; [done|]. intros w Hlogs Hsongs.
  pose proof (main_run rt w _ _ Hlogs Hsongs) as Hmain. cbv zeta in Hmain.
  rewrite Hmain. eexists _, _. split; [done|]. cbn [output].
  unfold written_output. split; [apply lookup_insert_eq|].
  assert (Song.song_id <$> (read_song <$> songs_df) = Some <$> song_ids 500)
    as Hkeys.
  { rewrite <- Hsid, <- !list_fmap_compose. apply Forall_fmap_ext_1.
    rewrite Forall_forall. intros r Hr. simpl.
    apply (read_string_song_ids 500). rewrite <- Hsid.
    by apply list_elem_of_fmap_2. }
  assert (Forall (λ l, is_Some (Log.song_id l)
                       ∧ Log.song_id l ∈ Song.song_id <$> (read_song <$> songs_df)
                       ∧ ∃ d, Log.duration_sec l = Some d ∧ (30 ≤ d ≤ 300)%Z)
            (read_log rt <$> (to_csv_row strftime <$> logs))) as Hloaded.
  { apply Forall_fmap, Forall_fmap. eapply Forall_impl; [exact Hall|].
    intros p (_ & _ & Hsong & _ & Hd). unfold compose, read_log, to_csv_row.
    cbn [Log.song_id Log.duration_sec RawLog.song_id RawLog.duration_sec].
    rewrite Hsid in Hsong.
    rewrite (read_string_song_ids 500 _ Hsong), Hkeys.
    split_and!; [done|by apply list_elem_of_fmap_2|].
    exists (duration_sec p). split; [apply parse_int_pretty; lia|done]. }
  split.
  - unfold enrich. rewrite length_fmap, length_inner_join.
    + rewrite filter_all, !length_fmap; [done|].
      intros l Hl. eapply Forall_forall in Hloaded as (? & ? & _); done.
    + apply NoDup_omap_fmap. rewrite Hkeys.
      apply (NoDup_fmap_2 Some). by rewrite <- Hsid.
  - apply Forall_forall. intros r Hr. unfold enrich in Hr.
    apply list_elem_of_fmap in Hr as ([e s'] & -> & Hes).
    apply elem_of_inner_join in Hes as (He & _ & _).
    eapply Forall_forall in Hloaded as (_ & _ & Hd); [|exact He]. done.
Qed.

End generator_facts.

Lemma generate_listening_logs_well_formed_witness :
  ∃ logs st',
    DataGenerator.generate_listening_logs example_randomness example_now
      scenario_raw_songs 2 30 8 start_state = (inr logs, st')
    ∧ Forall (λ p, DataGenerator.user_id p ∈ DataGenerator.user_ids 2
                   ∧ DataGenerator.song_id p
                     ∈ RawSong.song_id <$> scenario_raw_songs
                   ∧ (example_now - 30 * 86400 ≤ DataGenerator.timestamp p
                      ≤ example_now)%Z
                   ∧ (30 ≤ DataGenerator.duration_sec p ≤ 300)%Z) logs
    ∧ (∀ u, u ∈ DataGenerator.user_ids 2 →
         ∃ p, p ∈ logs ∧ DataGenerator.user_id p = u)
    ∧ 2 ≤ length logs.
Proof.
  apply (generate_listening_logs_well_formed example_randomness example_now
           scenario_raw_songs 2 30 8 start_state);
    [done|lia|lia|done|done].
Defined.

Lemma generate_listening_logs_value_error_witness :
  ∃ st',
    DataGenerator.generate_listening_logs example_randomness example_now
      [] 2 30 8 start_state = (inl DataGenerator.ValueError, st').
Proof.
  apply (generate_listening_logs_value_error example_randomness example_now
           [] 2 30 8 start_state); [lia|done|lia|lia|by left].
Defined.

Lemma generate_listening_logs_float_overflow_witness :
  ∃ st',
    DataGenerator.generate_listening_logs example_randomness example_now
      scenario_raw_songs 2 1 (2 ^ 1024) start_state
    = (inl DataGenerator.OverflowError, st').
Proof.
  apply (generate_listening_logs_float_overflow example_randomness
           example_now scenario_raw_songs 2 1 (2 ^ 1024) start_state);
    [lia|done|lia|by vm_compute].
Defined.

Lemma generate_listening_logs_overflow_witness :
  DataGenerator.generate_listening_logs example_randomness example_now
    scenario_raw_songs 0 1000000 8 start_state
  = (inl DataGenerator.OverflowError, start_state).
Proof.
  apply (generate_listening_logs_overflow example_randomness example_now
           scenario_raw_songs 0 1000000 8 start_state).
  right. right. left. reflexivity.
Defined.

Lemma generate_listening_logs_zero_mean_witness :
  ∃ logs st',
    DataGenerator.generate_listening_logs example_randomness example_now
      scenario_raw_songs 3 0 8 start_state = (inr logs, st')
    ∧ DataGenerator.user_id <$> logs = DataGenerator.user_ids 3.
Proof.
  apply (generate_listening_logs_zero_mean example_randomness example_now
           scenario_raw_songs 3 0 8 start_state); [done|lia|lia|done|done].
Defined.

Lemma generator_main_fixture_witness :
  ∃ songs_df logs st',
    DataGenerator.generator_main example_randomness example_now start_state
    = (inr (songs_df, logs), st')
    ∧ length songs_df = 500
    ∧ NoDup (RawSong.song_id <$> songs_df)
    ∧ 100 ≤ length logs
    ∧ Forall (λ p, DataGenerator.user_id p ∈ DataGenerator.user_ids 100
                   ∧ DataGenerator.song_id p ∈ RawSong.song_id <$> songs_df)
        logs
    ∧ (∀ u, u ∈ DataGenerator.user_ids 100 →
         ∃ p, p ∈ logs ∧ DataGenerator.user_id p = u).
Proof.
  apply (generator_main_fixture example_randomness example_now start_state).
  done.
Defined.

Lemma generated_row_loads_back_witness :
  let p := DataGenerator.Build_Play "U0001" "S0001" example_now 200 in
  read_log example_runtime (DataGenerator.to_csv_row example_strftime p)
  = Log.mk (read_string "U0001") (read_string "S0001")
      (read_string (example_strftime example_now)
       ≫= to_timestamp example_runtime)
      (Some 200%Z)
  ∧ (∀ n, DataGenerator.user_id p ∈ DataGenerator.user_ids n →
       read_string (DataGenerator.user_id p) = Some (DataGenerator.user_id p))
  ∧ (∀ n, DataGenerator.song_id p ∈ DataGenerator.song_ids n →
       read_string (DataGenerator.song_id p) = Some (DataGenerator.song_id p)).
Proof.
  apply (generated_row_loads_back example_runtime example_strftime
           (DataGenerator.Build_Play "U0001" "S0001" example_now 200)).
  done.
Defined.

Lemma generated_fixture_analysed_witness :
  ∃ songs_df logs st',
    DataGenerator.generator_main example_randomness example_now start_state
    = (inr (songs_df, logs), st')
    ∧ ∀ w,
        listening_logs_csv w
        = Some (DataGenerator.to_csv_row example_strftime <$> logs) →
        songs_metadata_csv w = Some songs_df →
        ∃ w' rows,
          main example_runtime w = (w', inr tt)
          ∧ output w' !! "enriched_logs" = Some (EnrichedLogs rows)
          ∧ length rows = length logs
          ∧ Forall (λ r, ∃ d, Enriched.duration_sec r = Some d
                              ∧ (30 ≤ d ≤ 300)%Z) rows.
Proof.
  apply (generated_fixture_analysed example_randomness example_runtime
           example_strftime example_now start_state).
  done.
Defined.
